(** * TASimulator: the Cosmos DB adapter ([lib/db/cosmosDB.js])

    A shallow embedding of the query builder [CosmosQueryBuilder] and of the
    driver class [CosmosDB] (field encryption, row decryption, change
    streams), together with the parts of the platform they call: the UTF-8
    and hex codecs of Node's [Buffer], the [aes-256-cbc] cipher of Node's
    [crypto], and the MongoDB cursor.

    Conventions.
    - A JavaScript string is the list of its UTF-16 code units ([list N]).
    - A byte is an [N] below 256; a buffer is a list of bytes.
    - A JavaScript number is an IEEE-754 double ([float]).
    - A plain object used as a dictionary is a [gmap] from strings holding
      its own properties; where the code stores under a computed key, the
      key [__proto__] adds no property, as in the language, and where it
      reads one, the members of [Object.prototype] are read as well.
    - Code that can throw returns a [result]; [try]/[catch] is [try_catch]. *)

From Stdlib Require Import NArith ZArith List Bool Lia Btauto.
From Stdlib Require Import Strings.String Strings.Ascii.
From Stdlib Require Import Floats.PrimFloat Floats.FloatOps Floats.SpecFloat.
From Stdlib Require Import Sorting.Permutation Sorting.Sorted.
From stdpp Require Import base option list gmap.

Local Open Scope N_scope.

(* ================================================================== *)
(** * JavaScript strings *)
(* ================================================================== *)

(** An ASCII literal as a JavaScript string. *)
Definition js (s : string) : list N :=
  map N_of_ascii (list_ascii_of_string s).

Definition COLON : N := 58.

(** [s.includes(':')] for a one-character needle. *)
Definition includes (c : N) (s : list N) : bool :=
  existsb (N.eqb c) s.

(** [s.split(c)]: the pieces between the occurrences of [c]; never empty. *)
Fixpoint split (c : N) (s : list N) : list (list N) :=
  match s with
  | [] => [[]]
  | x :: t =>
      if N.eqb x c then [] :: split c t
      else match split c t with
           | p :: ps => (x :: p) :: ps
           | [] => [[x]]
           end
  end.

(** [parts.join(c)]. *)
Fixpoint join (c : N) (parts : list (list N)) : list N :=
  match parts with
  | [] => []
  | [p] => p
  | p :: ps => p ++ c :: join c ps
  end.

(** [s.replace(/c/g, r)] for a one-character pattern: every occurrence. *)
Definition replace_all (c : N) (r : list N) (s : list N) : list N :=
  flat_map (fun x => if N.eqb x c then r else [x]) s.

(* ================================================================== *)
(** * Errors *)
(* ================================================================== *)

Inductive exn : Type :=
  | TypeError (msg : string)
  | CryptoError (msg : string)
  | MongoError (msg : string)
  | Error (msg : string).

Inductive result (A : Type) : Type :=
  | Ok (a : A)
  | Throw (e : exn).
Arguments Ok {A} a.
Arguments Throw {A} e.

Definition bind {A B} (r : result A) (k : A -> result B) : result B :=
  match r with
  | Ok a => k a
  | Throw e => Throw e
  end.

#[global] Instance result_ret : MRet result := fun A a => Ok a.
#[global] Instance result_bind : MBind result := fun A B k r => bind r k.
#[global] Instance result_fmap : FMap result :=
  fun A B f r => bind r (fun a => Ok (f a)).

(** [try { body } catch (error) { handler(error) }]. *)
Definition try_catch {A} (body : result A) (handler : exn -> result A)
  : result A :=
  match body with
  | Ok a => Ok a
  | Throw e => handler e
  end.

(* ================================================================== *)
(** * Buffers: the UTF-8 codec *)
(* ================================================================== *)

Definition is_high (u : N) : bool := (0xD800 <=? u) && (u <=? 0xDBFF).
Definition is_low (u : N) : bool := (0xDC00 <=? u) && (u <=? 0xDFFF).

(** The code points of a string as the encoder reads it: a surrogate pair
    is one code point, an unpaired surrogate is replaced by U+FFFD. *)
Fixpoint code_points (s : list N) : list N :=
  match s with
  | [] => []
  | u :: t =>
      if is_high u then
        match t with
        | v :: t' =>
            if is_low v
            then (0x10000 + (u - 0xD800) * 0x400 + (v - 0xDC00))
                   :: code_points t'
            else 0xFFFD :: code_points t
        | [] => [0xFFFD]
        end
      else if is_low u then 0xFFFD :: code_points t
      else u :: code_points t
  end.

Definition utf8_bytes (cp : N) : list N :=
  if cp <? 0x80 then [cp]
  else if cp <? 0x800 then [0xC0 + cp / 64; 0x80 + cp mod 64]
  else if cp <? 0x10000 then
    [0xE0 + cp / 4096; 0x80 + (cp / 64) mod 64; 0x80 + cp mod 64]
  else
    [0xF0 + cp / 262144; 0x80 + (cp / 4096) mod 64;
     0x80 + (cp / 64) mod 64; 0x80 + cp mod 64].

(** [Buffer.from(s, 'utf8')]. *)
Definition utf8_encode (s : list N) : list N :=
  flat_map utf8_bytes (code_points s).

(** The decoder is the state machine of the Encoding Standard: a malformed
    sequence yields U+FFFD and the offending byte is read again. *)
Record dstate : Type := DState {
  d_cp : N;
  d_seen : N;
  d_needed : N;
  d_lower : N;
  d_upper : N
}.

Definition d_init : dstate := DState 0 0 0 0x80 0xBF.

Definition d_start (b : N) : dstate * list N :=
  if b <=? 0x7F then (d_init, [b])
  else if (0xC2 <=? b) && (b <=? 0xDF) then
    (DState (N.land b 0x1F) 0 1 0x80 0xBF, [])
  else if (0xE0 <=? b) && (b <=? 0xEF) then
    (DState (N.land b 0xF) 0 2
       (if b =? 0xE0 then 0xA0 else 0x80)
       (if b =? 0xED then 0x9F else 0xBF), [])
  else if (0xF0 <=? b) && (b <=? 0xF4) then
    (DState (N.land b 0x7) 0 3
       (if b =? 0xF0 then 0x90 else 0x80)
       (if b =? 0xF4 then 0x8F else 0xBF), [])
  else (d_init, [0xFFFD]).

Definition d_step (st : dstate) (b : N) : dstate * list N :=
  if d_needed st =? 0 then d_start b
  else if (d_lower st <=? b) && (b <=? d_upper st) then
    let cp := N.lor (N.shiftl (d_cp st) 6) (N.land b 0x3F) in
    if d_seen st + 1 =? d_needed st then (d_init, [cp])
    else (DState cp (d_seen st + 1) (d_needed st) 0x80 0xBF, [])
  else
    let '(st', out) := d_start b in (st', 0xFFFD :: out).

Fixpoint d_run (st : dstate) (bytes : list N) : list N :=
  match bytes with
  | [] => if d_needed st =? 0 then [] else [0xFFFD]
  | b :: t => let '(st', out) := d_step st b in out ++ d_run st' t
  end.

Definition utf16_units (cp : N) : list N :=
  if cp <? 0x10000 then [cp]
  else [0xD800 + (cp - 0x10000) / 0x400; 0xDC00 + (cp - 0x10000) mod 0x400].

(** [buf.toString('utf8')]. *)
Definition utf8_decode (bytes : list N) : list N :=
  flat_map utf16_units (d_run d_init bytes).

(** A Unicode scalar value: a code point that is not a surrogate. *)
Definition scalar (cp : N) : Prop :=
  cp < 0x110000 /\ ~ (0xD800 <= cp <= 0xDFFF).

(** A string the codec can carry: every unit is below 2^16 and every
    surrogate is half of a pair. *)
Fixpoint well_formed (s : list N) : bool :=
  match s with
  | [] => true
  | u :: t =>
      if is_high u then
        match t with
        | v :: t' => is_low v && well_formed t'
        | [] => false
        end
      else negb (is_low u) && (u <? 0x10000) && well_formed t
  end.

(* ================================================================== *)
(** * Buffers: the hex codec *)
(* ================================================================== *)

Definition hex_digit (d : N) : N :=
  if d <? 10 then 48 + d else 87 + d.

Definition hex_byte (b : N) : list N :=
  [hex_digit (b / 16); hex_digit (b mod 16)].

(** [buf.toString('hex')]. *)
Definition hex_encode (bytes : list N) : list N :=
  flat_map hex_byte bytes.

(** The value of a hex digit. The decoder reads the low byte of each code
    unit, so that U+0131 reads as the digit 1. *)
Definition hex_value (u : N) : option N :=
  let c := u mod 256 in
  if (48 <=? c) && (c <=? 57) then Some (c - 48)
  else if (97 <=? c) && (c <=? 102) then Some (c - 87)
  else if (65 <=? c) && (c <=? 70) then Some (c - 55)
  else None.

(** [Buffer.from(s, 'hex')]: decoding stops at the first pair that is not
    two hex digits; a trailing single character is dropped. *)
Fixpoint hex_decode (s : list N) : list N :=
  match s with
  | h :: l :: t =>
      match hex_value h, hex_value l with
      | Some a, Some b => (16 * a + b) :: hex_decode t
      | _, _ => []
      end
  | _ => []
  end.

(* ================================================================== *)
(** * The block cipher: AES-256 (FIPS 197) *)
(* ================================================================== *)

Module AES.

(** Multiplication by [x] in GF(2^8) modulo [x^8 + x^4 + x^3 + x + 1]. *)
Definition xtime (a : N) : N :=
  let s := N.shiftl a 1 in
  if N.testbit a 7 then N.lxor (N.land s 0xFF) 0x1B else s.

Fixpoint gmul_aux (n : nat) (a b acc : N) : N :=
  match n with
  | O => acc
  | S n' =>
      gmul_aux n' (xtime a) (N.shiftr b 1)
        (if N.odd b then N.lxor acc a else acc)
  end.

(** The product [a * b] in GF(2^8). *)
Definition gmul (a b : N) : N := gmul_aux 8 a b 0.

Definition gsquare (a : N) : N := gmul a a.

(** The multiplicative inverse, [a^254]; 0 is mapped to 0. *)
Definition ginv (a : N) : N :=
  let a2 := gsquare a in
  let a4 := gsquare a2 in
  let a8 := gsquare a4 in
  let a16 := gsquare a8 in
  let a32 := gsquare a16 in
  let a64 := gsquare a32 in
  let a128 := gsquare a64 in
  gmul a128 (gmul a64 (gmul a32 (gmul a16 (gmul a8 (gmul a4 a2))))).

Definition rotl8 (a : N) (k : N) : N :=
  N.land (N.lor (N.shiftl a k) (N.shiftr a (8 - k))) 0xFF.

Definition sbox_affine (b : N) : N :=
  N.lxor b (N.lxor (rotl8 b 1) (N.lxor (rotl8 b 2)
    (N.lxor (rotl8 b 3) (N.lxor (rotl8 b 4) 0x63)))).

Definition sbox_inv_affine (s : N) : N :=
  N.lxor (rotl8 s 1) (N.lxor (rotl8 s 3) (N.lxor (rotl8 s 6) 0x05)).

Definition bytes256 : list N := map N.of_nat (seq 0 256).

Definition sbox_table : list N :=
  Eval vm_compute in map (fun a => sbox_affine (ginv a)) bytes256.

Definition inv_sbox_table : list N :=
  Eval vm_compute in map (fun s => ginv (sbox_inv_affine s)) bytes256.

Definition sbox (a : N) : N := nth (N.to_nat a) sbox_table 0.
Definition inv_sbox (a : N) : N := nth (N.to_nat a) inv_sbox_table 0.

(** ** Key expansion, [Nk = 8], [Nr = 14] *)

Definition xor_bytes (a b : list N) : list N :=
  zip_with N.lxor a b.

Definition rot_word (w : list N) : list N :=
  match w with
  | [a; b; c; d] => [b; c; d; a]
  | _ => w
  end.

Definition sub_word (w : list N) : list N := map sbox w.

Fixpoint rcon (i : nat) : N :=
  match i with
  | O => 0x8D
  | S i' => xtime (rcon i')
  end.

(** The word that is added to [w(i-8)] to give [w(i)], from [w(i-1)]. *)
Definition next_temp (i : nat) (prev : list N) : list N :=
  if (i mod 8 =? 0)%nat then
    xor_bytes (sub_word (rot_word prev)) [rcon (i / 8); 0; 0; 0]
  else if (i mod 8 =? 4)%nat then sub_word prev
  else prev.

(** [expand n i ws]: [ws] holds the words [w(i-1) ... w(0)], newest first;
    [n] more words are produced. *)
Fixpoint expand (n : nat) (i : nat) (ws : list (list N)) : list (list N) :=
  match n with
  | O => ws
  | S n' =>
      expand n' (S i)
        (xor_bytes (nth 7 ws []) (next_temp i (nth 0 ws [])) :: ws)
  end.

Fixpoint words (n : nat) (l : list N) : list (list N) :=
  match n with
  | O => []
  | S n' => firstn 4 l :: words n' (skipn 4 l)
  end.

Fixpoint round_keys_of (n : nat) (ws : list (list N)) : list (list N) :=
  match n with
  | O => []
  | S n' =>
      match ws with
      | a :: b :: c :: d :: t => (a ++ b ++ c ++ d) :: round_keys_of n' t
      | _ => []
      end
  end.

(** The fifteen round keys of a 32-byte key. *)
Definition key_schedule (key : list N) : list (list N) :=
  round_keys_of 15 (rev (expand 52 8 (rev (words 8 key)))).

(** ** The round transformations on a 16-byte state *)

Definition add_round_key (rk s : list N) : list N := xor_bytes s rk.

Definition sub_bytes (s : list N) : list N := map sbox s.
Definition inv_sub_bytes (s : list N) : list N := map inv_sbox s.

Definition shift_rows (s : list N) : list N :=
  match s with
  | [s0; s1; s2; s3; s4; s5; s6; s7; s8; s9; s10; s11; s12; s13; s14; s15] =>
      [s0; s5; s10; s15; s4; s9; s14; s3; s8; s13; s2; s7; s12; s1; s6; s11]
  | _ => s
  end.

Definition inv_shift_rows (s : list N) : list N :=
  match s with
  | [s0; s1; s2; s3; s4; s5; s6; s7; s8; s9; s10; s11; s12; s13; s14; s15] =>
      [s0; s13; s10; s7; s4; s1; s14; s11; s8; s5; s2; s15; s12; s9; s6; s3]
  | _ => s
  end.

Definition xor4 (a b c d : N) : N := N.lxor (N.lxor a b) (N.lxor c d).

Definition mix_column (a0 a1 a2 a3 : N) : list N :=
  [xor4 (gmul 2 a0) (gmul 3 a1) a2 a3;
   xor4 a0 (gmul 2 a1) (gmul 3 a2) a3;
   xor4 a0 a1 (gmul 2 a2) (gmul 3 a3);
   xor4 (gmul 3 a0) a1 a2 (gmul 2 a3)].

Definition inv_mix_column (a0 a1 a2 a3 : N) : list N :=
  [xor4 (gmul 14 a0) (gmul 11 a1) (gmul 13 a2) (gmul 9 a3);
   xor4 (gmul 9 a0) (gmul 14 a1) (gmul 11 a2) (gmul 13 a3);
   xor4 (gmul 13 a0) (gmul 9 a1) (gmul 14 a2) (gmul 11 a3);
   xor4 (gmul 11 a0) (gmul 13 a1) (gmul 9 a2) (gmul 14 a3)].

Fixpoint columns (f : N -> N -> N -> N -> list N) (s : list N) : list N :=
  match s with
  | a0 :: a1 :: a2 :: a3 :: t => f a0 a1 a2 a3 ++ columns f t
  | _ => []
  end.

Definition mix_columns (s : list N) : list N := columns mix_column s.
Definition inv_mix_columns (s : list N) : list N := columns inv_mix_column s.

(** ** Cipher and inverse cipher *)

Definition round (s rk : list N) : list N :=
  add_round_key rk (mix_columns (shift_rows (sub_bytes s))).

Definition inv_round (s rk : list N) : list N :=
  inv_mix_columns (add_round_key rk (inv_sub_bytes (inv_shift_rows s))).

Definition final_round (s rk : list N) : list N :=
  add_round_key rk (shift_rows (sub_bytes s)).

Definition inv_final_round (s rk : list N) : list N :=
  add_round_key rk (inv_sub_bytes (inv_shift_rows s)).

(** [cipher rks block]: [rks] is the key schedule, first round key first. *)
Definition cipher (rks : list (list N)) (block : list N) : list N :=
  match rks with
  | rk0 :: rest =>
      match rev rest with
      | rk_last :: middle_rev =>
          final_round
            (fold_left round (rev middle_rev) (add_round_key rk0 block))
            rk_last
      | [] => block
      end
  | [] => block
  end.

Definition inv_cipher (rks : list (list N)) (block : list N) : list N :=
  match rks with
  | rk0 :: rest =>
      match rev rest with
      | rk_last :: middle_rev =>
          inv_final_round
            (fold_left inv_round middle_rev (add_round_key rk_last block))
            rk0
      | [] => block
      end
  | [] => block
  end.

Definition encrypt_block (key block : list N) : list N :=
  cipher (key_schedule key) block.

Definition decrypt_block (key block : list N) : list N :=
  inv_cipher (key_schedule key) block.

End AES.

(* ================================================================== *)
(** * CBC mode with PKCS#7 padding *)
(* ================================================================== *)

Definition BLOCK : nat := 16.

(** A buffer: every element is a byte. *)
Definition is_buffer (l : list N) : Prop := Forall (fun b => b < 256) l.

(** A state of [n] columns: [4 * n] bytes. *)
Definition state_of (n : nat) (s : list N) : Prop :=
  length s = (4 * n)%nat /\ is_buffer s.

(** A word of the key schedule: one column. *)
Definition word (w : list N) : Prop := state_of 1 w.

(** A key as [crypto] accepts it for [aes-256-cbc]: 32 bytes. *)
Definition is_key (key : list N) : Prop :=
  length key = 32%nat /\ is_buffer key.

Fixpoint chunks (n : nat) (l : list N) : list (list N) :=
  match n with
  | O => []
  | S n' => firstn BLOCK l :: chunks n' (skipn BLOCK l)
  end.

(** The complete 16-byte blocks of a buffer. *)
Definition blocks_of (l : list N) : list (list N) :=
  chunks (length l / BLOCK) l.

(** Padding always adds between 1 and 16 bytes, each equal to their count. *)
Definition pad_count (data : list N) : nat :=
  (BLOCK - length data mod BLOCK)%nat.

Definition pkcs7_pad (data : list N) : list N :=
  data ++ repeat (N.of_nat (pad_count data)) (pad_count data).

(** The check of [EVP_DecryptFinal_ex]: the last byte [n] must be in
    [1..16] and the last [n] bytes must all equal [n]. *)
Definition pkcs7_unpad (plain : list N) : option (list N) :=
  let n := N.to_nat (List.last plain 0) in
  if ((1 <=? n) && (n <=? BLOCK) && (n <=? length plain))%nat
     && forallb (N.eqb (N.of_nat n)) (skipn (length plain - n) plain)
  then Some (firstn (length plain - n) plain)
  else None.

Section CBC.

(** The block cipher under a fixed key. *)
Variable E D : list N -> list N.

Fixpoint cbc_encrypt_blocks (prev : list N) (blocks : list (list N))
  : list (list N) :=
  match blocks with
  | [] => []
  | p :: t =>
      let c := E (AES.xor_bytes p prev) in
      c :: cbc_encrypt_blocks c t
  end.

Fixpoint cbc_decrypt_blocks (prev : list N) (blocks : list (list N))
  : list (list N) :=
  match blocks with
  | [] => []
  | c :: t => AES.xor_bytes (D c) prev :: cbc_decrypt_blocks c t
  end.

Definition cbc_encrypt (iv data : list N) : list N :=
  concat (cbc_encrypt_blocks iv (blocks_of data)).

Definition cbc_decrypt (iv data : list N) : list N :=
  concat (cbc_decrypt_blocks iv (blocks_of data)).

End CBC.

(* ================================================================== *)
(** * Node's [crypto]: cipher objects for [aes-256-cbc] *)
(* ================================================================== *)

Definition KEY_LENGTH : nat := 32.
Definition IV_LENGTH : nat := 16.

Record cipher_ctx : Type := CipherCtx { ctx_key : list N; ctx_iv : list N }.

(** [crypto.createCipheriv('aes-256-cbc', key, iv)] and
    [crypto.createDecipheriv]: both reject a key or an IV of the wrong
    length. *)
Definition createCipheriv (key iv : list N) : result cipher_ctx :=
  if negb (length key =? KEY_LENGTH)%nat then
    Throw (CryptoError "Invalid key length")
  else if negb (length iv =? IV_LENGTH)%nat then
    Throw (CryptoError "Invalid initialization vector")
  else Ok (CipherCtx key iv).

Definition createDecipheriv := createCipheriv.

(** [cipher.update(data) + cipher.final()]. *)
Definition cipher_run (c : cipher_ctx) (data : list N) : list N :=
  cbc_encrypt (AES.encrypt_block (ctx_key c)) (ctx_iv c) (pkcs7_pad data).

(** [decipher.update(data)] followed by [decipher.final()]: [final] throws
    when the input is empty or not a whole number of blocks, and when the
    padding of the last block is malformed. *)
Definition decipher_run (c : cipher_ctx) (data : list N)
  : result (list N) :=
  if (length data =? 0)%nat || negb (length data mod BLOCK =? 0)%nat then
    Throw (CryptoError "wrong final block length")
  else
    match pkcs7_unpad
            (cbc_decrypt (AES.decrypt_block (ctx_key c)) (ctx_iv c) data) with
    | Some plain => Ok plain
    | None => Throw (CryptoError "bad decrypt")
    end.

(** [decipher.update(data, 'hex', 'utf8')] followed by
    [decipher.final('utf8')], before the bytes are decoded: [update]
    refuses a hex string with an odd number of characters. *)
Definition decipher_update_final (c : cipher_ctx) (data : list N)
  : result (list N) :=
  if Nat.odd (length data)
  then Throw (TypeError "ERR_INVALID_ARG_VALUE")
  else decipher_run c (hex_decode data).

(** The ciphertext bytes of the string [x] under [key] and [iv]. *)
Definition cipher_bytes (key iv x : list N) : list N :=
  cipher_run (CipherCtx key iv) (utf8_encode x).

(** The two parts of a string [iv:data] as [decrypt] reads them: the text
    before the first colon and the rest, both hex-decoded. *)
Definition iv_part (s : list N) : list N :=
  hex_decode (hd [] (split COLON s)).

(** The text after the first colon, and its bytes. *)
Definition data_text (s : list N) : list N :=
  join COLON (tl (split COLON s)).

Definition data_part (s : list N) : list N :=
  hex_decode (data_text s).

(* ================================================================== *)
(** * JavaScript values *)
(* ================================================================== *)

Inductive value : Type :=
  | VUndefined
  | VNull
  | VBool (b : bool)
  | VNum (x : float)
  | VStr (s : list N)
  | VArr (items : list value)
  | VObjectId (hex : list N).

Definition is_string (v : value) : bool :=
  match v with VStr _ => true | _ => false end.

(** [a === b] where one side is known to be a string. *)
Definition str_eqb (a b : list N) : bool := bool_decide (a = b).

Definition strict_eq_str (v : value) (s : list N) : bool :=
  match v with
  | VStr t => str_eqb t s
  | _ => false
  end.

(** A document or a row: field name to value. *)
(** Traversal of an object's entries by a function that may throw. *)
Definition obj_mapM {A B} (f : list N -> A -> result B)
  (m : gmap (list N) A) : result (gmap (list N) B) :=
  list_to_map <$>
    mapM (fun kv => pair kv.1 <$> f kv.1 kv.2) (map_to_list m).

(* ================================================================== *)
(** * [CosmosDB]: field encryption *)
(* ================================================================== *)

Section Codec.

(** ECMAScript's conversions between numbers and strings, [Number(s)] and
    [String(x)], are taken from the platform. *)
Variable Number : list N -> float.
Variable NumberToString : float -> list N.

(** The module constant [SECRET_KEY], the SHA-256 digest of the environment
    variable [DB_ENCRYPTION_KEY]. *)
Variable SECRET_KEY : list N.

Definition COMMA : N := 44.

(** [String(v)]. *)
Fixpoint String_ (v : value) : list N :=
  match v with
  | VUndefined => js "undefined"
  | VNull => js "null"
  | VBool true => js "true"
  | VBool false => js "false"
  | VNum x => NumberToString x
  | VStr s => s
  | VArr items =>
      join COMMA
        (map (fun i => match i with
                       | VUndefined | VNull => []
                       | _ => String_ i
                       end) items)
  | VObjectId hex => hex
  end.

(** [encrypt(text)]; [iv] is the outcome of [crypto.randomBytes(IV_LENGTH)]. *)
Definition encrypt (iv : list N) (text : value) : result value :=
  match text with
  | VNull | VUndefined => Ok text
  | _ =>
      cipher ← createCipheriv SECRET_KEY iv;
      let encrypted :=
        hex_encode (cipher_run cipher (utf8_encode (String_ text))) in
      Ok (VStr (hex_encode iv ++ COLON :: encrypted))
  end.

(** The body of the [try] block of [decrypt]. *)
Definition decrypt_try (encryptedText : list N) : result value :=
  let textParts := split COLON encryptedText in
  let iv := hex_decode (hd [] textParts) in
  let encryptedData := join COLON (tl textParts) in
  decipher ← createDecipheriv SECRET_KEY iv;
  decrypted ← decipher_update_final decipher encryptedData;
  Ok (VStr (utf8_decode decrypted)).

(** [decrypt(encryptedText)]. *)
Definition decrypt (encryptedText : value) : result value :=
  match encryptedText with
  | VStr s =>
      if negb (includes COLON s) then Ok encryptedText
      else try_catch (decrypt_try s) (fun _ => Ok encryptedText)
  | _ => Ok encryptedText
  end.

(** One iteration of the loop of [_decryptRow], for the property [key]
    holding [v]; the result is the property's new value. *)
Definition decrypt_property (key : list N) (v : value) : result value :=
  if str_eqb key (js "_id") then Ok v
  else
    match v with
    | VStr originalValue =>
        if includes COLON originalValue then
          d ← decrypt v;
          match d with
          | VStr text =>
              if negb (str_eqb text originalValue)
                 && negb (PrimFloat.is_nan (Number text))
              then Ok (VNum (Number text))
              else Ok d
          | _ => Ok d
          end
        else Ok v
    | _ => Ok v
    end.

(** [_decryptRow(row)] for a row that is an object. *)
Definition _decryptRow (row : gmap (list N) value)
  : result (gmap (list N) value) :=
  obj_mapM decrypt_property row.

End Codec.

(* ================================================================== *)
(** * Sample inputs *)
(* ================================================================== *)

Local Open Scope string_scope.

(** [SECRET_KEY] when [DB_ENCRYPTION_KEY] is unset: the SHA-256 digest of
    the empty string. *)
Definition key_unset : list N :=
  hex_decode
    (js "e3b0c44298fc1c149afbf4c8996fb92427ae41e4649b934ca495991b7852b855").

(** [SECRET_KEY] when [DB_ENCRYPTION_KEY] is [abc]. *)
Definition key_abc : list N :=
  hex_decode
    (js "ba7816bf8f01cfea414140de5dae2223b00361a396177a9cb410ff61f20015ad").

(** A possible outcome of [crypto.randomBytes(16)]. *)
Definition sample_iv : list N :=
  hex_decode (js "01c70000000000000000000000000000").

(** What [encrypt('alice')] returns under [key_unset] and [sample_iv]. *)
Definition sample_ciphertext : list N :=
  js "01c70000000000000000000000000000:1889a315d7c2ca22f83c653c3008d77a".

(** [encrypt] never consults the number printer on a string; the closed
    examples pass this one. *)
Definition no_NumberToString (x : float) : list N := [].

Local Close Scope string_scope.


(* ================================================================== *)
(** * MongoDB: values, filters and cursors *)
(* ================================================================== *)

(** Traversal of an object's entries by a function that may throw or drop
    the entry. *)
Definition obj_omapM {A B} (f : list N -> A -> result (option B))
  (m : gmap (list N) A) : result (gmap (list N) B) :=
  (fun m' : gmap (list N) (option B) => omap id m') <$> obj_mapM f m.

(** Equality of numbers as the server compares them: NaN equals NaN. *)
Definition num_eqb (x y : float) : bool :=
  (PrimFloat.is_nan x && PrimFloat.is_nan y) || PrimFloat.eqb x y.

(** [x <= y] and [x < y] as the server's comparison operators read
    numbers: NaN is equal to NaN and compares with nothing else. *)
Definition num_leb (x y : float) : bool :=
  (PrimFloat.is_nan x && PrimFloat.is_nan y) || PrimFloat.leb x y.

Definition num_ltb (x y : float) : bool := PrimFloat.ltb x y.

(** Lexicographic order on buffers, as [memcmp] followed by the lengths. *)
Fixpoint bytes_leb (a b : list N) : bool :=
  match a, b with
  | [], _ => true
  | _ :: _, [] => false
  | x :: a', y :: b' => (x <? y) || ((x =? y) && bytes_leb a' b')
  end.

Definition bytes_ltb (a b : list N) : bool :=
  bytes_leb a b && negb (bool_decide (a = b)).

(** Equality of two values of the same type; [undefined] is stored and
    compared as [null]. *)
Fixpoint bson_eqb (a b : value) {struct a} : bool :=
  match a, b with
  | (VUndefined | VNull), (VUndefined | VNull) => true
  | VBool x, VBool y => Bool.eqb x y
  | VNum x, VNum y => num_eqb x y
  | VStr x, VStr y => str_eqb x y
  | VObjectId x, VObjectId y => str_eqb x y
  | VArr xs, VArr ys =>
      (fix go (xs ys : list value) : bool :=
         match xs, ys with
         | [], [] => true
         | x :: xs', y :: ys' => bson_eqb x y && go xs' ys'
         | _, _ => false
         end) xs ys
  | _, _ => false
  end.

(** [a <= b] for two scalars of the same type; a comparison operator never
    matches across types (type bracketing). Strings are compared by their
    UTF-8 bytes. *)
Definition bson_leb (a b : value) : bool :=
  match a, b with
  | (VUndefined | VNull), (VUndefined | VNull) => true
  | VBool x, VBool y => implb x y
  | VNum x, VNum y => num_leb x y
  | VStr x, VStr y => bytes_leb (utf8_encode x) (utf8_encode y)
  | VObjectId x, VObjectId y => bytes_leb x y
  | _, _ => false
  end.

Definition bson_ltb (a b : value) : bool :=
  match a, b with
  | VNum x, VNum y => num_ltb x y
  | _, _ => bson_leb a b && negb (bson_eqb a b)
  end.

Definition is_array (v : value) : bool :=
  match v with VArr _ => true | _ => false end.

(** A scalar, as the data model has them: anything but an array. *)
Definition is_scalar (v : value) : bool := negb (is_array v).

(** The operators of a filter document. *)
Inductive mop : Type := OpNe | OpGt | OpGte | OpLt | OpLte | OpIn | OpNin.

(** What a key of a filter document holds. *)
Inductive mcond : Type :=
  | MValue (v : value)
  | MOps (ops : list (mop * value))
  | MRegex (pattern options : list N)
  | MOr (branches : list (gmap (list N) value)).

(** A predicate on a field holds of an array when it holds of an element. *)
Definition on_field (p : value -> bool) (dv : value) : bool :=
  match dv with
  | VArr items => existsb p items
  | _ => p dv
  end.

(** [{field: q}]: the field equals [q], or is an array that holds [q]. *)
Definition match_eq (q dv : value) : bool :=
  bson_eqb q dv || on_field (bson_eqb q) dv.

Definition match_op (op : mop) (q dv : value) : bool :=
  match op with
  | OpNe => negb (match_eq q dv)
  | OpGt => on_field (fun v => bson_ltb q v) dv
  | OpGte => on_field (fun v => bson_leb q v) dv
  | OpLt => on_field (fun v => bson_ltb v q) dv
  | OpLte => on_field (fun v => bson_leb v q) dv
  | OpIn =>
      match q with
      | VArr qs => existsb (fun x => match_eq x dv) qs
      | _ => false
      end
  | OpNin =>
      match q with
      | VArr qs => negb (existsb (fun x => match_eq x dv) qs)
      | _ => false
      end
  end.

(** The value of a field of a document; a missing field reads as [null]. *)
Definition field_of (d : gmap (list N) value) (f : list N) : value :=
  default VUndefined (d !! f).

(** The names [Object.prototype] gives to every object. *)
Definition OBJECT_PROTOTYPE : list (list N) :=
  map js ["constructor"; "__defineGetter__"; "__defineSetter__";
          "hasOwnProperty"; "__lookupGetter__"; "__lookupSetter__";
          "isPrototypeOf"; "propertyIsEnumerable"; "toString"; "valueOf";
          "__proto__"; "toLocaleString"]%string.

(** What [o[k]] reads from an object that inherits from
    [Object.prototype]: a value of its own, [undefined] when it has none,
    or one of the built-in members of the prototype, which are functions
    apart from [__proto__], the prototype itself. *)
Inductive property : Type :=
  | Held (v : value)
  | Builtin.

Definition get_property (o : gmap (list N) value) (k : list N) : property :=
  match o !! k with
  | Some v => Held v
  | None =>
      if existsb (str_eqb k) OBJECT_PROTOTYPE then Builtin
      else Held VUndefined
  end.

Definition match_branch (d : gmap (list N) value)
  (branch : gmap (list N) value) : bool :=
  bool_decide (map_Forall (fun f q => match_eq q (field_of d f) = true) branch).

Section Matching.

(** The server's regular expressions: [regex_test pattern options s]. *)
Variable regex_test : list N -> list N -> list N -> bool.

Definition match_cond (d : gmap (list N) value) (f : list N) (c : mcond)
  : bool :=
  match c with
  | MValue q => match_eq q (field_of d f)
  | MOps ops =>
      forallb (fun ov => match_op ov.1 ov.2 (field_of d f)) ops
  | MRegex pattern options =>
      on_field (fun v => match v with
                         | VStr s => regex_test pattern options s
                         | _ => false
                         end) (field_of d f)
  | MOr branches => existsb (match_branch d) branches
  end.

(** A document matches a filter when it matches every key of it. *)
Definition matches (query : gmap (list N) mcond)
  (d : gmap (list N) value) : bool :=
  bool_decide (map_Forall (fun f c => match_cond d f c = true) query).

End Matching.

(** What the server refuses in a filter: [$in] and [$nin] need an array,
    [$or] a nonempty one. *)
Definition cond_valid (c : mcond) : bool :=
  match c with
  | MOps ops =>
      forallb (fun ov => match ov.1 with
                         | OpIn | OpNin => is_array ov.2
                         | _ => true
                         end) ops
  | MOr branches => negb (bool_decide (branches = []))
  | _ => true
  end.

Definition query_valid (query : gmap (list N) mcond) : bool :=
  bool_decide (map_Forall (fun _ c => cond_valid c = true) query).

(* ================================================================== *)
(** * [CosmosQueryBuilder] *)
(* ================================================================== *)

(** What [this.filters] holds under a field: an object read through its
    [operator] and [value] properties (a missing one reads [undefined]), or
    a value that is not an object. *)
Inductive fentry : Type :=
  | Cond (operator value : value)
  | Plain (v : value).

Record builder : Type := Builder {
  collectionName : list N;
  filters : gmap (list N) fentry;
  orConditions : option (list (gmap (list N) fentry));
  orderField : option (list N);
  orderDirection : Z;
  limitCount : option Z;
  offsetCount : Z;
  selectFields : option (list (list N));
  (** Not a property of the builder: whether [this.filters] has lost its
      prototype, as it does when [Object.assign] copies an own [__proto__]
      key holding [null] onto it. While it has a prototype, storing under
      ['__proto__'] adds no key to it. *)
  filtersDetached : bool
}.

(** The key whose assignment sets the prototype of an object instead of
    adding a property to it. *)
Definition PROTO : list N := js "__proto__".

(** [o[k] = v] for an object [o] that inherits from [Object.prototype]:
    under ['__proto__'] nothing is added. *)
Definition obj_set {A} (k : list N) (v : A) (o : gmap (list N) A)
  : gmap (list N) A :=
  if bool_decide (k = PROTO) then o else <[k := v]> o.

(** [new CosmosQueryBuilder(database, collectionName)]. *)
Definition new_builder (name : list N) : builder :=
  Builder name ∅ None None 1 None 0 None false.

Definition set_filters (fs : gmap (list N) fentry) (q : builder) : builder :=
  Builder (collectionName q) fs (orConditions q) (orderField q)
    (orderDirection q) (limitCount q) (offsetCount q) (selectFields q)
    (filtersDetached q).

Definition set_detached (b : bool) (q : builder) : builder :=
  Builder (collectionName q) (filters q) (orConditions q) (orderField q)
    (orderDirection q) (limitCount q) (offsetCount q) (selectFields q) b.

(** [this.filters[field] = e] for an object [e]: under ['__proto__'] it
    sets the prototype of [this.filters] and adds no key, unless
    [this.filters] has no prototype. *)
Definition set_filter (field : list N) (e : fentry) (q : builder) : builder :=
  if bool_decide (field = PROTO) && negb (filtersDetached q) then q
  else set_filters (<[field := e]> (filters q)) q.

Definition push_or (c : gmap (list N) fentry) (q : builder) : builder :=
  Builder (collectionName q) (filters q)
    (Some (default [] (orConditions q) ++ [c])) (orderField q)
    (orderDirection q) (limitCount q) (offsetCount q) (selectFields q)
    (filtersDetached q).

Definition set_order (f : list N) (dir : Z) (q : builder) : builder :=
  Builder (collectionName q) (filters q) (orConditions q) (Some f) dir
    (limitCount q) (offsetCount q) (selectFields q) (filtersDetached q).

Definition set_limit (n : Z) (q : builder) : builder :=
  Builder (collectionName q) (filters q) (orConditions q) (orderField q)
    (orderDirection q) (Some n) (offsetCount q) (selectFields q)
    (filtersDetached q).

Definition set_offset (k : Z) (q : builder) : builder :=
  Builder (collectionName q) (filters q) (orConditions q) (orderField q)
    (orderDirection q) (limitCount q) k (selectFields q)
    (filtersDetached q).

Definition set_select (fs : list (list N)) (q : builder) : builder :=
  Builder (collectionName q) (filters q) (orConditions q) (orderField q)
    (orderDirection q) (limitCount q) (offsetCount q) (Some fs)
    (filtersDetached q).

(** ** SELECT *)

(** White space and line terminators: what [trim] removes and [\s]
    matches. *)
Definition is_space (c : N) : bool :=
  ((9 <=? c) && (c <=? 13)) || (c =? 32) || (c =? 0xA0) || (c =? 0x1680)
  || ((0x2000 <=? c) && (c <=? 0x200A)) || (c =? 0x2028) || (c =? 0x2029)
  || (c =? 0x202F) || (c =? 0x205F) || (c =? 0x3000) || (c =? 0xFEFF).

Fixpoint trim_start (s : list N) : list N :=
  match s with
  | c :: t => if is_space c then trim_start t else s
  | [] => []
  end.

(** [s.trim()]. *)
Definition trim (s : list N) : list N :=
  rev (trim_start (rev (trim_start s))).

(** [Number(s)] for a string, ECMAScript's StringToNumber: a string that
    is empty or holds only white space reads as 0; the reading of any other
    string, once trimmed, as a numeric literal is the platform's, NaN when
    it is none. *)
Definition StringToNumber (numeric_literal : list N -> float) (s : list N)
  : float :=
  match trim s with
  | [] => PrimFloat.zero
  | c :: t => numeric_literal (c :: t)
  end.

(** [select(fields)] for an array of field names. *)
Definition select_array (fields : list (list N)) (q : builder) : builder :=
  set_select fields q.

(** [select(fields)] for a string; [select()] is [select('*')]. *)
Definition select (fields : list N) (q : builder) : builder :=
  if str_eqb fields (js "*") then q
  else set_select (map trim (split COMMA fields)) q.

(** ** WHERE *)

(** A default parameter takes its default when the argument is missing or
    [undefined]. *)
Definition or_default (d v : value) : value :=
  match v with VUndefined => d | _ => v end.

(** [where(object)]: [Object.assign(this.filters, object)] stores each own
    property of [object] as an assignment does. An own [__proto__] key of
    [object] is not copied while [this.filters] has a prototype; when it
    holds [null], [this.filters] is left without one. *)
Definition holds_null (e : option fentry) : bool :=
  match e with
  | Some (Plain VNull) => true
  | _ => false
  end.

Definition where_object (o : gmap (list N) fentry) (q : builder) : builder :=
  if filtersDetached q then set_filters (o ∪ filters q) q
  else
    set_detached (holds_null (o !! PROTO))
      (set_filters (delete PROTO o ∪ filters q) q).

(** [where(field, value)], two arguments. *)
Definition where2 (field : list N) (v : value) (q : builder) : builder :=
  set_filter field (Cond (VStr (js "=")) (or_default (VStr (js "=")) v)) q.

(** [where(field, operator, value)], three arguments. *)
Definition where3 (field : list N) (operator v : value) (q : builder)
  : builder :=
  set_filter field
    (Cond (or_default (VStr (js "=")) operator) (or_default VNull v)) q.

(** [where(field)], one argument. *)
Definition where1 (field : list N) (q : builder) : builder :=
  where3 field VUndefined VUndefined q.

Definition nonempty_array (v : value) : bool :=
  match v with
  | VArr (_ :: _) => true
  | _ => false
  end.

Definition whereIn (field : list N) (values : value) (q : builder)
  : builder :=
  if nonempty_array values
  then set_filter field (Cond (VStr (js "in")) values) q
  else q.

Definition whereNotIn (field : list N) (values : value) (q : builder)
  : builder :=
  if nonempty_array values
  then set_filter field (Cond (VStr (js "not-in")) values) q
  else q.

Definition whereBetween (field : list N) (min max : value) (q : builder)
  : builder :=
  set_filter field (Cond (VStr (js "between")) (VArr [min; max])) q.

Definition whereNull (field : list N) (q : builder) : builder :=
  set_filter field (Cond (VStr (js "null")) VUndefined) q.

Definition whereNotNull (field : list N) (q : builder) : builder :=
  set_filter field (Cond (VStr (js "not-null")) VUndefined) q.

Definition whereLike (field : list N) (pattern : value) (q : builder)
  : builder :=
  set_filter field (Cond (VStr (js "like")) pattern) q.

(** [orWhere(object)]. *)
Definition orWhere_object (o : gmap (list N) fentry) (q : builder)
  : builder :=
  push_or o q.

(** [orWhere(field, value)], two arguments. *)
Definition orWhere2 (field : list N) (v : value) (q : builder) : builder :=
  push_or {[ field := Cond (VStr (js "=")) (or_default (VStr (js "=")) v) ]} q.

(** [orWhere(field, operator, value)], three arguments. *)
Definition orWhere3 (field : list N) (operator v : value) (q : builder)
  : builder :=
  push_or
    {[ field := Cond (or_default (VStr (js "=")) operator)
                  (or_default VNull v) ]} q.

(** ** ORDER BY and LIMIT *)

Section Ordering.

(** [String.prototype.toUpperCase]. *)
Variable toUpperCase : list N -> list N.

Definition orderBy (field direction : list N) (q : builder) : builder :=
  set_order field
    (if str_eqb (toUpperCase direction) (js "DESC") then (-1)%Z else 1%Z) q.

Definition orderByDesc (field : list N) (q : builder) : builder :=
  orderBy field (js "DESC") q.

Definition orderByAsc (field : list N) (q : builder) : builder :=
  orderBy field (js "ASC") q.

End Ordering.

(** [limit(count, offset)]; [offset] is [None] when it is missing or
    [null]. *)
Definition limit (count : Z) (offset : option Z) (q : builder) : builder :=
  match offset with
  | Some k => set_offset k (set_limit count q)
  | None => set_limit count q
  end.

Definition take (count : Z) (q : builder) : builder := limit count None q.

Definition skip (offset : Z) (q : builder) : builder := set_offset offset q.

(** A plain field name, one that the builder and the server read as the
    name of a field of the document: not empty, without a dot or a NUL,
    not starting with a dollar sign, and neither [_id], which the builder
    skips, nor [__proto__]. *)
Definition DOLLAR : N := 36.

Definition plain_field (f : list N) : bool :=
  match f with
  | [] => false
  | c :: _ =>
      negb (c =? DOLLAR)
      && forallb (fun x => negb (x =? 46) && negb (x =? 0)) f
      && negb (str_eqb f (js "_id")) && negb (str_eqb f (js "__proto__"))
  end.

(** ** Compilation to a filter document *)

Definition PERCENT : N := 37.
Definition UNDERSCORE : N := 95.
Definition DOT : N := 46.
Definition STAR : N := 42.

(** [value.replace(/%/g, '.*').replace(/_/g, '.')]. *)
Definition like_pattern (p : list N) : list N :=
  replace_all UNDERSCORE [DOT] (replace_all PERCENT [DOT; STAR] p).

(** [value[i]]: an element of an array, a character of a string,
    [undefined] on other values, a [TypeError] on [null] and [undefined]. *)
Definition index (v : value) (i : nat) : result value :=
  match v with
  | VUndefined | VNull => Throw (TypeError "filter value")
  | VArr items => Ok (default VUndefined (items !! i))
  | VStr s => Ok (match s !! i with Some c => VStr [c] | None => VUndefined end)
  | _ => Ok VUndefined
  end.

Definition op_is (operator : value) (s : string) : bool :=
  strict_eq_str operator (js s).

(** The [switch (operator)] of [_buildMongoQuery]. *)
Definition compile_condition (operator v : value) : result mcond :=
  if op_is operator "=" || op_is operator "==" then Ok (MValue v)
  else if op_is operator "!=" || op_is operator "<>" then
    Ok (MOps [(OpNe, v)])
  else if op_is operator ">" then Ok (MOps [(OpGt, v)])
  else if op_is operator ">=" then Ok (MOps [(OpGte, v)])
  else if op_is operator "<" then Ok (MOps [(OpLt, v)])
  else if op_is operator "<=" then Ok (MOps [(OpLte, v)])
  else if op_is operator "in" then Ok (MOps [(OpIn, v)])
  else if op_is operator "not-in" then Ok (MOps [(OpNin, v)])
  else if op_is operator "between" then
    lo ← index v 0; hi ← index v 1; Ok (MOps [(OpGte, lo); (OpLte, hi)])
  else if op_is operator "like" then
    match v with
    | VStr pattern => Ok (MRegex (like_pattern pattern) (js "i"))
    | _ => Throw (TypeError "filter value")
    end
  else if op_is operator "null" then Ok (MValue VNull)
  else if op_is operator "not-null" then Ok (MOps [(OpNe, VNull)])
  else Ok (MValue v).

(** [typeof v === 'object' && v !== null]. *)
Definition is_object (v : value) : bool :=
  match v with
  | VArr _ | VObjectId _ => true
  | _ => false
  end.

(** [o[field] = c] on the fresh object [o] a query is built in: what is
    stored under [field], if anything. *)
Definition stored_under {A} (field : list N) (c : A) : option A :=
  if bool_decide (field = PROTO) then None else Some c.

(** One iteration of the first loop of [_buildMongoQuery]: what is stored
    under [field], if anything. *)
Definition compile_filter (field : list N) (condition : fentry)
  : result (option mcond) :=
  if str_eqb field (js "_id") then Ok None
  else
    match condition with
    | Plain v =>
        if is_object v
        then stored_under field <$> compile_condition VUndefined VUndefined
        else Ok (stored_under field (MValue v))
    | Cond operator v => stored_under field <$> compile_condition operator v
    end.

(** One iteration of the inner loop over an OR condition. *)
Definition compile_or_entry (field : list N) (condition : fentry)
  : result (option value) :=
  match condition with
  | Plain (VUndefined | VNull) => Throw (TypeError "filter value")
  | Plain _ => Ok None
  | Cond operator v =>
      Ok (if op_is operator "=" then stored_under field v else None)
  end.

Definition OR_KEY : list N := js "$or".

(** [_buildMongoQuery()]. *)
Definition _buildMongoQuery (q : builder) : result (gmap (list N) mcond) :=
  mongoQuery ← obj_omapM compile_filter (filters q);
  match orConditions q with
  | Some (c :: cs) =>
      orQueries ← mapM (obj_omapM compile_or_entry) (c :: cs);
      Ok (<[OR_KEY := MOr orQueries]> mongoQuery)
  | _ => Ok mongoQuery
  end.

(** [_buildProjection()]: the keys of the projection, each holding 1.
    [projection['__proto__'] = 1] adds no key. *)
Definition _buildProjection (q : builder) : gset (list N) :=
  match selectFields q with
  | Some fields =>
      list_to_set (List.filter (fun f => negb (str_eqb f PROTO)) fields)
  | None => ∅
  end.


(* ================================================================== *)
(** * The driver's world *)
(* ================================================================== *)

(** A call to the [alert] module. *)
Inductive alert_call : Type :=
  | AlertDatabaseError (context : list N) (e : exn)
  | AlertDatabaseConnected
  | AlertDatabaseDisconnected
  | AlertSuccess (message : list N)
  | AlertInfo (message : list N).

(** A notification handed to a subscriber's callback. *)
Inductive notification : Type :=
  | Change (type : list N) (id : list N) (data : gmap (list N) value)
      (collection : list N)
  | StreamError (message : list N) (collection : list N).

(** A change stream opened by [collection.watch()]: its collection, the
    callback listening on it and whether it has been closed. *)
Record stream : Type := Stream {
  s_collection : list N;
  s_callback : nat;
  s_closed : bool
}.

Record world : Type := World {
  (** [this.db]: the collections by name; [None] before [connect()]. *)
  w_db : option (gmap (list N) (list (gmap (list N) value)));
  (** [this.client !== null] and [this.isConnected]. *)
  w_client : bool;
  w_isConnected : bool;
  (** What [collection.watch()] throws, if it throws. *)
  w_watch_error : option exn;
  (** What [client.close()] throws, if it throws. *)
  w_close_error : option exn;
  (** The change streams opened so far, by index. *)
  w_streams : list stream;
  (** The callback invocations, the calls to [alert] and the lines written
      by [console.warn], newest first. *)
  w_calls : list (nat * notification);
  w_alerts : list alert_call;
  w_console : list (list N)
}.

Definition set_db (db : gmap (list N) (list (gmap (list N) value)))
  (w : world) : world :=
  World (Some db) (w_client w) (w_isConnected w) (w_watch_error w)
    (w_close_error w) (w_streams w) (w_calls w) (w_alerts w) (w_console w).

Definition set_isConnected (b : bool) (w : world) : world :=
  World (w_db w) (w_client w) b (w_watch_error w) (w_close_error w)
    (w_streams w) (w_calls w) (w_alerts w) (w_console w).

Definition set_streams (ss : list stream) (w : world) : world :=
  World (w_db w) (w_client w) (w_isConnected w) (w_watch_error w)
    (w_close_error w) ss (w_calls w) (w_alerts w) (w_console w).

Definition call_back (cb : nat) (n : notification) (w : world) : world :=
  World (w_db w) (w_client w) (w_isConnected w) (w_watch_error w)
    (w_close_error w) (w_streams w) ((cb, n) :: w_calls w) (w_alerts w)
    (w_console w).

Definition alert (a : alert_call) (w : world) : world :=
  World (w_db w) (w_client w) (w_isConnected w) (w_watch_error w)
    (w_close_error w) (w_streams w) (w_calls w) (a :: w_alerts w)
    (w_console w).

Definition console_warn (line : list N) (w : world) : world :=
  World (w_db w) (w_client w) (w_isConnected w) (w_watch_error w)
    (w_close_error w) (w_streams w) (w_calls w) (w_alerts w)
    (line :: w_console w).

(** [this.db.collection(name)]: the documents of the collection, none when
    it does not exist yet; a [TypeError] when [this.db] is [null]. *)
Definition collection (name : list N) (w : world)
  : result (list (gmap (list N) value)) :=
  match w_db w with
  | Some db => Ok (default [] (db !! name))
  | None => Throw (TypeError "this.db is null")
  end.

(** Replaces the documents of a collection. *)
Definition store (name : list N) (docs : list (gmap (list N) value))
  (w : world) : world :=
  match w_db w with
  | Some db => set_db (<[name := docs]> db) w
  | None => w
  end.

(** [catch (error) { alert.database.error(context, error); throw error; }]
    around a body that leaves the world as it is when it throws. *)
Definition alert_and_rethrow {A} (context : string) (w : world)
  (body : result (A * world)) : result A * world :=
  match body with
  | Ok (a, w') => (Ok a, w')
  | Throw e => (Throw e, alert (AlertDatabaseError (js context) e) w)
  end.

Definition ID : list N := js "_id".

(* ================================================================== *)
(** * Execution *)
(* ================================================================== *)

Section Execution.

Variable Number : list N -> float.
Variable NumberToString : float -> list N.
Variable SECRET_KEY : list N.
Variable regex_test : list N -> list N -> list N -> bool.

(** The server's [sort({field: direction})]. *)
Variable server_sort :
  list N -> Z -> list (gmap (list N) value) -> list (gmap (list N) value).

(** The documents a cursor yields: [find(query)], then [sort], [skip],
    [limit] and [project], whatever the order in which they were set. A
    malformed filter is refused by the server. *)
Definition find_matching (query : gmap (list N) mcond)
  (docs : list (gmap (list N) value))
  : result (list (gmap (list N) value)) :=
  if query_valid query then
    Ok (List.filter (matches regex_test query) docs)
  else Throw (MongoError "bad query").

Definition cursor_sort (q : builder) (docs : list (gmap (list N) value))
  : list (gmap (list N) value) :=
  match orderField q with
  | Some (c :: f) => server_sort (c :: f) (orderDirection q) docs
  | _ => docs
  end.

Definition cursor_skip (q : builder) (docs : list (gmap (list N) value))
  : list (gmap (list N) value) :=
  if (0 <? offsetCount q)%Z then drop (Z.to_nat (offsetCount q)) docs
  else docs.

(** A negative limit yields as many documents as its absolute value. *)
Definition cursor_limit (q : builder) (docs : list (gmap (list N) value))
  : list (gmap (list N) value) :=
  match limitCount q with
  | Some n =>
      if (n =? 0)%Z then docs else firstn (Z.to_nat (Z.abs n)) docs
  | None => docs
  end.

(** An inclusion projection keeps the listed fields and [_id]. *)
Definition project (fields : gset (list N)) (d : gmap (list N) value)
  : gmap (list N) value :=
  filter (fun kv => kv.1 ∈ fields \/ kv.1 = ID) d.

Definition cursor_project (q : builder)
  (docs : list (gmap (list N) value)) : list (gmap (list N) value) :=
  if bool_decide (_buildProjection q = ∅) then docs
  else map (project (_buildProjection q)) docs.

(** [doc._id.toString()]. *)
Definition id_toString (d : gmap (list N) value) : result (list N) :=
  match d !! ID with
  | None | Some VUndefined | Some VNull => Throw (TypeError "doc._id")
  | Some v => Ok (String_ NumberToString v)
  end.

(** [{ id: doc._id.toString(), ...decrypted }]. *)
Definition format_row (d : gmap (list N) value)
  : result (gmap (list N) value) :=
  decrypted ← _decryptRow Number SECRET_KEY d;
  id ← id_toString d;
  Ok (decrypted ∪ {[ js "id" := VStr id ]}).

(** The [try] block of [get()]. *)
Definition get_try (q : builder) (w : world)
  : result (list (gmap (list N) value)) :=
  docs ← collection (collectionName q) w;
  query ← _buildMongoQuery q;
  found ← find_matching query docs;
  mapM format_row
    (cursor_project q (cursor_limit q (cursor_skip q (cursor_sort q found)))).

(** [get()]. *)
Definition get (q : builder) (w : world)
  : result (list (gmap (list N) value)) * world :=
  alert_and_rethrow "CosmosDB get operation" w
    (rows ← get_try q w; Ok (rows, w)).

(** [first()]: the builder is left with a limit of 1. *)
Definition first (q : builder) (w : world)
  : (result (option (gmap (list N) value)) * world) * builder :=
  let q' := limit 1 None q in
  let '(r, w') := get q' w in
  ((head <$> r, w'), q').

(** [count()]. *)
Definition count (q : builder) (w : world) : result nat * world :=
  alert_and_rethrow "CosmosDB count operation" w
    (docs ← collection (collectionName q) w;
     query ← _buildMongoQuery q;
     found ← find_matching query docs;
     Ok (length found, w)).

(** [exists()]. *)
Definition exists_ (q : builder) (w : world) : result bool * world :=
  let '(r, w') := count q w in
  ((fun n => negb (n =? 0)%nat) <$> r, w').

(** [pluck(field)]: the builder is left selecting [field]. *)
Definition pluck (field : list N) (q : builder) (w : world)
  : (result (list property) * world) * builder :=
  let q' := select field q in
  let '(r, w') := get q' w in
  ((map (fun row => get_property row field) <$> r, w'), q').

(** [delete()]. *)
Definition delete_ (q : builder) (w : world) : result nat * world :=
  alert_and_rethrow "CosmosDB delete operation" w
    (docs ← collection (collectionName q) w;
     query ← _buildMongoQuery q;
     found ← find_matching query docs;
     Ok (length found,
         store (collectionName q)
           (List.filter (fun d => negb (matches regex_test query d)) docs)
           w)).

End Execution.

(* ================================================================== *)
(** * [CosmosDB]: builders, raw queries, change streams *)
(* ================================================================== *)

(** [table(collectionName)] and [from(collectionName)]. *)
Definition table (name : list N) : builder := new_builder name.
Definition from (name : list N) : builder := table name.

Definition QUERY_WARNING : list N :=
  js "SQL queries not supported. Use MongoDB-style queries or table() methods.".

(** [query(sql, params)]. *)
Definition query (sql : list N) (params : list value) (w : world)
  : result (list value) * world :=
  (Ok [], console_warn QUERY_WARNING w).

Definition RAW_WARNING : list N :=
  js "Raw queries are not supported. Use MongoDB-specific methods instead.".

(** [CosmosQueryBuilder.raw(query, params)]: the builder is not read. *)
Definition raw (sql : list N) (params : list value) (w : world)
  : result (list value) * world :=
  (Ok [], console_warn RAW_WARNING w).

(** What [subscribe] resolves to: a function that closes the change stream
    it opened, or the empty function [() => {}]. *)
Inductive unsubscribe : Type :=
  | CloseStream (stream_index : nat) (collectionName : list N)
  | DoNothing.

(** [collection.watch()]. *)
Definition watch (w : world) : result unit :=
  match w_watch_error w with
  | Some e => Throw e
  | None => Ok tt
  end.

(** [subscribe(collectionName, callback, filters)]; the filters are not
    read. *)
Definition subscribe (collectionName : list N) (callback : nat) (w : world)
  : result unsubscribe * world :=
  match collection collectionName w ≫= (fun _ => watch w) with
  | Ok _ =>
      (Ok (CloseStream (length (w_streams w)) collectionName),
       set_streams (w_streams w ++ [Stream collectionName callback false]) w)
  | Throw e =>
      (Ok DoNothing,
       alert (AlertDatabaseError (js "CosmosDB subscribe operation") e) w)
  end.

Definition close_stream (s : stream) : stream :=
  Stream (s_collection s) (s_callback s) true.

(** Calling the function [subscribe] resolved to. *)
Definition call_unsubscribe (u : unsubscribe) (w : world) : world :=
  match u with
  | CloseStream i name =>
      alert (AlertInfo (js "Change stream closed for " ++ name))
        (set_streams (alter close_stream i (w_streams w)) w)
  | DoNothing => w
  end.

(** A change event of the server. *)
Record change : Type := ChangeEvent {
  operationType : list N;
  documentKey : option value;
  fullDocument : option (gmap (list N) value)
}.

Section Streams.

Variable Number : list N -> float.
Variable NumberToString : float -> list N.
Variable SECRET_KEY : list N.

(** The ['change'] listener of the stream [i], run on an event. A closed
    stream has no listeners. *)
Definition on_change (i : nat) (c : change) (w : world) : result world :=
  match w_streams w !! i with
  | Some (Stream name cb false) =>
      decryptedData ←
        _decryptRow Number SECRET_KEY (default ∅ (fullDocument c));
      id ← match documentKey c with
           | None | Some VUndefined | Some VNull =>
               Throw (TypeError "change.documentKey._id")
           | Some v => Ok (String_ NumberToString v)
           end;
      Ok (call_back cb (Change (operationType c) id decryptedData name) w)
  | _ => Ok w
  end.

(** The ['error'] listener of the stream [i]. *)
Definition on_error (i : nat) (e : exn) (message : list N) (w : world)
  : world :=
  match w_streams w !! i with
  | Some (Stream name cb false) =>
      call_back cb (StreamError message name)
        (alert (AlertDatabaseError
                  (js "CosmosDB change stream for " ++ name) e) w)
  | _ => w
  end.

End Streams.

(** [close()]. *)
Definition close (w : world) : world :=
  if w_client w && w_isConnected w then
    match w_close_error w with
    | Some e =>
        alert (AlertDatabaseError (js "CosmosDB connection close") e) w
    | None => alert AlertDatabaseDisconnected (set_isConnected false w)
    end
  else w.

(** [check_up(data)]: the error object's message, or [undefined]. *)
Definition truthy (v : value) : bool :=
  match v with
  | VUndefined | VNull => false
  | VBool b => b
  | VNum x => negb (PrimFloat.is_nan x || PrimFloat.eqb x 0)
  | VStr s => negb (bool_decide (s = []))
  | VArr _ | VObjectId _ => true
  end.

Definition check_up (data : value) : option (list N) :=
  if truthy data then None
  else Some (js "Database not initialized for controller.").


(* ================================================================== *)
(** * Reading a builder's filter *)
(* ================================================================== *)

(** Whether the filter compiled from a builder selects a document; [None]
    when the compilation throws. *)
Definition selects (regex_test : list N -> list N -> list N -> bool)
  (q : builder) (d : gmap (list N) value) : option bool :=
  match _buildMongoQuery q with
  | Ok query => Some (matches regex_test query d)
  | Throw _ => None
  end.

(** [null], [undefined] or a missing field. *)
Definition is_nullish (v : value) : bool :=
  match v with
  | VUndefined | VNull => true
  | _ => false
  end.

(** The operators [_buildMongoQuery] knows. *)
Definition known_operators : list (list N) :=
  map js ["="; "=="; "!="; "<>"; ">"; ">="; "<"; "<="; "in"; "not-in";
          "between"; "like"; "null"; "not-null"]%string.


(* ================================================================== *)
(** * [CosmosDB]: validation and writes *)
(* ================================================================== *)

Fixpoint is_prefix (p s : list N) : bool :=
  match p, s with
  | [], _ => true
  | _ :: _, [] => false
  | x :: p', y :: s' => (x =? y) && is_prefix p' s'
  end.

(** [hay.includes(needle)] for strings. *)
Fixpoint str_includes (needle hay : list N) : bool :=
  is_prefix needle hay
  || match hay with
     | [] => false
     | _ :: t => str_includes needle t
     end.

Definition AT : N := 64.

(** [/^\S+@\S+\.\S+$/.test(s)]: no white space anywhere, and an [@] that is
    not first, followed later, but not at once, by a dot that is not
    last. *)
Fixpoint dot_inside (s : list N) : bool :=
  match s with
  | [] => false
  | _ :: t =>
      match t with
      | c :: _ :: _ => (c =? DOT) || dot_inside t
      | _ => false
      end
  end.

Fixpoint at_inside (s : list N) : bool :=
  match s with
  | [] => false
  | _ :: t =>
      match t with
      | c :: t' => ((c =? AT) && dot_inside t') || at_inside t
      | [] => false
      end
  end.

Definition email_test (s : list N) : bool :=
  forallb (fun c => negb (is_space c)) s && at_inside s.

Section Writes.

Variable Number : list N -> float.
Variable NumberToString : float -> list N.
Variable SECRET_KEY : list N.
Variable regex_test : list N -> list N -> list N -> bool.

(** [String.prototype.toLowerCase]. *)
Variable toLowerCase : list N -> list N.

(** ** [validate] *)

Definition missing (v : value) : bool :=
  match v with
  | VUndefined | VNull => true
  | VStr [] => true
  | _ => false
  end.

(** [v === undefined || v === null || v === ''] for what [data[field]]
    reads. *)
Definition missing_property (p : property) : bool :=
  match p with
  | Held v => missing v
  | Builtin => false
  end.

Definition truthy_property (p : property) : bool :=
  match p with
  | Held v => truthy v
  | Builtin => true
  end.

(** The email pattern on what [data[field]] reads: the text of a built-in
    member of [Object.prototype] holds a space, so it never passes. *)
Definition email_property (p : property) : bool :=
  match p with
  | Held v => email_test (String_ NumberToString v)
  | Builtin => false
  end.

(** What one rule throws, if it throws: the message of the [Error].
    [data[field]] also reads what [data] inherits. *)
Definition check_rule (data : gmap (list N) value) (field rule : list N)
  : option (list N) :=
  let p := get_property data field in
  if str_includes (js "required") rule && missing_property p then
    Some (field ++ js " is required")
  else if str_includes (js "email") rule && truthy_property p
          && negb (email_property p) then
    Some (field ++ js " must be a valid email")
  else None.

(** [validate(data, rules)]: [rules] lists the entries of the rules object
    in their order. The result is the message of the [Error] thrown, or
    [None] when the function returns. *)
Fixpoint validate (data : gmap (list N) value)
  (rules : list (list N * list N)) : option (list N) :=
  match rules with
  | [] => None
  | (field, rule) :: rest =>
      match check_rule data field rule with
      | Some message => Some message
      | None => validate data rest
      end
  end.

(** ** [_encryptData] *)

Definition sensitiveFields : list (list N) :=
  map js ["password"; "email"; "phone"; "address"; "name"]%string.

Definition is_sensitive (key : list N) : bool :=
  existsb (fun field => str_includes field (toLowerCase key)) sensitiveFields.

(** [_encryptData(data)]; [ivs key] is the initialization vector drawn for
    the property [key]. [data] is a dictionary of fields: it has no own
    [__proto__] key. *)
Definition _encryptData (ivs : list N -> list N)
  (data : gmap (list N) value) : result (gmap (list N) value) :=
  obj_mapM (fun key v =>
              if is_sensitive key
              then encrypt NumberToString SECRET_KEY (ivs key) v
              else Ok v) data.

(** ** Stored documents *)

(** The driver stores [undefined] as [null]. *)
Fixpoint to_bson (v : value) : value :=
  match v with
  | VUndefined => VNull
  | VArr items => VArr (map to_bson items)
  | _ => v
  end.

Definition doc_to_bson (d : gmap (list N) value) : gmap (list N) value :=
  to_bson <$> d.

(** [insertOne(doc)]: a document without an [_id] is given [oid]; two
    documents of a collection never share an [_id]. *)
Definition insertOne (oid : list N) (doc : gmap (list N) value)
  (docs : list (gmap (list N) value))
  : result (value * list (gmap (list N) value)) :=
  let stored :=
    if is_nullish (field_of doc ID)
    then <[ID := VObjectId oid]> (doc_to_bson doc)
    else doc_to_bson doc in
  let id := field_of stored ID in
  if existsb (fun d => bson_eqb id (field_of d ID)) docs
  then Throw (MongoError "E11000 duplicate key")
  else Ok (id, docs ++ [stored]).

(** [postData(collectionName, data)]: [created] and [updated] are the
    values of the two [new Date()], [oid] the identifier the driver would
    generate. The result is [insertId]; [affectedRows] is always 1. *)
Definition postData (ivs : list N -> list N) (created updated : value)
  (oid : list N)
  (collectionName : list N) (data : gmap (list N) value) (w : world)
  : result (list N) * world :=
  alert_and_rethrow "CosmosDB postData operation" w
    (docs ← collection collectionName w;
     encryptedData ← _encryptData ivs data;
     let doc :=
       <[js "updated_at" := updated]>
         (<[js "created_at" := created]> encryptedData) in
     inserted ← insertOne oid doc docs;
     Ok (String_ NumberToString inserted.1,
         store collectionName inserted.2 w)).

(** [updateMany(query, {$set: patch})] on one document: the [_id] cannot
    be changed. *)
Definition set_fields (patch d : gmap (list N) value)
  : result (gmap (list N) value) :=
  match patch !! ID with
  | Some id =>
      if bson_eqb id (field_of d ID) then Ok (doc_to_bson patch ∪ d)
      else Throw (MongoError "immutable field _id")
  | None => Ok (doc_to_bson patch ∪ d)
  end.

Definition same_fields (patch d : gmap (list N) value) : bool :=
  bool_decide
    (map_Forall (fun k v => match d !! k with
                            | Some v' => bson_eqb v v'
                            | None => false
                            end = true) patch).

Definition update_doc (query : gmap (list N) mcond)
  (patch d : gmap (list N) value) : result (gmap (list N) value) :=
  if matches regex_test query d then set_fields patch d else Ok d.

(** [update(data)] of the builder: [now] is the value of [new Date()]. The
    result is [affectedRows], the number of documents modified. When the
    server refuses the update the collection is taken to be as it was. *)
Definition update (ivs : list N -> list N) (now : value)
  (data : gmap (list N) value) (q : builder) (w : world)
  : result nat * world :=
  if (size data =? 0)%nat then
    (Throw (Error "No data provided for update"), w)
  else
    alert_and_rethrow "CosmosDB update operation" w
      (docs ← collection (collectionName q) w;
       query ← _buildMongoQuery q;
       encryptedData ← _encryptData ivs data;
       let patch := <[js "updated_at" := now]> encryptedData in
       found ← find_matching regex_test query docs;
       docs' ← mapM (update_doc query patch) docs;
       Ok (length (List.filter
                     (fun d => negb (same_fields (doc_to_bson patch) d))
                     found),
           store (collectionName q) docs' w)).

(** ** Legacy methods *)

(** The separator [' AND '] and [whereClause.split(' AND ')]. *)
Definition AND : list N := js " AND ".

Fixpoint split_on_aux (sep : list N) (inside : nat) (s cur : list N)
  : list (list N) :=
  match s with
  | [] => [rev cur]
  | x :: t =>
      match inside with
      | S k => split_on_aux sep k t cur
      | O =>
          if is_prefix sep s
          then rev cur :: split_on_aux sep (length sep - 1) t []
          else split_on_aux sep 0 t (x :: cur)
      end
  end.

Definition split_on (sep s : list N) : list (list N) :=
  split_on_aux sep 0 s [].

(** The match of the condition pattern on one condition: the field and the
    operator it captures, if it matches. *)
Variable match_condition : list N -> option (list N * list N).

(** The [forEach] of [_parseWhereClause]; a condition on [__proto__] uses
    up its parameter and leaves no filter. *)
Fixpoint parse_conditions (conditions : list (list N))
  (whereParams : list value) (filters : gmap (list N) fentry)
  : gmap (list N) fentry :=
  match conditions with
  | [] => filters
  | condition :: rest =>
      match match_condition condition, whereParams with
      | Some (field, operator), v :: params =>
          parse_conditions rest params
            (obj_set field (Cond (VStr (toLowerCase operator)) v) filters)
      | _, _ => parse_conditions rest whereParams filters
      end
  end.

(** [_parseWhereClause(whereClause, whereParams)]. *)
Definition _parseWhereClause (whereClause : list N)
  (whereParams : list value) : gmap (list N) fentry :=
  match whereClause with
  | [] => ∅
  | _ => parse_conditions (split_on AND whereClause) whereParams ∅
  end.

(** [deleteData(collectionName, whereClause, whereParams)]: a failure of
    [delete()] is reported a second time. *)
Definition deleteData (collectionName whereClause : list N)
  (whereParams : list value) (w : world) : result nat * world :=
  let filters := _parseWhereClause whereClause whereParams in
  let '(r, w') := delete_ regex_test
                    (where_object filters (table collectionName)) w in
  match r with
  | Ok n => (Ok n, w')
  | Throw e =>
      (Throw e,
       alert (AlertDatabaseError (js "CosmosDB deleteData operation") e) w')
  end.

(** [updateData(collectionName, data, whereClause, whereParams)]. *)
Definition updateData (ivs : list N -> list N) (now : value)
  (collectionName : list N) (data : gmap (list N) value)
  (whereClause : list N) (whereParams : list value) (w : world)
  : result nat * world :=
  let filters := _parseWhereClause whereClause whereParams in
  let '(r, w') := update ivs now data
                    (where_object filters (table collectionName)) w in
  match r with
  | Ok n => (Ok n, w')
  | Throw e =>
      (Throw e,
       alert (AlertDatabaseError (js "CosmosDB updateData operation") e) w')
  end.

End Writes.


(* ================================================================== *)
(** * [CosmosDB]: reading through the legacy methods *)
(* ================================================================== *)

(** [s.split(/\s+/)]. *)
Fixpoint split_spaces_aux (in_gap : bool) (s cur : list N)
  : list (list N) :=
  match s with
  | [] => [rev cur]
  | c :: t =>
      if is_space c then
        if in_gap then split_spaces_aux true t cur
        else rev cur :: split_spaces_aux true t []
      else split_spaces_aux false t (c :: cur)
  end.

Definition split_spaces (s : list N) : list (list N) :=
  split_spaces_aux false s [].

(** [options.orderBy]: a string, or an object with a [column] and a
    [direction]; a property that is missing is the empty string here, as
    both are falsy. *)
Inductive order_option : Type :=
  | OrderText (text : list N)
  | OrderColumn (column direction : list N).

(** [options]: [limit] is [None] unless it is an integer. *)
Record options : Type := Options {
  o_orderBy : option order_option;
  o_limit : option Z
}.

(** [x || 'DESC'] for a string or [undefined]. *)
Definition or_desc (direction : option (list N)) : list N :=
  match direction with
  | Some (c :: d) => c :: d
  | _ => js "DESC"
  end.

Section Reads.

Variable Number : list N -> float.
Variable NumberToString : float -> list N.
Variable SECRET_KEY : list N.
Variable regex_test : list N -> list N -> list N -> bool.
Variable server_sort :
  list N -> Z -> list (gmap (list N) value) -> list (gmap (list N) value).
Variable toUpperCase : list N -> list N.
Variable toLowerCase : list N -> list N.

(** The builder [getDataByFilters] runs [get()] on. *)
Definition apply_filters (filters : gmap (list N) fentry) (q : builder)
  : builder :=
  if (0 <? size filters)%nat then where_object filters q else q.

Definition apply_order (o : option order_option) (q : builder) : builder :=
  match o with
  | Some (OrderText (c :: text)) =>
      let parts := split_spaces (trim (c :: text)) in
      let column := hd [] parts in
      let direction := or_desc (parts !! 1%nat) in
      orderBy toUpperCase column direction q
  | Some (OrderColumn (c :: column) direction) =>
      orderBy toUpperCase (c :: column) (or_desc (Some direction)) q
  | _ => q
  end.

Definition apply_limit (l : option Z) (q : builder) : builder :=
  match l with
  | Some n => if (0 <? n)%Z then limit n None q else q
  | None => q
  end.

Definition filters_builder (collectionName : list N)
  (filters : gmap (list N) fentry) (o : options) : builder :=
  apply_limit (o_limit o)
    (apply_order (o_orderBy o)
       (apply_filters filters (table collectionName))).

(** A [catch] that reports the failure of a call that has reported it
    already. *)
Definition report_again {A} (context : string) (r : result A * world)
  : result A * world :=
  match r.1 with
  | Ok _ => r
  | Throw e => (r.1, alert (AlertDatabaseError (js context) e) r.2)
  end.

(** [getDataByFilters(collectionName, filters, options)]. *)
Definition getDataByFilters (collectionName : list N)
  (filters : gmap (list N) fentry) (o : options) (w : world)
  : result (list (gmap (list N) value)) * world :=
  report_again "CosmosDB getDataByFilters operation"
    (get Number NumberToString SECRET_KEY regex_test server_sort
       (filters_builder collectionName filters o) w).

(** [getAllUsers()]. *)
Definition getAllUsers (w : world)
  : result (list (gmap (list N) value)) * world :=
  report_again "CosmosDB getAllUsers operation"
    (get Number NumberToString SECRET_KEY regex_test server_sort
       (table (js "users")) w).

(** [insertUser(name, email)]. *)
Definition insertUser (ivs : list N -> list N) (created updated : value)
  (oid : list N) (name email : value) (w : world)
  : result (list N) * world :=
  report_again "CosmosDB insertUser operation"
    (postData NumberToString SECRET_KEY toLowerCase ivs created updated oid
       (js "users")
       (<[js "name" := name]> (<[js "email" := email]> ∅)) w).

End Reads.


(* ================================================================== *)
(** * Facts about bytes *)
(* ================================================================== *)

Lemma bytes256_complete (a : N) : a < 256 -> In a AES.bytes256.
Proof.
  intros Ha. unfold AES.bytes256. apply in_map_iff.
  exists (N.to_nat a). split; [apply N2Nat.id|].
  apply in_seq. lia.
Qed.

(** A decidable property that holds of the 256 bytes holds of every byte. *)
Lemma byte_forall (P : N -> bool) :
  forallb P AES.bytes256 = true -> forall a, a < 256 -> P a = true.
Proof.
  intros H a Ha. rewrite List.forallb_forall in H.
  apply H, bytes256_complete, Ha.
Qed.

Lemma lxor_byte (a b : N) : a < 256 -> b < 256 -> N.lxor a b < 256.
Proof.
  intros Ha Hb.
  destruct (N.eq_dec (N.lxor a b) 0) as [->|Hne]; [lia|].
  apply (N.log2_lt_pow2 _ 8); [lia|].
  eapply N.le_lt_trans; [apply N.log2_lxor|].
  apply N.max_lub_lt.
  - destruct (N.eq_dec a 0) as [->|]; [reflexivity|].
    apply N.log2_lt_pow2; lia.
  - destruct (N.eq_dec b 0) as [->|]; [reflexivity|].
    apply N.log2_lt_pow2; lia.
Qed.

Lemma is_buffer_app (a b : list N) :
  is_buffer a -> is_buffer b -> is_buffer (a ++ b).
Proof. apply Forall_app_2. Qed.

Module AESFacts.
Import AES.

(** ** The S-box *)

Lemma table_bound (t : list N) (i : nat) :
  forallb (fun b => b <? 256) t = true -> nth i t 0 < 256.
Proof.
  intros H. rewrite List.forallb_forall in H.
  destruct (nth_in_or_default i t 0) as [Hin | ->]; [|lia].
  apply N.ltb_lt, H, Hin.
Qed.

Lemma sbox_byte (a : N) : sbox a < 256.
Proof. apply table_bound. vm_compute. reflexivity. Qed.

Lemma inv_sbox_byte (a : N) : inv_sbox a < 256.
Proof. apply table_bound. vm_compute. reflexivity. Qed.

Lemma inv_sbox_sbox (a : N) : a < 256 -> inv_sbox (sbox a) = a.
Proof.
  intros Ha. apply N.eqb_eq. revert a Ha.
  apply (byte_forall (fun a => inv_sbox (sbox a) =? a)).
  vm_compute. reflexivity.
Qed.

Lemma sbox_inv_sbox (a : N) : a < 256 -> sbox (inv_sbox a) = a.
Proof.
  intros Ha. apply N.eqb_eq. revert a Ha.
  apply (byte_forall (fun a => sbox (inv_sbox a) =? a)).
  vm_compute. reflexivity.
Qed.

(** ** Multiplication in GF(2^8) is linear in its second argument *)

(** Equations between exclusive-ors, decided bit by bit. *)
Ltac xor_solve :=
  apply N.bits_inj; intros ?; rewrite ?N.lxor_spec, ?N.bits_0; btauto.

Lemma odd_lxor (a b : N) : N.odd (N.lxor a b) = xorb (N.odd a) (N.odd b).
Proof. rewrite <- !N.bit0_odd. apply N.lxor_spec. Qed.

Lemma gmul_aux_lxor (n : nat) (a b1 b2 acc1 acc2 : N) :
  gmul_aux n a (N.lxor b1 b2) (N.lxor acc1 acc2) =
  N.lxor (gmul_aux n a b1 acc1) (gmul_aux n a b2 acc2).
Proof.
  revert a b1 b2 acc1 acc2.
  induction n as [|n IH]; intros a b1 b2 acc1 acc2; simpl; [reflexivity|].
  rewrite N.shiftr_lxor, odd_lxor.
  destruct (N.odd b1), (N.odd b2); simpl; rewrite <- IH; f_equal; xor_solve.
Qed.

Lemma gmul_lxor (c a b : N) :
  gmul c (N.lxor a b) = N.lxor (gmul c a) (gmul c b).
Proof.
  unfold gmul. rewrite <- gmul_aux_lxor. reflexivity.
Qed.

Lemma gmul_xor4 (c w x y z : N) :
  gmul c (xor4 w x y z) = xor4 (gmul c w) (gmul c x) (gmul c y) (gmul c z).
Proof. unfold xor4. rewrite !gmul_lxor. reflexivity. Qed.

Lemma xor4_transpose (a0 a1 a2 a3 b0 b1 b2 b3 c0 c1 c2 c3 d0 d1 d2 d3 : N) :
  xor4 (xor4 a0 a1 a2 a3) (xor4 b0 b1 b2 b3)
       (xor4 c0 c1 c2 c3) (xor4 d0 d1 d2 d3) =
  xor4 (xor4 a0 b0 c0 d0) (xor4 a1 b1 c1 d1)
       (xor4 a2 b2 c2 d2) (xor4 a3 b3 c3 d3).
Proof.
  unfold xor4. xor_solve.
Qed.

Lemma xor4_byte (a b c d : N) :
  a < 256 -> b < 256 -> c < 256 -> d < 256 -> xor4 a b c d < 256.
Proof. intros. unfold xor4. auto using lxor_byte. Qed.

Lemma gmul_byte (c a : N) :
  In c [2; 3; 9; 11; 13; 14] -> a < 256 -> gmul c a < 256.
Proof.
  intros Hc Ha. apply N.ltb_lt. revert a Ha.
  simpl in Hc.
  repeat (destruct Hc as [<- | Hc];
          [apply (byte_forall (fun a => gmul _ a <? 256));
           vm_compute; reflexivity|]).
  destruct Hc.
Qed.

(** ** MixColumns *)

(** Proves [b = true] for a boolean [b] that mentions the byte [a] only, by
    running it on the 256 bytes. *)
Ltac byte_enum a Ha :=
  lazymatch goal with
  | |- ?b = true =>
      let f := eval pattern a in b in
      lazymatch f with
      | ?g _ => apply (byte_forall g); [vm_compute; reflexivity | exact Ha]
      end
  end.

Ltac byte_eq a Ha := apply N.eqb_eq; byte_enum a Ha.

Ltac fold_group a Ha :=
  match goal with
  | |- context [xor4 (gmul ?d0 ?t0) (gmul ?d1 ?t1) (gmul ?d2 ?t2) (gmul ?d3 ?t3)] =>
      match t0 with context [a] => idtac end;
      first
        [ replace (xor4 (gmul d0 t0) (gmul d1 t1) (gmul d2 t2) (gmul d3 t3))
            with a by (symmetry; byte_eq a Ha)
        | replace (xor4 (gmul d0 t0) (gmul d1 t1) (gmul d2 t2) (gmul d3 t3))
            with 0 by (symmetry; byte_eq a Ha) ]
  end.

Lemma list4_eq {A} (a b c d a' b' c' d' : A) :
  a = a' -> b = b' -> c = c' -> d = d' -> [a; b; c; d] = [a'; b'; c'; d'].
Proof. congruence. Qed.

Lemma inv_mix_mix_column (a0 a1 a2 a3 : N) :
  a0 < 256 -> a1 < 256 -> a2 < 256 -> a3 < 256 ->
  columns inv_mix_column (mix_column a0 a1 a2 a3) = [a0; a1; a2; a3].
Proof.
  intros H0 H1 H2 H3.
  change (columns inv_mix_column (mix_column a0 a1 a2 a3))
    with (inv_mix_column
      (xor4 (gmul 2 a0) (gmul 3 a1) a2 a3)
      (xor4 a0 (gmul 2 a1) (gmul 3 a2) a3)
      (xor4 a0 a1 (gmul 2 a2) (gmul 3 a3))
      (xor4 (gmul 3 a0) a1 a2 (gmul 2 a3)) ++ []).
  rewrite app_nil_r. unfold inv_mix_column.
  rewrite !gmul_xor4.
  apply list4_eq; rewrite xor4_transpose.
  all: fold_group a0 H0.
  all: fold_group a1 H1.
  all: fold_group a2 H2; fold_group a3 H3.
  all:  unfold xor4; rewrite ?N.lxor_0_r, ?N.lxor_0_l; reflexivity.
Qed.
Lemma mix_column_buffer (a0 a1 a2 a3 : N) :
  a0 < 256 -> a1 < 256 -> a2 < 256 -> a3 < 256 ->
  is_buffer (mix_column a0 a1 a2 a3).
Proof.
  intros H0 H1 H2 H3. unfold mix_column.
  repeat apply Forall_cons_2; try apply Forall_nil_2;
    apply xor4_byte; try assumption; apply gmul_byte; simpl; auto 10.
Qed.

Lemma inv_mix_column_buffer (a0 a1 a2 a3 : N) :
  a0 < 256 -> a1 < 256 -> a2 < 256 -> a3 < 256 ->
  is_buffer (inv_mix_column a0 a1 a2 a3).
Proof.
  intros H0 H1 H2 H3. unfold inv_mix_column.
  repeat apply Forall_cons_2; try apply Forall_nil_2;
    apply xor4_byte; try assumption; apply gmul_byte; simpl; auto 10.
Qed.

Lemma state_of_cons (n : nat) (s : list N) :
  state_of (S n) s ->
  exists a0 a1 a2 a3 t,
    s = a0 :: a1 :: a2 :: a3 :: t /\
    a0 < 256 /\ a1 < 256 /\ a2 < 256 /\ a3 < 256 /\ state_of n t.
Proof.
  intros [Hlen Hb].
  destruct s as [|a0 [|a1 [|a2 [|a3 t]]]]; simpl in Hlen; try lia.
  exists a0, a1, a2, a3, t.
  unfold is_buffer in Hb. rewrite !Forall_cons in Hb.
  destruct Hb as (? & ? & ? & ? & ?).
  repeat split; try assumption. lia.
Qed.

Lemma inv_mix_mix_columns (n : nat) (s : list N) :
  state_of n s -> inv_mix_columns (mix_columns s) = s.
Proof.
  revert s. induction n as [|n IH]; intros s Hs.
  - destruct Hs as [Hlen _]. destruct s; [reflexivity|discriminate].
  - destruct (state_of_cons _ _ Hs)
      as (a0 & a1 & a2 & a3 & t & -> & H0 & H1 & H2 & H3 & Ht).
    unfold inv_mix_columns, mix_columns in *.
    change (columns mix_column (a0 :: a1 :: a2 :: a3 :: t))
      with (mix_column a0 a1 a2 a3 ++ columns mix_column t).
    change (columns inv_mix_column
              (mix_column a0 a1 a2 a3 ++ columns mix_column t))
      with (columns inv_mix_column (mix_column a0 a1 a2 a3)
              ++ columns inv_mix_column (columns mix_column t)).
    rewrite inv_mix_mix_column by assumption.
    rewrite IH by assumption. reflexivity.
Qed.

Lemma mix_columns_state (n : nat) (s : list N) :
  state_of n s -> state_of n (mix_columns s).
Proof.
  revert s. induction n as [|n IH]; intros s Hs.
  - destruct Hs as [Hlen _]. destruct s; [|discriminate].
    split; [reflexivity|constructor].
  - destruct (state_of_cons _ _ Hs)
      as (a0 & a1 & a2 & a3 & t & -> & H0 & H1 & H2 & H3 & Ht).
    destruct (IH t Ht) as [Hl Hb].
    unfold mix_columns in *.
    change (columns mix_column (a0 :: a1 :: a2 :: a3 :: t))
      with (mix_column a0 a1 a2 a3 ++ columns mix_column t).
    split.
    + rewrite length_app, Hl. simpl. lia.
    + apply is_buffer_app; [apply mix_column_buffer; assumption|exact Hb].
Qed.

(** ** AddRoundKey, SubBytes, ShiftRows *)

Lemma xor_bytes_length (a b : list N) :
  length a = length b -> length (xor_bytes a b) = length a.
Proof.
  unfold xor_bytes. intros H. rewrite length_zip_with. lia.
Qed.

Lemma xor_bytes_buffer (a b : list N) :
  is_buffer a -> is_buffer b -> is_buffer (xor_bytes a b).
Proof.
  unfold xor_bytes, is_buffer. intros Ha. revert b.
  induction Ha as [|x a Hx Ha IH]; intros b Hb; simpl; [constructor|].
  destruct Hb as [|y b Hy Hb]; [constructor|].
  constructor; [apply lxor_byte; assumption|apply IH, Hb].
Qed.

Lemma xor_bytes_cancel (a k : list N) :
  length a = length k -> xor_bytes (xor_bytes a k) k = a.
Proof.
  unfold xor_bytes. revert k.
  induction a as [|x a IH]; intros [|y k] Hlen; simpl in *;
    try discriminate; [reflexivity|].
  rewrite IH by lia. f_equal.
  rewrite N.lxor_assoc, N.lxor_nilpotent, N.lxor_0_r. reflexivity.
Qed.

Lemma xor_bytes_state (n : nat) (a b : list N) :
  state_of n a -> state_of n b -> state_of n (xor_bytes a b).
Proof.
  intros [La Ba] [Lb Bb]. split.
  - rewrite xor_bytes_length; lia.
  - apply xor_bytes_buffer; assumption.
Qed.

Lemma inv_sub_sub_bytes (s : list N) :
  is_buffer s -> inv_sub_bytes (sub_bytes s) = s.
Proof.
  unfold inv_sub_bytes, sub_bytes, is_buffer.
  induction 1 as [|x s Hx Hs IH]; simpl; [reflexivity|].
  rewrite inv_sbox_sbox by assumption. f_equal. exact IH.
Qed.

Lemma sub_bytes_state (n : nat) (s : list N) :
  length s = (4 * n)%nat -> state_of n (sub_bytes s).
Proof.
  intros H. split.
  - unfold sub_bytes. rewrite length_map. exact H.
  - unfold sub_bytes, is_buffer. apply Forall_map, Forall_forall.
    intros x _. apply sbox_byte.
Qed.

Ltac destruct_block s :=
  do 17 (destruct s as [|? s]; try reflexivity; try discriminate).

Lemma inv_shift_shift_rows (s : list N) :
  inv_shift_rows (shift_rows s) = s.
Proof. destruct_block s. Qed.

Lemma shift_rows_state (s : list N) :
  state_of 4 s -> state_of 4 (shift_rows s).
Proof.
  intros [Hl Hb]. 
  do 17 (destruct s as [|? s]; try discriminate).
  split; [reflexivity|].
  unfold is_buffer in *. simpl. rewrite !Forall_cons in Hb.
  repeat (apply Forall_cons_2 || apply Forall_nil_2); tauto.
Qed.

(** ** Rounds *)

Lemma round_state (s rk : list N) :
  state_of 4 s -> state_of 4 rk -> state_of 4 (round s rk).
Proof.
  intros Hs Hrk. unfold round, add_round_key.
  apply xor_bytes_state; [|exact Hrk].
  apply mix_columns_state, shift_rows_state, sub_bytes_state, Hs.
Qed.

Lemma inv_round_round (s rk : list N) :
  state_of 4 s -> state_of 4 rk ->
  inv_round (shift_rows (sub_bytes (round s rk))) rk =
  shift_rows (sub_bytes s).
Proof.
  intros Hs Hrk. unfold inv_round.
  rewrite inv_shift_shift_rows.
  rewrite inv_sub_sub_bytes by apply (proj2 (round_state s rk Hs Hrk)).
  unfold round, add_round_key.
  assert (Hm : state_of 4 (mix_columns (shift_rows (sub_bytes s)))).
  { apply mix_columns_state, shift_rows_state, sub_bytes_state, Hs. }
  rewrite xor_bytes_cancel by (destruct Hm, Hrk; lia).
  apply (inv_mix_mix_columns 4).
  apply shift_rows_state, sub_bytes_state, Hs.
Qed.

Lemma rounds_state (ks : list (list N)) (s : list N) :
  Forall (state_of 4) ks -> state_of 4 s ->
  state_of 4 (fold_left round ks s).
Proof.
  intros Hks. revert s.
  induction Hks as [|k ks Hk Hks IH]; intros s Hs; simpl; [exact Hs|].
  apply IH, round_state; assumption.
Qed.

Lemma inv_rounds_rounds (ks : list (list N)) (s : list N) :
  Forall (state_of 4) ks -> state_of 4 s ->
  fold_left inv_round (rev ks)
    (shift_rows (sub_bytes (fold_left round ks s))) =
  shift_rows (sub_bytes s).
Proof.
  intros Hks. revert s.
  induction Hks as [|k ks Hk Hks IH]; intros s Hs; simpl; [reflexivity|].
  rewrite fold_left_app. simpl.
  rewrite IH by (apply round_state; assumption).
  apply inv_round_round; assumption.
Qed.

(** The inverse cipher undoes the cipher, for every schedule of at least
    two round keys. *)
Lemma inv_cipher_cipher (rks : list (list N)) (block : list N) :
  (2 <= length rks)%nat -> Forall (state_of 4) rks -> state_of 4 block ->
  inv_cipher rks (cipher rks block) = block.
Proof.
  intros Hlen Hrks Hb.
  destruct rks as [|rk0 rest]; [simpl in Hlen; lia|].
  apply Forall_cons in Hrks as [Hrk0 Hrest].
  unfold cipher, inv_cipher.
  destruct (rev rest) as [|rk_last middle_rev] eqn:Erev.
  { apply (f_equal (@length _)) in Erev. rewrite length_rev in Erev.
    simpl in *. lia. }
  assert (Hrev : Forall (state_of 4) (rk_last :: middle_rev)).
  { rewrite <- Erev. apply Forall_rev, Hrest. }
  apply Forall_cons in Hrev as [Hlast Hmid].
  assert (H0 : state_of 4 (add_round_key rk0 block)).
  { apply xor_bytes_state; assumption. }
  assert (Hmid' : Forall (state_of 4) (rev middle_rev)).
  { apply Forall_rev, Hmid. }
  pose proof (rounds_state _ _ Hmid' H0) as Hs.
  unfold final_round, inv_final_round.
  unfold add_round_key at 2 3.
  rewrite xor_bytes_cancel.
  2:{ destruct Hlast as [-> _].
      apply shift_rows_state, sub_bytes_state, Hs. }
  rewrite <- (rev_involutive middle_rev) at 1.
  rewrite inv_rounds_rounds by assumption.
  rewrite inv_shift_shift_rows.
  rewrite inv_sub_sub_bytes by apply (proj2 H0).
  unfold add_round_key. apply xor_bytes_cancel.
  destruct Hb, Hrk0. lia.
Qed.

Lemma cipher_state (rks : list (list N)) (block : list N) :
  (2 <= length rks)%nat -> Forall (state_of 4) rks -> state_of 4 block ->
  state_of 4 (cipher rks block).
Proof.
  intros Hlen Hrks Hb.
  destruct rks as [|rk0 rest]; [simpl in Hlen; lia|].
  apply Forall_cons in Hrks as [Hrk0 Hrest].
  unfold cipher.
  destruct (rev rest) as [|rk_last middle_rev] eqn:Erev.
  { apply (f_equal (@length _)) in Erev. rewrite length_rev in Erev.
    simpl in *. lia. }
  assert (Hrev : Forall (state_of 4) (rk_last :: middle_rev)).
  { rewrite <- Erev. apply Forall_rev, Hrest. }
  apply Forall_cons in Hrev as [Hlast Hmid].
  unfold final_round, add_round_key.
  apply xor_bytes_state; [|exact Hlast].
  apply shift_rows_state, sub_bytes_state.
  apply rounds_state; [apply Forall_rev, Hmid|].
  apply xor_bytes_state; assumption.
Qed.

(** ** The key schedule *)

Lemma xtime_byte (a : N) : a < 256 -> xtime a < 256.
Proof.
  intros Ha. apply N.ltb_lt. byte_enum a Ha.
Qed.

Lemma rcon_byte (i : nat) : rcon i < 256.
Proof.
  induction i as [|i IH]; simpl; [lia|apply xtime_byte, IH].
Qed.

Lemma rot_word_word (w : list N) : word w -> word (rot_word w).
Proof.
  intros [Hl Hb].
  do 5 (destruct w as [|? w]; try discriminate).
  split; [reflexivity|].
  unfold is_buffer in *. simpl. rewrite !Forall_cons in Hb.
  repeat (apply Forall_cons_2 || apply Forall_nil_2); tauto.
Qed.

Lemma sub_word_word (w : list N) : word w -> word (sub_word w).
Proof. intros [Hl _]. apply (sub_bytes_state 1), Hl. Qed.

Lemma nth_word (ws : list (list N)) (i : nat) :
  Forall word ws -> (i < length ws)%nat -> word (nth i ws []).
Proof.
  intros H Hi. rewrite List.Forall_forall in H. apply H, nth_In, Hi.
Qed.

Lemma expand_S (n i : nat) (ws : list (list N)) :
  expand (S n) i ws =
  expand n (S i)
    (xor_bytes (nth 7 ws []) (next_temp i (nth 0 ws [])) :: ws).
Proof. reflexivity. Qed.

Lemma next_temp_word (i : nat) (prev : list N) :
  word prev -> word (next_temp i prev).
Proof.
  intros Hprev. unfold next_temp. destruct (i mod 8 =? 0)%nat.
  - apply (xor_bytes_state 1).
    + apply sub_word_word, rot_word_word, Hprev.
    + split; [reflexivity|].
      repeat (apply Forall_cons_2 || apply Forall_nil_2);
        try apply rcon_byte; lia.
  - destruct (i mod 8 =? 4)%nat; [apply sub_word_word|]; exact Hprev.
Qed.

Lemma expand_words (n i : nat) (ws : list (list N)) :
  Forall word ws -> (8 <= length ws)%nat ->
  Forall word (expand n i ws) /\
  length (expand n i ws) = (n + length ws)%nat.
Proof.
  revert i ws. induction n as [|n IH]; intros i ws Hws Hlen.
  - split; [exact Hws|reflexivity].
  - rewrite expand_S.
    assert (Hprev : word (nth 0 ws [])) by (apply nth_word; [exact Hws|lia]).
    assert (Hback : word (nth 7 ws [])) by (apply nth_word; [exact Hws|lia]).
    destruct (IH (S i)
                (xor_bytes (nth 7 ws []) (next_temp i (nth 0 ws [])) :: ws))
      as [H1 H2].
    + apply Forall_cons_2; [|exact Hws].
      apply (xor_bytes_state 1); [exact Hback|apply next_temp_word, Hprev].
    + simpl. lia.
    + split; [exact H1|]. rewrite H2. simpl. lia.
Qed.

Lemma words_words (n : nat) (l : list N) :
  length l = (4 * n)%nat -> is_buffer l ->
  Forall word (words n l) /\ length (words n l) = n.
Proof.
  revert l. induction n as [|n IH]; intros l Hl Hb; simpl.
  - split; [constructor|reflexivity].
  - destruct (IH (skipn 4 l)) as [H1 H2].
    + rewrite length_skipn. lia.
    + apply Forall_drop, Hb.
    + split; [|rewrite H2; reflexivity].
      apply Forall_cons_2; [|exact H1].
      split; [rewrite length_firstn; lia|apply Forall_take, Hb].
Qed.

Lemma round_keys_of_states (n : nat) (ws : list (list N)) :
  Forall word ws -> length ws = (4 * n)%nat ->
  Forall (state_of 4) (round_keys_of n ws) /\
  length (round_keys_of n ws) = n.
Proof.
  revert ws. induction n as [|n IH]; intros ws Hws Hlen; simpl.
  - split; [constructor|reflexivity].
  - destruct ws as [|a [|b [|c [|d t]]]]; simpl in Hlen; try lia.
    rewrite !Forall_cons in Hws.
    destruct Hws as ([La Ba] & [Lb Bb] & [Lc Bc] & [Ld Bd] & Ht).
    destruct (IH t Ht) as [H1 H2]; [lia|].
    split; [|simpl; rewrite H2; reflexivity].
    apply Forall_cons_2; [|exact H1]. split.
    + rewrite !length_app. lia.
    + repeat apply is_buffer_app; assumption.
Qed.

Lemma key_schedule_states (key : list N) :
  is_key key ->
  Forall (state_of 4) (key_schedule key) /\ length (key_schedule key) = 15%nat.
Proof.
  intros [Hl Hb]. unfold key_schedule.
  destruct (words_words 8 key Hl Hb) as [Hw Hwl].
  destruct (expand_words 52 8 (rev (words 8 key))) as [He Hel].
  - apply Forall_rev, Hw.
  - rewrite length_rev, Hwl. lia.
  - apply round_keys_of_states.
    + apply Forall_rev, He.
    + rewrite length_rev, Hel, length_rev, Hwl. reflexivity.
Qed.

(** ** The block cipher under a key *)

Lemma decrypt_encrypt_block (key block : list N) :
  is_key key -> state_of 4 block ->
  decrypt_block key (encrypt_block key block) = block.
Proof.
  intros Hk Hb. destruct (key_schedule_states key Hk) as [Hs Hl].
  apply inv_cipher_cipher; [lia|exact Hs|exact Hb].
Qed.

Lemma encrypt_block_state (key block : list N) :
  is_key key -> state_of 4 block -> state_of 4 (encrypt_block key block).
Proof.
  intros Hk Hb. destruct (key_schedule_states key Hk) as [Hs Hl].
  apply cipher_state; [lia|exact Hs|exact Hb].
Qed.

End AESFacts.

(* ================================================================== *)
(** * CBC and padding *)
(* ================================================================== *)

Lemma chunks_concat (n : nat) (l : list N) :
  length l = (BLOCK * n)%nat ->
  concat (chunks n l) = l /\ Forall (fun b => length b = BLOCK) (chunks n l).
Proof.
  revert l. induction n as [|n IH]; intros l Hl; simpl.
  - destruct l; [split; [reflexivity|constructor]|simpl in Hl; lia].
  - destruct (IH (skipn BLOCK l)) as [H1 H2].
    { rewrite length_skipn. lia. }
    split.
    + rewrite H1. apply firstn_skipn.
    + constructor; [|exact H2]. rewrite length_firstn. lia.
Qed.

Lemma chunks_of_concat (bs : list (list N)) :
  Forall (fun b => length b = BLOCK) bs ->
  chunks (length bs) (concat bs) = bs.
Proof.
  induction 1 as [|b bs Hb Hbs IH]; simpl; [reflexivity|].
  rewrite take_app_length' by (symmetry; exact Hb).
  rewrite drop_app_length' by (symmetry; exact Hb).
  rewrite IH. reflexivity.
Qed.

Lemma length_concat_blocks (bs : list (list N)) :
  Forall (fun b => length b = BLOCK) bs ->
  length (concat bs) = (BLOCK * length bs)%nat.
Proof.
  induction 1 as [|b bs Hb Hbs IH]; [reflexivity|].
  cbn [concat length]. rewrite length_app, IH, Hb. unfold BLOCK. lia.
Qed.

Lemma blocks_of_concat (bs : list (list N)) :
  Forall (fun b => length b = BLOCK) bs ->
  blocks_of (concat bs) = bs.
Proof.
  intros H. unfold blocks_of.
  rewrite length_concat_blocks by exact H.
  replace (BLOCK * length bs / BLOCK)%nat with (length bs).
  - apply chunks_of_concat, H.
  - unfold BLOCK. rewrite Nat.mul_comm, Nat.div_mul; lia.
Qed.

Lemma concat_blocks_of (l : list N) :
  (length l mod BLOCK = 0)%nat -> concat (blocks_of l) = l.
Proof.
  intros H. unfold blocks_of. apply chunks_concat.
  unfold BLOCK in *.
  pose proof (Nat.div_mod_eq (length l) 16). lia.
Qed.

Lemma blocks_of_states (l : list N) :
  (length l mod BLOCK = 0)%nat -> is_buffer l ->
  Forall (state_of 4) (blocks_of l).
Proof.
  intros Hm Hb.
  assert (Hl : length l = (BLOCK * (length l / BLOCK))%nat).
  { unfold BLOCK in *. pose proof (Nat.div_mod_eq (length l) 16). lia. }
  destruct (chunks_concat _ _ Hl) as [Hc Hf].
  fold (blocks_of l) in Hc, Hf.
  rewrite <- Hc in Hb. clear Hc Hl Hm.
  induction Hf as [|b bs Hlb Hbs IH]; [constructor|].
  simpl in Hb. apply Forall_app in Hb as [Hb1 Hb2].
  constructor; [split; [exact Hlb|exact Hb1]|apply IH, Hb2].
Qed.

Section CBCFacts.

Variable E D : list N -> list N.
Hypothesis D_E : forall b, state_of 4 b -> D (E b) = b.
Hypothesis E_state : forall b, state_of 4 b -> state_of 4 (E b).

Lemma cbc_encrypt_blocks_states (prev : list N) (bs : list (list N)) :
  state_of 4 prev -> Forall (state_of 4) bs ->
  Forall (state_of 4) (cbc_encrypt_blocks E prev bs).
Proof.
  intros Hp Hbs. revert prev Hp.
  induction Hbs as [|b bs Hb Hbs IH]; intros prev Hp; simpl; [constructor|].
  assert (Hc : state_of 4 (E (AES.xor_bytes b prev))).
  { apply E_state, AESFacts.xor_bytes_state; assumption. }
  constructor; [exact Hc|apply IH, Hc].
Qed.

Lemma cbc_decrypt_encrypt_blocks (prev : list N) (bs : list (list N)) :
  state_of 4 prev -> Forall (state_of 4) bs ->
  cbc_decrypt_blocks D prev (cbc_encrypt_blocks E prev bs) = bs.
Proof.
  intros Hp Hbs. revert prev Hp.
  induction Hbs as [|b bs Hb Hbs IH]; intros prev Hp; simpl; [reflexivity|].
  assert (Hx : state_of 4 (AES.xor_bytes b prev)).
  { apply AESFacts.xor_bytes_state; assumption. }
  rewrite D_E by exact Hx.
  rewrite AESFacts.xor_bytes_cancel by (destruct Hb, Hp; lia).
  rewrite IH by (apply E_state, Hx). reflexivity.
Qed.

Lemma states_lengths (bs : list (list N)) :
  Forall (state_of 4) bs -> Forall (fun b => length b = BLOCK) bs.
Proof. intros H. eapply Forall_impl; [exact H|]. intros b [Hl _]. exact Hl. Qed.

Lemma cbc_decrypt_encrypt (iv data : list N) :
  state_of 4 iv -> is_buffer data -> (length data mod BLOCK = 0)%nat ->
  cbc_decrypt D iv (cbc_encrypt E iv data) = data.
Proof.
  intros Hiv Hb Hm. unfold cbc_decrypt, cbc_encrypt.
  pose proof (blocks_of_states data Hm Hb) as Hbs.
  rewrite blocks_of_concat
    by (apply states_lengths, cbc_encrypt_blocks_states; assumption).
  rewrite cbc_decrypt_encrypt_blocks by assumption.
  apply concat_blocks_of, Hm.
Qed.

Lemma cbc_encrypt_length (iv data : list N) :
  state_of 4 iv -> is_buffer data -> (length data mod BLOCK = 0)%nat ->
  length (cbc_encrypt E iv data) = length data.
Proof.
  intros Hiv Hb Hm. unfold cbc_encrypt.
  pose proof (blocks_of_states data Hm Hb) as Hbs.
  rewrite length_concat_blocks
    by (apply states_lengths, cbc_encrypt_blocks_states; assumption).
  assert (Hl : length (cbc_encrypt_blocks E iv (blocks_of data))
               = length (blocks_of data)).
  { generalize (blocks_of data) iv. clear.
    induction l as [|b bs IH]; intros prev; simpl; [reflexivity|].
    rewrite IH. reflexivity. }
  rewrite Hl. rewrite <- length_concat_blocks by (apply states_lengths, Hbs).
  rewrite concat_blocks_of by exact Hm. reflexivity.
Qed.

Lemma cbc_encrypt_buffer (iv data : list N) :
  state_of 4 iv -> is_buffer data -> (length data mod BLOCK = 0)%nat ->
  is_buffer (cbc_encrypt E iv data).
Proof.
  intros Hiv Hb Hm. unfold cbc_encrypt.
  pose proof (cbc_encrypt_blocks_states iv (blocks_of data) Hiv
                (blocks_of_states data Hm Hb)) as H.
  induction H as [|b bs [_ Hbb] Hbs IH]; simpl; [constructor|].
  apply is_buffer_app; assumption.
Qed.

End CBCFacts.

(** ** PKCS#7 *)

Lemma pad_count_range (data : list N) :
  (1 <= pad_count data <= BLOCK)%nat.
Proof.
  unfold pad_count, BLOCK.
  pose proof (Nat.mod_upper_bound (length data) 16). lia.
Qed.

Lemma pkcs7_pad_eq (data : list N) :
  pkcs7_pad data =
  data ++ repeat (N.of_nat (pad_count data)) (pad_count data).
Proof. reflexivity. Qed.

Lemma pkcs7_pad_length (data : list N) :
  length (pkcs7_pad data) = (length data + pad_count data)%nat.
Proof. rewrite pkcs7_pad_eq, length_app, repeat_length. reflexivity. Qed.

Lemma pkcs7_pad_blocks (data : list N) :
  (length (pkcs7_pad data) mod BLOCK = 0)%nat /\
  (length (pkcs7_pad data) <> 0)%nat.
Proof.
  rewrite pkcs7_pad_length. pose proof (pad_count_range data) as Hr.
  split; [|lia].
  unfold pad_count, BLOCK in *.
  pose proof (Nat.div_mod_eq (length data) 16) as Hd.
  pose proof (Nat.mod_upper_bound (length data) 16).
  replace (length data + (16 - length data mod 16))%nat
    with ((length data / 16 + 1) * 16)%nat by lia.
  apply Nat.Div0.mod_mul.
Qed.

Lemma pkcs7_pad_buffer (data : list N) :
  is_buffer data -> is_buffer (pkcs7_pad data).
Proof.
  intros Hd. rewrite pkcs7_pad_eq. apply is_buffer_app; [exact Hd|].
  pose proof (pad_count_range data) as Hr. unfold BLOCK in Hr.
  apply Forall_forall. intros x Hx.
  apply list_elem_of_In, repeat_spec in Hx. subst x. lia.
Qed.

Lemma pkcs7_unpad_pad (data : list N) :
  pkcs7_unpad (pkcs7_pad data) = Some data.
Proof.
  pose proof (pad_count_range data) as Hr.
  unfold pkcs7_unpad. rewrite pkcs7_pad_length, pkcs7_pad_eq.
  set (k := pad_count data) in *.
  assert (Hlast : List.last (data ++ repeat (N.of_nat k) k) 0 = N.of_nat k).
  { destruct k as [|k']; [lia|].
    change (repeat (N.of_nat (S k')) (S k'))
      with (N.of_nat (S k') :: repeat (N.of_nat (S k')) k').
    rewrite repeat_cons, app_assoc. apply List.last_last. }
  rewrite Hlast, Nat2N.id.
  replace (length data + k - k)%nat with (length data) by lia.
  rewrite drop_app_length, take_app_length.
  assert (Hall : forallb (N.eqb (N.of_nat k)) (repeat (N.of_nat k) k) = true).
  { apply List.forallb_forall. intros x Hx.
    apply repeat_spec in Hx. subst x. apply N.eqb_refl. }
  rewrite Hall.
  assert (Hc : ((1 <=? k) && (k <=? BLOCK) && (k <=? length data + k))%nat
               = true).
  { rewrite !andb_true_iff, !Nat.leb_le. lia. }
  rewrite Hc. reflexivity.
Qed.

(** What [pkcs7_unpad] returns is at least one byte shorter. *)
Lemma pkcs7_unpad_length (plain data : list N) :
  pkcs7_unpad plain = Some data -> (length data < length plain)%nat.
Proof.
  unfold pkcs7_unpad. intros H.
  destruct (_ && _) eqn:Hc in H; [|discriminate].
  injection H as <-.
  rewrite !andb_true_iff, !Nat.leb_le in Hc.
  rewrite length_firstn. lia.
Qed.

(* ================================================================== *)
(** * Cipher objects *)
(* ================================================================== *)

Lemma createCipheriv_ok (key iv : list N) :
  length key = KEY_LENGTH -> length iv = IV_LENGTH ->
  createCipheriv key iv = Ok (CipherCtx key iv).
Proof.
  intros Hk Hi. unfold createCipheriv.
  rewrite Hk, Hi, !Nat.eqb_refl. reflexivity.
Qed.

Lemma createCipheriv_iv (key iv : list N) (c : cipher_ctx) :
  createCipheriv key iv = Ok c ->
  c = CipherCtx key iv /\ length key = KEY_LENGTH /\ length iv = IV_LENGTH.
Proof.
  unfold createCipheriv.
  destruct (length key =? KEY_LENGTH)%nat eqn:Hk; [|discriminate].
  destruct (length iv =? IV_LENGTH)%nat eqn:Hi; [|discriminate].
  simpl. intros [= <-].
  apply Nat.eqb_eq in Hk, Hi. auto.
Qed.

Lemma cipher_run_shape (key iv data : list N) :
  is_key key -> state_of 4 iv -> is_buffer data ->
  is_buffer (cipher_run (CipherCtx key iv) data) /\
  (length (cipher_run (CipherCtx key iv) data) mod BLOCK = 0)%nat /\
  (length (cipher_run (CipherCtx key iv) data) <> 0)%nat.
Proof.
  intros Hk Hiv Hd. unfold cipher_run. simpl.
  destruct (pkcs7_pad_blocks data) as [Hm Hn].
  pose proof (pkcs7_pad_buffer data Hd) as Hb.
  split; [|split].
  - apply cbc_encrypt_buffer; try assumption.
    intros b. apply AESFacts.encrypt_block_state, Hk.
  - rewrite cbc_encrypt_length; try assumption.
    intros b. apply AESFacts.encrypt_block_state, Hk.
  - rewrite cbc_encrypt_length; try assumption.
    intros b. apply AESFacts.encrypt_block_state, Hk.
Qed.

(** Deciphering what the cipher produced, under the same key and IV,
    returns the data. *)
Lemma decipher_cipher_run (key iv data : list N) :
  is_key key -> state_of 4 iv -> is_buffer data ->
  decipher_run (CipherCtx key iv) (cipher_run (CipherCtx key iv) data)
  = Ok data.
Proof.
  intros Hk Hiv Hd.
  destruct (cipher_run_shape key iv data Hk Hiv Hd) as (Hb & Hm & Hn).
  unfold decipher_run.
  apply Nat.eqb_neq in Hn. rewrite Hn.
  apply Nat.eqb_eq in Hm. rewrite Hm. simpl.
  unfold cipher_run. simpl.
  rewrite (cbc_decrypt_encrypt _ _
             (fun b => AESFacts.decrypt_encrypt_block key b Hk)
             (fun b => AESFacts.encrypt_block_state key b Hk)).
  - rewrite pkcs7_unpad_pad. reflexivity.
  - exact Hiv.
  - apply pkcs7_pad_buffer, Hd.
  - apply pkcs7_pad_blocks.
Qed.


(* ================================================================== *)
(** * The hex codec *)
(* ================================================================== *)

Lemma hex_value_digit (d : N) : d < 16 -> hex_value (hex_digit d) = Some d.
Proof.
  intros Hd.
  assert (H : forallb (fun d => match hex_value (hex_digit d) with
                                | Some x => x =? d
                                | None => false
                                end)
                (map N.of_nat (seq 0 16)) = true) by (vm_compute; reflexivity).
  rewrite List.forallb_forall in H.
  specialize (H d). 
  destruct (hex_value (hex_digit d)) as [x|].
  - f_equal. apply N.eqb_eq, H. apply in_map_iff. exists (N.to_nat d).
    split; [apply N2Nat.id|apply in_seq; lia].
  - discriminate H. apply in_map_iff. exists (N.to_nat d).
    split; [apply N2Nat.id|apply in_seq; lia].
Qed.

Lemma hex_digit_not_colon (d : N) : d < 16 -> hex_digit d <> COLON.
Proof.
  intros Hd. unfold hex_digit, COLON.
  destruct (d <? 10) eqn:E; [apply N.ltb_lt in E|apply N.ltb_ge in E]; lia.
Qed.

Lemma hex_decode_encode (bytes : list N) :
  is_buffer bytes -> hex_decode (hex_encode bytes) = bytes.
Proof.
  unfold is_buffer, hex_encode.
  induction 1 as [|b bytes Hb Hbs IH]; [reflexivity|].
  cbn [flat_map hex_byte app hex_decode]. cbv beta in Hb.
  assert (H1 : b / 16 < 16) by (apply N.Div0.div_lt_upper_bound; lia).
  assert (H2 : b mod 16 < 16) by (apply N.mod_lt; lia).
  rewrite !hex_value_digit by assumption. rewrite IH. f_equal.
  pose proof (N.div_mod b 16). lia.
Qed.

Lemma hex_encode_no_colon (bytes : list N) :
  is_buffer bytes -> includes COLON (hex_encode bytes) = false.
Proof.
  unfold is_buffer, hex_encode, includes.
  induction 1 as [|b bytes Hb Hbs IH]; [reflexivity|].
  cbn [flat_map hex_byte app existsb]. rewrite IH. cbv beta in Hb.
  assert (H1 : hex_digit (b / 16) <> COLON).
  { apply hex_digit_not_colon, N.Div0.div_lt_upper_bound. lia. }
  assert (H2 : hex_digit (b mod 16) <> COLON).
  { apply hex_digit_not_colon, N.mod_lt. lia. }
  apply not_eq_sym, N.eqb_neq in H1, H2. rewrite H1, H2. reflexivity.
Qed.

Lemma hex_encode_length (bytes : list N) :
  length (hex_encode bytes) = (2 * length bytes)%nat.
Proof.
  unfold hex_encode. induction bytes as [|b bytes IH]; [reflexivity|].
  cbn [flat_map hex_byte app length]. rewrite IH. lia.
Qed.

Lemma hex_decode_length (s : list N) :
  (2 * length (hex_decode s) <= length s)%nat.
Proof.
  remember (length s) as n eqn:Hn. revert s Hn.
  induction n as [n IH] using lt_wf_ind. intros s ->.
  destruct s as [|h [|l t]]; simpl; try lia.
  destruct (hex_value h), (hex_value l); simpl; try lia.
  specialize (IH (length t) ltac:(simpl; lia) t eq_refl). lia.
Qed.

(* ================================================================== *)
(** * [split] and [join] *)
(* ================================================================== *)

Lemma split_nonempty (c : N) (s : list N) : split c s <> [].
Proof.
  induction s as [|x s IH]; simpl; [discriminate|].
  destruct (x =? c); [discriminate|].
  destruct (split c s); [contradiction|discriminate].
Qed.

Lemma split_without (c : N) (s : list N) :
  includes c s = false -> split c s = [s].
Proof.
  unfold includes. induction s as [|x s IH]; simpl; [reflexivity|].
  intros H. apply orb_false_iff in H as [Hx Hs].
  rewrite N.eqb_sym, Hx, IH by exact Hs. reflexivity.
Qed.

Lemma split_at_first (c : N) (a b : list N) :
  includes c a = false -> split c (a ++ c :: b) = a :: split c b.
Proof.
  unfold includes. induction a as [|x a IH]; simpl.
  - intros _. rewrite N.eqb_refl. reflexivity.
  - intros H. apply orb_false_iff in H as [Hx Ha].
    rewrite N.eqb_sym, Hx, IH by exact Ha. reflexivity.
Qed.

Lemma join_split (c : N) (s : list N) : join c (split c s) = s.
Proof.
  induction s as [|x s IH]; [reflexivity|].
  cbn [split]. pose proof (split_nonempty c s) as Hne.
  destruct (x =? c) eqn:E.
  - apply N.eqb_eq in E. subst x.
    destruct (split c s) as [|p ps]; [contradiction|].
    cbn [join app] in *. rewrite IH. reflexivity.
  - destruct (split c s) as [|p ps]; [contradiction|].
    destruct ps as [|q ps]; cbn [join app] in *; rewrite <- IH; reflexivity.
Qed.

Lemma includes_app_sep (c : N) (a b : list N) :
  includes c (a ++ c :: b) = true.
Proof.
  unfold includes. rewrite existsb_app. simpl.
  rewrite N.eqb_refl, orb_true_r. reflexivity.
Qed.

(* ================================================================== *)
(** * The UTF-8 codec *)
(* ================================================================== *)

(** Decides the comparisons of the goal by linear arithmetic. *)
Ltac decide_tests :=
  repeat match goal with
  | |- context [?a <=? ?b] =>
      first [ replace (a <=? b) with true by (symmetry; apply N.leb_le; lia)
            | replace (a <=? b) with false by (symmetry; apply N.leb_gt; lia) ]
  | |- context [?a <? ?b] =>
      first [ replace (a <? b) with true by (symmetry; apply N.ltb_lt; lia)
            | replace (a <? b) with false by (symmetry; apply N.ltb_ge; lia) ]
  | |- context [?a =? ?b] =>
      first [ replace (a =? b) with true by (symmetry; apply N.eqb_eq; lia)
            | replace (a =? b) with false by (symmetry; apply N.eqb_neq; lia) ]
  end.

Lemma land_low (k hi r : N) :
  r < 2 ^ k -> N.land (hi * 2 ^ k + r) (N.ones k) = r.
Proof.
  intros Hr. rewrite N.land_ones, N.add_comm, N.Div0.mod_add.
  apply N.mod_small, Hr.
Qed.

Lemma lor_shiftl_low (x y : N) :
  y < 64 -> N.lor (N.shiftl x 6) y = x * 64 + y.
Proof.
  intros Hy. rewrite N.shiftl_mul_pow2. change (2 ^ 6) with 64.
  assert (H : N.land (x * 64) y = 0).
  { apply N.bits_inj. intros n. rewrite N.land_spec, N.bits_0.
    destruct (N.lt_ge_cases n 6) as [Hn|Hn].
    - change 64 with (2 ^ 6). rewrite N.mul_pow2_bits_low by exact Hn.
      reflexivity.
    - destruct (N.eq_dec y 0) as [->|Hy0];
        [rewrite N.bits_0; apply andb_false_r|].
      rewrite (N.bits_above_log2 y n); [apply andb_false_r|].
      apply N.lt_le_trans with 6; [|exact Hn].
      apply N.log2_lt_pow2; [lia|exact Hy]. }
  rewrite <- N.lxor_lor by exact H.
  symmetry. apply N.add_nocarry_lxor, H.
Qed.

Lemma cont_byte (r : N) : r < 64 -> N.land (0x80 + r) 0x3F = r.
Proof. intros H. apply (land_low 6 2 r H). Qed.

Lemma lead_byte_2 (q : N) : q < 32 -> N.land (0xC0 + q) 0x1F = q.
Proof. intros H. apply (land_low 5 6 q H). Qed.

Lemma lead_byte_3 (q : N) : q < 16 -> N.land (0xE0 + q) 0xF = q.
Proof. intros H. apply (land_low 4 14 q H). Qed.

Lemma lead_byte_4 (q : N) : q < 8 -> N.land (0xF0 + q) 0x7 = q.
Proof. intros H. apply (land_low 3 30 q H). Qed.

Ltac run_decoder :=
  repeat (progress (cbn [d_run d_init d_needed d_lower d_upper d_seen d_cp
                          andb app];
                    unfold d_step, d_start; decide_tests)).

(** One, two, three and four byte sequences are decoded to the code point
    they hold, and leave the decoder in its initial state. *)
Lemma d_run_1 (c : N) (rest : list N) :
  c < 0x80 -> d_run d_init (c :: rest) = c :: d_run d_init rest.
Proof.
  intros H. run_decoder. reflexivity.
Qed.

Lemma d_run_2 (q r : N) (rest : list N) :
  2 <= q < 32 -> r < 64 ->
  d_run d_init (0xC0 + q :: 0x80 + r :: rest) =
  (q * 64 + r) :: d_run d_init rest.
Proof.
  intros Hq Hr. run_decoder.
  rewrite cont_byte by exact Hr.
  rewrite lead_byte_2 by lia.
  rewrite lor_shiftl_low by exact Hr. reflexivity.
Qed.

Lemma d_run_3 (q1 q2 r : N) (rest : list N) :
  q1 < 16 -> q2 < 64 -> r < 64 ->
  (q1 = 0 -> 32 <= q2) -> (q1 = 13 -> q2 < 32) ->
  d_run d_init (0xE0 + q1 :: 0x80 + q2 :: 0x80 + r :: rest) =
  ((q1 * 64 + q2) * 64 + r) :: d_run d_init rest.
Proof.
  intros H1 H2 Hr Hlo Hhi.
  destruct (N.eq_dec q1 0) as [E0|E0]; destruct (N.eq_dec q1 13) as [E13|E13];
    try lia; run_decoder;
    rewrite !cont_byte by assumption;
    rewrite lead_byte_3 by lia;
    rewrite !lor_shiftl_low by assumption; reflexivity.
Qed.

Lemma d_run_4 (q0 q1 q2 r : N) (rest : list N) :
  q0 <= 4 -> q1 < 64 -> q2 < 64 -> r < 64 ->
  (q0 = 0 -> 16 <= q1) -> (q0 = 4 -> q1 < 16) ->
  d_run d_init (0xF0 + q0 :: 0x80 + q1 :: 0x80 + q2 :: 0x80 + r :: rest) =
  (((q0 * 64 + q1) * 64 + q2) * 64 + r) :: d_run d_init rest.
Proof.
  intros H0 H1 H2 Hr Hlo Hhi.
  destruct (N.eq_dec q0 0) as [E0|E0]; destruct (N.eq_dec q0 4) as [E4|E4];
    try lia; run_decoder;
    rewrite !cont_byte by assumption;
    rewrite lead_byte_4 by lia;
    rewrite !lor_shiftl_low by assumption; reflexivity.
Qed.

Lemma d_run_utf8_bytes (cp : N) (rest : list N) :
  scalar cp ->
  d_run d_init (utf8_bytes cp ++ rest) = cp :: d_run d_init rest.
Proof.
  intros [Hmax Hsur]. unfold utf8_bytes.
  pose proof (N.div_mod cp 64 ltac:(lia)) as E1.
  pose proof (N.mod_lt cp 64 ltac:(lia)) as B1.
  pose proof (N.div_mod (cp / 64) 64 ltac:(lia)) as E2.
  pose proof (N.mod_lt (cp / 64) 64 ltac:(lia)) as B2.
  pose proof (N.div_mod (cp / 4096) 64 ltac:(lia)) as E3.
  pose proof (N.mod_lt (cp / 4096) 64 ltac:(lia)) as B3.
  rewrite N.Div0.div_div in E2. change (64 * 64) with 4096 in E2.
  rewrite N.Div0.div_div in E3. change (4096 * 64) with 262144 in E3.
  set (r := cp mod 64) in *. set (r2 := (cp / 64) mod 64) in *.
  set (r3 := (cp / 4096) mod 64) in *.
  set (a := cp / 64) in *. set (b := cp / 4096) in *.
  set (c := cp / 262144) in *. clearbody r r2 r3 a b c.
  destruct (cp <? 0x80) eqn:C1; [apply N.ltb_lt in C1|apply N.ltb_ge in C1].
  { apply d_run_1, C1. }
  destruct (cp <? 0x800) eqn:C2; [apply N.ltb_lt in C2|apply N.ltb_ge in C2].
  { cbn [app]. rewrite d_run_2 by lia. f_equal. lia. }
  destruct (cp <? 0x10000) eqn:C3;
    [apply N.ltb_lt in C3|apply N.ltb_ge in C3].
  { cbn [app]. rewrite d_run_3 by lia. f_equal. lia. }
  cbn [app]. rewrite d_run_4 by lia. f_equal. lia.
Qed.

Lemma is_high_spec (u : N) : is_high u = true <-> 0xD800 <= u <= 0xDBFF.
Proof. unfold is_high. rewrite andb_true_iff, !N.leb_le. tauto. Qed.

Lemma is_low_spec (u : N) : is_low u = true <-> 0xDC00 <= u <= 0xDFFF.
Proof. unfold is_low. rewrite andb_true_iff, !N.leb_le. tauto. Qed.

Lemma utf16_units_pair (u v : N) :
  0xD800 <= u <= 0xDBFF -> 0xDC00 <= v <= 0xDFFF ->
  utf16_units (0x10000 + (u - 0xD800) * 0x400 + (v - 0xDC00)) = [u; v].
Proof.
  intros Hu Hv. unfold utf16_units.
  replace (_ <? 0x10000) with false by (symmetry; apply N.ltb_ge; lia).
  replace (0x10000 + (u - 0xD800) * 0x400 + (v - 0xDC00) - 0x10000)
    with ((v - 0xDC00) + (u - 0xD800) * 0x400) by lia.
  rewrite N.div_add by lia. rewrite N.Div0.mod_add.
  rewrite N.div_small, N.mod_small by lia.
  f_equal; [|f_equal]; lia.
Qed.

Lemma utf8_decode_encode_cons (cp : N) (s : list N) :
  scalar cp ->
  flat_map utf16_units
    (d_run d_init (utf8_bytes cp ++ flat_map utf8_bytes (code_points s))) =
  utf16_units cp ++ utf8_decode (utf8_encode s).
Proof.
  intros H. rewrite d_run_utf8_bytes by exact H. reflexivity.
Qed.

(** Decoding the UTF-8 encoding of a well-formed string gives it back. *)
Lemma utf8_decode_encode (s : list N) :
  well_formed s = true -> utf8_decode (utf8_encode s) = s.
Proof.
  remember (length s) as n eqn:Hn. revert s Hn.
  induction n as [n IH] using lt_wf_ind. intros s -> Hwf.
  destruct s as [|u t]; [reflexivity|].
  cbn [well_formed] in Hwf. unfold utf8_encode, utf8_decode in *.
  cbn [code_points].
  destruct (is_high u) eqn:Hh.
  - destruct t as [|v t']; [discriminate|].
    apply andb_true_iff in Hwf as [Hl Hwf']. rewrite Hl.
    apply is_high_spec in Hh. apply is_low_spec in Hl.
    cbn [flat_map]. rewrite utf8_decode_encode_cons by (split; lia).
    rewrite utf16_units_pair by assumption.
    unfold utf8_encode, utf8_decode.
    rewrite (IH (length t')) by (simpl; lia || reflexivity || assumption).
    reflexivity.
  - apply andb_true_iff in Hwf as [Hwf Hwf'].
    apply andb_true_iff in Hwf as [Hl Hu].
    apply negb_true_iff in Hl. rewrite Hl. apply N.ltb_lt in Hu.
    assert (Hnh : ~ 0xD800 <= u <= 0xDBFF).
    { rewrite <- is_high_spec, Hh. discriminate. }
    assert (Hnl : ~ 0xDC00 <= u <= 0xDFFF).
    { rewrite <- is_low_spec, Hl. discriminate. }
    cbn [flat_map]. rewrite utf8_decode_encode_cons by (split; lia).
    unfold utf16_units.
    replace (u <? 0x10000) with true by (symmetry; apply N.ltb_lt; lia).
    unfold utf8_encode, utf8_decode.
    rewrite (IH (length t)) by (simpl; lia || reflexivity || assumption).
    reflexivity.
Qed.

Lemma utf8_bytes_buffer (cp : N) : cp < 0x110000 -> is_buffer (utf8_bytes cp).
Proof.
  intros Hmax. unfold utf8_bytes, is_buffer.
  pose proof (N.div_mod cp 64 ltac:(lia)) as E1.
  pose proof (N.mod_lt cp 64 ltac:(lia)) as B1.
  pose proof (N.div_mod (cp / 64) 64 ltac:(lia)) as E2.
  pose proof (N.mod_lt (cp / 64) 64 ltac:(lia)) as B2.
  pose proof (N.div_mod (cp / 4096) 64 ltac:(lia)) as E3.
  pose proof (N.mod_lt (cp / 4096) 64 ltac:(lia)) as B3.
  rewrite N.Div0.div_div in E2. change (64 * 64) with 4096 in E2.
  rewrite N.Div0.div_div in E3. change (4096 * 64) with 262144 in E3.
  set (r := cp mod 64) in *. set (r2 := (cp / 64) mod 64) in *.
  set (r3 := (cp / 4096) mod 64) in *.
  set (a := cp / 64) in *. set (b := cp / 4096) in *.
  set (c := cp / 262144) in *. clearbody r r2 r3 a b c.
  destruct (cp <? 0x80) eqn:C1; [apply N.ltb_lt in C1|apply N.ltb_ge in C1].
  { repeat constructor. lia. }
  destruct (cp <? 0x800) eqn:C2; [apply N.ltb_lt in C2|apply N.ltb_ge in C2].
  { repeat constructor; lia. }
  destruct (cp <? 0x10000) eqn:C3;
    [apply N.ltb_lt in C3|apply N.ltb_ge in C3];
    repeat constructor; lia.
Qed.

Lemma code_points_bound (s : list N) :
  Forall (fun u => u < 0x10000) s ->
  Forall (fun cp => cp < 0x110000) (code_points s).
Proof.
  remember (length s) as n eqn:Hn. revert s Hn.
  induction n as [n IH] using lt_wf_ind. intros s -> Hs.
  destruct s as [|u t]; [constructor|].
  apply Forall_cons in Hs as [Hu Ht]. cbn [code_points].
  destruct (is_high u) eqn:Hh.
  - destruct t as [|v t']; [repeat constructor; lia|].
    apply Forall_cons in Ht as [Hv Ht'].
    destruct (is_low v) eqn:Hl.
    + apply is_high_spec in Hh. apply is_low_spec in Hl.
      constructor; [lia|].
      apply (IH (length t')); [simpl; lia|reflexivity|exact Ht'].
    + constructor; [lia|].
      apply (IH (length (v :: t'))); [simpl; lia|reflexivity|].
      constructor; assumption.
  - destruct (is_low u); (constructor; [lia|]);
      apply (IH (length t)); simpl; try lia; try reflexivity; exact Ht.
Qed.

(** The encoder always produces bytes. *)
Lemma utf8_encode_buffer (s : list N) :
  Forall (fun u => u < 0x10000) s -> is_buffer (utf8_encode s).
Proof.
  intros Hs. unfold utf8_encode.
  pose proof (code_points_bound s Hs) as H.
  induction H as [|cp cps Hcp Hcps IH]; [constructor|].
  cbn [flat_map]. apply is_buffer_app; [apply utf8_bytes_buffer, Hcp|exact IH].
Qed.

Lemma well_formed_units (s : list N) :
  well_formed s = true -> Forall (fun u => u < 0x10000) s.
Proof.
  remember (length s) as n eqn:Hn. revert s Hn.
  induction n as [n IH] using lt_wf_ind. intros s -> Hwf.
  destruct s as [|u t]; [constructor|].
  cbn [well_formed] in Hwf.
  destruct (is_high u) eqn:Hh.
  - destruct t as [|v t']; [discriminate|].
    apply andb_true_iff in Hwf as [Hl Hwf'].
    apply is_high_spec in Hh. apply is_low_spec in Hl.
    constructor; [lia|]. constructor; [lia|].
    apply (IH (length t')); [simpl; lia|reflexivity|exact Hwf'].
  - apply andb_true_iff in Hwf as [Hwf Hwf'].
    apply andb_true_iff in Hwf as [Hl Hu]. apply N.ltb_lt in Hu.
    constructor; [exact Hu|].
    apply (IH (length t)); [simpl; lia|reflexivity|exact Hwf'].
Qed.


(* ================================================================== *)
(** * [encrypt] and [decrypt] *)
(* ================================================================== *)

Section CodecFacts.

Variable NumberToString : float -> list N.
Variable key : list N.

Lemma encrypt_string (iv x : list N) :
  length key = KEY_LENGTH -> length iv = IV_LENGTH ->
  encrypt NumberToString key iv (VStr x) =
  Ok (VStr (hex_encode iv ++ COLON :: hex_encode (cipher_bytes key iv x))).
Proof.
  intros Hk Hi. unfold encrypt.
  rewrite (createCipheriv_ok key iv Hk Hi). reflexivity.
Qed.

Lemma decrypt_total (v : value) : exists r, decrypt key v = Ok r.
Proof.
  destruct v as [| | | |s| |]; simpl; eauto.
  destruct (includes COLON s); simpl; eauto.
  destruct (decrypt_try key s); simpl; eauto.
Qed.

(** On a string, [decrypt] returns a string. *)
Lemma decrypt_string (s : list N) :
  exists p, decrypt key (VStr s) = Ok (VStr p).
Proof.
  simpl. destruct (includes COLON s); simpl; eauto.
  unfold decrypt_try.
  destruct (createDecipheriv key _) as [c|e]; simpl; eauto.
  destruct (decipher_update_final c _) as [plain|e]; simpl; eauto.
Qed.

Lemma decrypt_try_eq (s : list N) :
  decrypt_try key s =
  (decipher ← createDecipheriv key (iv_part s);
   decrypted ← decipher_update_final decipher (data_text s);
   Ok (VStr (utf8_decode decrypted))).
Proof. reflexivity. Qed.

Lemma odd_double (n : nat) : Nat.odd (2 * n) = false.
Proof.
  rewrite <- Nat.negb_even, Nat.even_mul. reflexivity.
Qed.

Lemma decipher_update_final_even (c : cipher_ctx) (data : list N) :
  Nat.odd (length data) = false ->
  decipher_update_final c data = decipher_run c (hex_decode data).
Proof. intros H. unfold decipher_update_final. rewrite H. reflexivity. Qed.

Lemma parts_of_ciphertext (iv c : list N) :
  is_buffer iv -> is_buffer c ->
  iv_part (hex_encode iv ++ COLON :: hex_encode c) = iv /\
  data_text (hex_encode iv ++ COLON :: hex_encode c) = hex_encode c /\
  data_part (hex_encode iv ++ COLON :: hex_encode c) = c.
Proof.
  intros Hiv Hc. unfold iv_part, data_part, data_text.
  rewrite split_at_first by apply hex_encode_no_colon, Hiv.
  cbn [hd tl]. rewrite join_split.
  split; [|split]; try reflexivity; apply hex_decode_encode; assumption.
Qed.

Lemma decrypt_ciphertext (iv x : list N) :
  is_key key -> state_of 4 iv -> well_formed x = true ->
  decrypt key
    (VStr (hex_encode iv ++ COLON :: hex_encode (cipher_bytes key iv x)))
  = Ok (VStr x).
Proof.
  intros Hk Hiv Hx.
  pose proof (utf8_encode_buffer x (well_formed_units x Hx)) as Hb.
  destruct (cipher_run_shape key iv (utf8_encode x) Hk Hiv Hb) as (Hcb & _).
  unfold decrypt. rewrite includes_app_sep. cbn [negb].
  rewrite decrypt_try_eq.
  destruct (parts_of_ciphertext iv (cipher_bytes key iv x) (proj2 Hiv) Hcb)
    as (-> & -> & _).
  unfold createDecipheriv.
  rewrite createCipheriv_ok by (apply Hk || apply Hiv).
  cbn [mbind result_bind bind].
  rewrite decipher_update_final_even
    by (rewrite hex_encode_length; apply odd_double).
  rewrite hex_decode_encode by exact Hcb.
  unfold cipher_bytes.
  rewrite decipher_cipher_run by assumption.
  cbn [mbind result_bind bind try_catch]. rewrite utf8_decode_encode by exact Hx.
  reflexivity.
Qed.

End CodecFacts.

(** A list whose elements all pass the byte test is a buffer. *)
Lemma is_buffer_check (l : list N) :
  forallb (fun b => b <? 256) l = true -> is_buffer l.
Proof.
  intros H. apply List.Forall_forall. intros b Hb.
  rewrite List.forallb_forall in H. apply N.ltb_lt, H, Hb.
Qed.

Lemma key_unset_is_key : is_key key_unset.
Proof. split; [reflexivity|apply is_buffer_check; reflexivity]. Qed.

Lemma sample_iv_state : state_of 4 sample_iv.
Proof. split; [reflexivity|apply is_buffer_check; reflexivity]. Qed.

(** C1 (amended). Encryption round-trip: for every well-formed string [x]
    (one whose surrogate code units are all paired), every 32-byte key and
    every 16-byte initialization vector drawn by [encrypt], decrypting the
    result of encrypting [x] returns [x] exactly. *)
Theorem decrypt_encrypt_roundtrip
  (NumberToString : float -> list N) (key iv x : list N) :
  is_key key -> state_of 4 iv -> well_formed x = true ->
  encrypt NumberToString key iv (VStr x) ≫= decrypt key = Ok (VStr x).
Proof.
  intros Hk Hiv Hx.
  rewrite encrypt_string by (apply Hk || apply Hiv).
  cbn [mbind result_bind bind].
  apply decrypt_ciphertext; assumption.
Qed.

Lemma decrypt_encrypt_roundtrip_witness :
  encrypt no_NumberToString key_unset sample_iv (VStr (js "alice"))
    ≫= decrypt key_unset
  = Ok (VStr (js "alice")).
Proof.
  apply (decrypt_encrypt_roundtrip no_NumberToString key_unset sample_iv
           (js "alice")).
  - exact key_unset_is_key.
  - exact sample_iv_state.
  - reflexivity.
Defined.

(** C1 as stated fails: the string made of the single unpaired surrogate
    U+D800 is encoded as the bytes of U+FFFD, so it comes back as U+FFFD. *)
Lemma roundtrip_fails_on_unpaired_surrogate :
  encrypt no_NumberToString key_unset sample_iv (VStr [0xD800])
    ≫= decrypt key_unset
  = Ok (VStr [0xFFFD])
  /\ Ok (VStr [0xFFFD]) <> Ok (VStr [0xD800]).
Proof.
  split; [vm_compute; reflexivity|discriminate].
Qed.

(** When the cipher layer rejects the data. *)
Lemma decipher_run_throws (c : cipher_ctx) (data : list N) :
  length data = 0%nat \/ (length data mod BLOCK)%nat <> 0%nat \/
  pkcs7_unpad
    (cbc_decrypt (AES.decrypt_block (ctx_key c)) (ctx_iv c) data) = None ->
  exists e, decipher_run c data = Throw e.
Proof.
  intros H. unfold decipher_run.
  destruct (length data =? 0)%nat eqn:E0; [simpl; eauto|].
  destruct (length data mod BLOCK =? 0)%nat eqn:Em; [|simpl; eauto].
  apply Nat.eqb_neq in E0. apply Nat.eqb_eq in Em.
  destruct H as [H|[H|H]]; try contradiction.
  simpl. rewrite H. eauto.
Qed.

Lemma decipher_run_ok (c : cipher_ctx) (data plain : list N) :
  length data <> 0%nat -> (length data mod BLOCK)%nat = 0%nat ->
  pkcs7_unpad
    (cbc_decrypt (AES.decrypt_block (ctx_key c)) (ctx_iv c) data)
  = Some plain ->
  decipher_run c data = Ok plain.
Proof.
  intros H0 Hm Hp. unfold decipher_run.
  apply Nat.eqb_neq in H0. apply Nat.eqb_eq in Hm.
  rewrite H0, Hm, Hp. reflexivity.
Qed.

(** C2 (amended). Fail-open decrypt: [decrypt] never raises. It returns
    its input unchanged when the input is not a string, is a string with no
    colon, is a string whose part before the first colon does not
    hex-decode to a 16-byte IV, is a string whose text after the first
    colon has an odd number of characters, or is a string whose data the
    cipher rejects: the hex-decoded rest is empty or not a whole number of
    blocks, or the padding of the decrypted data is malformed; and also
    when the key is not 32 bytes long. In every other case it returns the
    decoded plaintext; in particular a ciphertext made with a different key
    is returned unchanged only when its padding check fails under the
    current key. *)
Theorem decrypt_fail_open (key : list N) (v : value) :
  (exists r, decrypt key v = Ok r) /\
  (is_string v = false -> decrypt key v = Ok v) /\
  (forall s, v = VStr s -> includes COLON s = false ->
     decrypt key v = Ok v) /\
  (forall s, v = VStr s -> length key <> KEY_LENGTH ->
     decrypt key v = Ok v) /\
  (forall s, v = VStr s -> length (iv_part s) <> IV_LENGTH ->
     decrypt key v = Ok v) /\
  (forall s, v = VStr s -> Nat.odd (length (data_text s)) = true ->
     decrypt key v = Ok v) /\
  (forall s, v = VStr s ->
     length (data_part s) = 0%nat \/
     (length (data_part s) mod BLOCK)%nat <> 0%nat \/
     pkcs7_unpad
       (cbc_decrypt (AES.decrypt_block key) (iv_part s) (data_part s))
     = None ->
     decrypt key v = Ok v) /\
  (forall s plain, v = VStr s -> includes COLON s = true ->
     length key = KEY_LENGTH -> length (iv_part s) = IV_LENGTH ->
     Nat.odd (length (data_text s)) = false ->
     length (data_part s) <> 0%nat ->
     (length (data_part s) mod BLOCK)%nat = 0%nat ->
     pkcs7_unpad
       (cbc_decrypt (AES.decrypt_block key) (iv_part s) (data_part s))
     = Some plain ->
     decrypt key v = Ok (VStr (utf8_decode plain))).
Proof.
  split; [apply decrypt_total|].
  split; [destruct v; simpl; intros; congruence|].
  split; [intros s -> Hc; simpl; rewrite Hc; reflexivity|].
  split; [|split; [|split; [|split]]].
  - intros s -> Hk. simpl. destruct (includes COLON s); [|reflexivity].
    cbn [negb]. rewrite decrypt_try_eq.
    unfold createDecipheriv, createCipheriv.
    apply Nat.eqb_neq in Hk. rewrite Hk. reflexivity.
  - intros s -> Hiv. simpl. destruct (includes COLON s); [|reflexivity].
    cbn [negb]. rewrite decrypt_try_eq.
    unfold createDecipheriv, createCipheriv.
    destruct (length key =? KEY_LENGTH)%nat; [|reflexivity].
    apply Nat.eqb_neq in Hiv. rewrite Hiv. reflexivity.
  - intros s -> Ho. simpl. destruct (includes COLON s); [|reflexivity].
    cbn [negb]. rewrite decrypt_try_eq.
    destruct (createDecipheriv key (iv_part s)) as [c|e]; [|reflexivity].
    cbn [mbind result_bind bind]. unfold decipher_update_final.
    rewrite Ho. reflexivity.
  - intros s -> Hd. simpl. destruct (includes COLON s); [|reflexivity].
    cbn [negb]. rewrite decrypt_try_eq.
    destruct (createDecipheriv key (iv_part s)) as [c|e] eqn:Ec;
      [|reflexivity].
    apply createCipheriv_iv in Ec as (-> & _ & _).
    cbn [mbind result_bind bind]. unfold decipher_update_final.
    destruct (Nat.odd (length (data_text s))); [reflexivity|].
    fold (data_part s).
    destruct (decipher_run_throws (CipherCtx key (iv_part s)) (data_part s) Hd)
      as [e He].
    rewrite He. reflexivity.
  - intros s plain -> Hc Hk Hiv Ho H0 Hm Hp. simpl. rewrite Hc.
    cbn [negb]. rewrite decrypt_try_eq.
    unfold createDecipheriv. rewrite createCipheriv_ok by assumption.
    cbn [mbind result_bind bind].
    rewrite decipher_update_final_even by exact Ho. fold (data_part s).
    rewrite (decipher_run_ok _ _ plain) by assumption.
    reflexivity.
Qed.

(** C2 as stated fails: the ciphertext of ['alice'] made under one key
    passes the padding check under another key, so [decrypt] returns
    fifteen garbled characters instead of its input. *)
Lemma wrong_key_ciphertext_is_changed :
  encrypt no_NumberToString key_unset sample_iv (VStr (js "alice"))
  = Ok (VStr sample_ciphertext)
  /\ decrypt key_abc (VStr sample_ciphertext)
     = Ok (VStr [19; 44; 117; 0xFFFD; 84; 0xFFFD; 0xFFFD; 3; 0xFFFD; 127;
                 57; 0xFFFD; 46; 44; 30])
  /\ decrypt key_abc (VStr sample_ciphertext)
     <> Ok (VStr sample_ciphertext).
Proof.
  assert (H : decrypt key_abc (VStr sample_ciphertext)
     = Ok (VStr [19; 44; 117; 0xFFFD; 84; 0xFFFD; 0xFFFD; 3; 0xFFFD; 127;
                 57; 0xFFFD; 46; 44; 30])) by (vm_compute; reflexivity).
  split; [vm_compute; reflexivity|].
  split; [exact H|]. rewrite H. discriminate.
Qed.

(** The decoder of the two parts: an initialization vector written with
    U+0131 for the digit 1 reads as the same bytes, and the ciphertext is
    decrypted; with one more hex digit after the data, [update] refuses
    the odd length and the input is returned. *)
Lemma decrypt_reads_low_bytes :
  decrypt key_unset (VStr (48 :: 0x131 :: skipn 2 sample_ciphertext))
  = Ok (VStr (js "alice")).
Proof. vm_compute. reflexivity. Qed.

Lemma decrypt_refuses_odd_data :
  decrypt key_unset (VStr (sample_ciphertext ++ [48]))
  = Ok (VStr (sample_ciphertext ++ [48])).
Proof. vm_compute. reflexivity. Qed.


(* ================================================================== *)
(** * Objects traversed by a function that may throw *)
(* ================================================================== *)

Lemma mapM_entries_ok {A B} (f : list N -> A -> result B)
  (g : list N -> A -> B) (l : list (list N * A)) :
  (forall k v, (k, v) ∈ l -> f k v = Ok (g k v)) ->
  mapM (fun kv => pair kv.1 <$> f kv.1 kv.2) l =
  Ok (map (fun kv => (kv.1, g kv.1 kv.2)) l).
Proof.
  induction l as [|[k v] l IH]; intros H; [reflexivity|].
  cbn [mapM map fst snd].
  rewrite (H k v) by apply list_elem_of_here.
  cbn [fmap result_fmap mbind result_bind bind].
  change (mapM (fun kv => pair kv.1 <$> f kv.1 kv.2) l ≫=
            (fun k0 => mret ((k, g k v) :: k0)) =
          Ok ((k, g k v) :: map (fun kv => (kv.1, g kv.1 kv.2)) l)).
  rewrite IH by (intros; apply H, list_elem_of_further; assumption).
  reflexivity.
Qed.

(** When [f] throws on no entry, [obj_mapM f m] is the object with the
    same keys whose values are the results. *)
Lemma obj_mapM_ok {A B} (f : list N -> A -> result B)
  (g : list N -> A -> B) (m : gmap (list N) A) :
  (forall k v, m !! k = Some v -> f k v = Ok (g k v)) ->
  exists m', obj_mapM f m = Ok m' /\ forall k, m' !! k = g k <$> m !! k.
Proof.
  intros H. unfold obj_mapM.
  rewrite (mapM_entries_ok f g).
  2:{ intros k v Hkv. apply H, elem_of_map_to_list, Hkv. }
  eexists. split; [reflexivity|]. intros k.
  apply option_eq. intros y.
  rewrite <- elem_of_list_to_map.
  2:{ rewrite <- list_fmap_compose.
      apply (NoDup_fst_map_to_list m). }
  rewrite list_elem_of_fmap. split.
  - intros ([k' v] & [= -> ->] & Hin).
    apply elem_of_map_to_list in Hin. rewrite Hin. reflexivity.
  - destruct (m !! k) as [v|] eqn:Hk; [|discriminate].
    intros [= <-]. exists (k, v). split; [reflexivity|].
    apply elem_of_map_to_list, Hk.
Qed.

(* ================================================================== *)
(** * [_decryptRow] *)
(* ================================================================== *)

Section DecryptRowFacts.

Variable Number : list N -> float.
Variable key : list N.

(** The value [_decryptRow] leaves in a property. *)
Definition decrypted_value (k : list N) (v : value) : value :=
  match decrypt_property Number key k v with
  | Ok r => r
  | Throw _ => v
  end.

Lemma decrypt_property_total (k : list N) (v : value) :
  decrypt_property Number key k v = Ok (decrypted_value k v).
Proof.
  unfold decrypted_value.
  destruct (decrypt_property Number key k v) as [r|e] eqn:E; [reflexivity|].
  exfalso. unfold decrypt_property in E.
  destruct (str_eqb k (js "_id")); [discriminate|].
  destruct v as [| | | |s| |]; try discriminate.
  destruct (includes COLON s); [|discriminate].
  destruct (decrypt_string key s) as [p Hp]. rewrite Hp in E.
  cbn [mbind result_bind bind] in E.
  destruct (_ && _) in E; discriminate.
Qed.

(** [_decryptRow] never throws; it keeps the keys of the row. *)
Lemma _decryptRow_ok (row : gmap (list N) value) :
  exists row', _decryptRow Number key row = Ok row' /\
    forall k, row' !! k = decrypted_value k <$> row !! k.
Proof.
  apply obj_mapM_ok. intros k v _. apply decrypt_property_total.
Qed.

(** The value left in a property whose string was changed by [decrypt]. *)
Lemma decrypted_value_changed (k s p : list N) :
  k <> js "_id" -> decrypt key (VStr s) = Ok (VStr p) -> p <> s ->
  decrypted_value k (VStr s) =
  if PrimFloat.is_nan (Number p) then VStr p else VNum (Number p).
Proof.
  intros Hk Hd Hne. unfold decrypted_value, decrypt_property, str_eqb.
  rewrite bool_decide_eq_false_2 by exact Hk.
  destruct (includes COLON s) eqn:Hc.
  - rewrite Hd. cbn [mbind result_bind bind].
    rewrite bool_decide_eq_false_2 by exact Hne.
    destruct (PrimFloat.is_nan (Number p)); reflexivity.
  - exfalso. simpl in Hd. rewrite Hc in Hd. simpl in Hd. congruence.
Qed.

Lemma decrypted_value_unchanged (k s : list N) :
  decrypt key (VStr s) = Ok (VStr s) -> decrypted_value k (VStr s) = VStr s.
Proof.
  intros Hd. unfold decrypted_value, decrypt_property, str_eqb.
  destruct (bool_decide (k = js "_id")); [reflexivity|].
  destruct (includes COLON s); [|reflexivity].
  rewrite Hd. cbn [mbind result_bind bind].
  rewrite bool_decide_eq_true_2 by reflexivity. reflexivity.
Qed.

Lemma decrypted_value_other (k : list N) (v : value) :
  is_string v = false -> decrypted_value k v = v.
Proof.
  intros Hv. unfold decrypted_value, decrypt_property.
  destruct (str_eqb k (js "_id")); [reflexivity|].
  destruct v; try reflexivity. discriminate.
Qed.

End DecryptRowFacts.

(** C9 (amended). Post-decrypt numeric coercion: [_decryptRow] never throws,
    and for every property of the row other than [_id] whose string value
    is changed by [decrypt], the returned row holds the number
    [Number(text)] when that is not NaN, and the decrypted text itself
    otherwise. [Number] reads a text that is empty or holds only white
    space as 0, so such a text comes back as the number 0; any other text
    comes back as a number exactly when, once trimmed, it is a numeric
    literal. *)
Theorem decryptRow_numeric_coercion
  (numeric_literal : list N -> float) (key : list N)
  (row : gmap (list N) value) :
  exists row',
    _decryptRow (StringToNumber numeric_literal) key row = Ok row' /\
    forall k s p,
      k <> js "_id" -> row !! k = Some (VStr s) ->
      decrypt key (VStr s) = Ok (VStr p) -> p <> s ->
      row' !! k =
      Some (match trim p with
            | [] => VNum PrimFloat.zero
            | c :: t =>
                if PrimFloat.is_nan (numeric_literal (c :: t)) then VStr p
                else VNum (numeric_literal (c :: t))
            end).
Proof.
  destruct (_decryptRow_ok (StringToNumber numeric_literal) key row)
    as (row' & Hrow & Hlook).
  exists row'. split; [exact Hrow|].
  intros k s p Hk Hs Hd Hne.
  rewrite Hlook, Hs. cbn [fmap option_fmap option_map].
  f_equal. rewrite (decrypted_value_changed _ _ k s p Hk Hd Hne).
  unfold StringToNumber. destruct (trim p); reflexivity.
Qed.

(** C9 as stated fails: the empty text does not parse as a number, yet a
    field that holds the ciphertext of the empty string comes back as the
    number 0, not as the empty string. *)
Lemma empty_text_is_read_as_zero :
  exists c,
    encrypt no_NumberToString key_unset sample_iv (VStr []) = Ok (VStr c) /\
    decrypt key_unset (VStr c) = Ok (VStr []) /\
    _decryptRow (StringToNumber (fun _ => PrimFloat.nan)) key_unset
      {[ js "note" := VStr c ]}
    = Ok {[ js "note" := VNum PrimFloat.zero ]} /\
    VNum PrimFloat.zero <> VStr [].
Proof.
  eexists. split; [vm_compute; reflexivity|].
  split; [vm_compute; reflexivity|].
  split; [vm_compute; reflexivity|discriminate].
Qed.


(* ================================================================== *)
(** * Traversals that may throw, continued *)
(* ================================================================== *)

(** The result of a call that did not throw. *)
Definition unwrap {A} (d : A) (r : result A) : A :=
  match r with Ok a => a | Throw _ => d end.

Definition is_ok {A} (r : result A) : Prop := exists a, r = Ok a.

Lemma mapM_ok_inv {A B} (f : A -> result B) (l : list A) (k : list B) :
  mapM f l = Ok k -> Forall (fun x => is_ok (f x)) l.
Proof.
  revert k. induction l as [|x l IH]; intros k H; [constructor|].
  cbn [mapM] in H.
  destruct (f x) as [y|e] eqn:Ef; [|discriminate].
  cbn [mbind result_bind bind] in H.
  change (mapM f l ≫= (fun k0 => mret (y :: k0)) = Ok k) in H.
  destruct (mapM f l) as [k'|e] eqn:El; [|discriminate].
  constructor; [exists y; exact Ef|eapply IH; reflexivity].
Qed.

Lemma mapM_ok_map {A B} (f : A -> result B) (g : A -> B) (l : list A) :
  Forall (fun x => f x = Ok (g x)) l -> mapM f l = Ok (map g l).
Proof.
  induction 1 as [|x l Hx Hl IH]; [reflexivity|].
  cbn [mapM map]. rewrite Hx. cbn [mbind result_bind bind].
  change (mapM f l ≫= (fun k0 => mret (g x :: k0)) = Ok (g x :: map g l)).
  rewrite IH. reflexivity.
Qed.

Lemma obj_mapM_eq {A B} (f : list N -> A -> result B)
  (g : list N -> A -> B) (m : gmap (list N) A) :
  (forall k v, m !! k = Some v -> f k v = Ok (g k v)) ->
  obj_mapM f m = Ok (map_imap (fun k v => Some (g k v)) m).
Proof.
  intros H. destruct (obj_mapM_ok f g m H) as (m' & -> & Hm').
  f_equal. apply map_eq. intros k.
  rewrite Hm', map_lookup_imap. destruct (m !! k); reflexivity.
Qed.

Lemma obj_mapM_inv {A B} (f : list N -> A -> result B)
  (m : gmap (list N) A) (m' : gmap (list N) B) :
  obj_mapM f m = Ok m' ->
  forall k v, m !! k = Some v -> is_ok (f k v).
Proof.
  unfold obj_mapM. intros H k v Hk.
  destruct (mapM _ (map_to_list m)) as [l|e] eqn:El; [|discriminate].
  apply mapM_ok_inv in El. rewrite List.Forall_forall in El.
  specialize (El (k, v)). cbn [fst snd] in El.
  destruct El as [a Ha].
  { apply list_elem_of_In, elem_of_map_to_list, Hk. }
  destruct (f k v) as [b|e]; [exists b; reflexivity|discriminate].
Qed.

(** [obj_omapM f m] succeeds exactly when [f] throws on no entry, and then
    holds what [f] returned. *)
Lemma obj_omapM_eq {A B} (f : list N -> A -> result (option B))
  (m : gmap (list N) A) :
  (forall k v, m !! k = Some v -> is_ok (f k v)) ->
  obj_omapM f m = Ok (map_imap (fun k v => unwrap None (f k v)) m).
Proof.
  intros H. unfold obj_omapM.
  rewrite (obj_mapM_eq f (fun k v => unwrap None (f k v))).
  2:{ intros k v Hk. destruct (H k v Hk) as [o ->]. reflexivity. }
  cbn [fmap result_fmap bind]. f_equal. apply map_eq. intros k.
  rewrite lookup_omap, !map_lookup_imap.
  destruct (m !! k); reflexivity.
Qed.

Lemma obj_omapM_inv {A B} (f : list N -> A -> result (option B))
  (m : gmap (list N) A) (m' : gmap (list N) B) :
  obj_omapM f m = Ok m' ->
  (forall k v, m !! k = Some v -> is_ok (f k v)) /\
  m' = map_imap (fun k v => unwrap None (f k v)) m.
Proof.
  intros H.
  assert (Hok : forall k v, m !! k = Some v -> is_ok (f k v)).
  { unfold obj_omapM in H.
    destruct (obj_mapM f m) as [m0|e] eqn:E; [|discriminate].
    eapply obj_mapM_inv, E. }
  split; [exact Hok|].
  rewrite (obj_omapM_eq f m Hok) in H. congruence.
Qed.

Lemma obj_omapM_empty {A B} (f : list N -> A -> result (option B)) :
  obj_omapM f (∅ : gmap (list N) A) = Ok ∅.
Proof.
  rewrite obj_omapM_eq by (intros k v Hk; rewrite lookup_empty in Hk;
                           discriminate).
  rewrite map_imap_empty. reflexivity.
Qed.

Lemma obj_omapM_singleton {A B} (f : list N -> A -> result (option B))
  (k : list N) (v : A) (o : option B) :
  f k v = Ok o ->
  obj_omapM f ({[ k := v ]} : gmap (list N) A) =
  Ok (match o with Some c => {[ k := c ]} | None => ∅ end).
Proof.
  intros Hf. rewrite obj_omapM_eq.
  2:{ intros k' v' Hk. apply lookup_singleton_Some in Hk as [<- <-].
      exists o. exact Hf. }
  f_equal. apply map_eq. intros k'.
  rewrite map_lookup_imap.
  destruct (decide (k = k')) as [<-|Hne].
  - rewrite lookup_singleton_eq. cbn [mbind option_bind]. rewrite Hf.
    destruct o; [rewrite lookup_singleton_eq|rewrite lookup_empty];
      reflexivity.
  - rewrite lookup_singleton_ne by exact Hne.
    destruct o; [rewrite lookup_singleton_ne by exact Hne
                |rewrite lookup_empty]; reflexivity.
Qed.


(* ================================================================== *)
(** * Compiling filters *)
(* ================================================================== *)

Lemma strict_eq_str_spec (v : value) (s : list N) :
  strict_eq_str v s = true <-> v = VStr s.
Proof.
  destruct v; simpl; try (split; [discriminate|intros [=]]).
  unfold str_eqb. rewrite bool_decide_eq_true. split; congruence.
Qed.

Lemma compile_filter_id (e : fentry) : compile_filter ID e = Ok None.
Proof. reflexivity. Qed.

Lemma stored_under_ne {A} (f : list N) (c : A) :
  f <> PROTO -> stored_under f c = Some c.
Proof.
  intros Hf. unfold stored_under.
  rewrite bool_decide_eq_false_2 by exact Hf. reflexivity.
Qed.

Lemma stored_under_fmap {A} (f : list N) (r : result A) :
  f <> PROTO -> stored_under f <$> r = Some <$> r.
Proof.
  intros Hf. destruct r; cbn; [|reflexivity].
  rewrite stored_under_ne by exact Hf. reflexivity.
Qed.

Lemma compile_filter_cond (f : list N) (operator v : value) :
  f <> ID -> f <> PROTO ->
  compile_filter f (Cond operator v) = Some <$> compile_condition operator v.
Proof.
  intros Hf Hp. unfold compile_filter, str_eqb.
  rewrite bool_decide_eq_false_2 by exact Hf.
  apply stored_under_fmap, Hp.
Qed.

(** Storing a filter under a field other than [__proto__] adds the key. *)
Lemma set_filter_ne (f : list N) (e : fentry) (q : builder) :
  f <> PROTO ->
  set_filter f e q = set_filters (<[f := e]> (filters q)) q.
Proof.
  intros Hf. unfold set_filter.
  rewrite bool_decide_eq_false_2 by exact Hf. reflexivity.
Qed.

(** Storing one under [__proto__] changes nothing while [this.filters] has
    a prototype. *)
Lemma set_filter_proto (e : fentry) (q : builder) :
  filtersDetached q = false -> set_filter PROTO e q = q.
Proof.
  intros Hq. unfold set_filter. rewrite Hq.
  rewrite bool_decide_eq_true_2 by reflexivity. reflexivity.
Qed.

Lemma plain_field_spec (f : list N) :
  plain_field f = true ->
  f <> ID /\ f <> PROTO /\ f <> OR_KEY /\ f <> [].
Proof.
  destruct f as [|c t]; [discriminate|]. cbn [plain_field].
  rewrite !andb_true_iff, !negb_true_iff. unfold str_eqb.
  rewrite !bool_decide_eq_false.
  intros [[[Hc _] Hid] Hp].
  split; [exact Hid|]. split; [exact Hp|]. split; [|discriminate].
  intros [= -> _]. discriminate.
Qed.

Lemma compile_between (a b : value) :
  compile_condition (VStr (js "between")) (VArr [a; b]) =
  Ok (MOps [(OpGte, a); (OpLte, b)]).
Proof. reflexivity. Qed.

Lemma compile_like (p : list N) :
  compile_condition (VStr (js "like")) (VStr p) =
  Ok (MRegex (like_pattern p) (js "i")).
Proof. reflexivity. Qed.

(** A builder without OR conditions compiles its filters only. *)
Lemma build_without_or (q : builder) :
  orConditions q = None ->
  _buildMongoQuery q = obj_omapM compile_filter (filters q).
Proof.
  intros H. unfold _buildMongoQuery. rewrite H.
  destruct (obj_omapM compile_filter (filters q)); reflexivity.
Qed.

(** The filter document of a fresh builder with one filter. *)
Lemma build_one_filter (name f : list N) (operator v : value) (c : mcond) :
  f <> ID -> f <> PROTO -> compile_condition operator v = Ok c ->
  _buildMongoQuery (set_filter f (Cond operator v) (table name)) =
  Ok {[ f := c ]}.
Proof.
  intros Hf Hp Hc. rewrite set_filter_ne by exact Hp.
  rewrite build_without_or by reflexivity.
  cbn [filters set_filters table new_builder].
  rewrite insert_empty.
  rewrite (obj_omapM_singleton compile_filter f _ (Some c)); [reflexivity|].
  rewrite compile_filter_cond by assumption. rewrite Hc. reflexivity.
Qed.

Lemma build_table (name : list N) : _buildMongoQuery (table name) = Ok ∅.
Proof. rewrite build_without_or by reflexivity. apply obj_omapM_empty. Qed.

Lemma build_one_filter_id (name : list N) (e : fentry) :
  _buildMongoQuery (set_filter ID e (table name)) = Ok ∅.
Proof.
  rewrite set_filter_ne by discriminate.
  rewrite build_without_or by reflexivity.
  cbn [filters set_filters table new_builder].
  rewrite insert_empty.
  rewrite (obj_omapM_singleton compile_filter ID _ None); reflexivity.
Qed.

Lemma build_one_filter_proto (name : list N) (e : fentry) :
  _buildMongoQuery (set_filter PROTO e (table name)) = Ok ∅.
Proof. rewrite set_filter_proto by reflexivity. apply build_table. Qed.

(* ================================================================== *)
(** * Matching *)
(* ================================================================== *)

Section MatchingFacts.

Variable regex_test : list N -> list N -> list N -> bool.

Lemma matches_spec (query : gmap (list N) mcond) (d : gmap (list N) value) :
  matches regex_test query d = true <->
  forall f c, query !! f = Some c -> match_cond regex_test d f c = true.
Proof. unfold matches. rewrite bool_decide_eq_true. reflexivity. Qed.

Lemma matches_empty (d : gmap (list N) value) :
  matches regex_test ∅ d = true.
Proof. apply matches_spec. intros f c H. rewrite lookup_empty in H. discriminate. Qed.

Lemma matches_singleton (f : list N) (c : mcond) (d : gmap (list N) value) :
  matches regex_test {[ f := c ]} d = match_cond regex_test d f c.
Proof.
  apply eq_true_iff_eq. rewrite matches_spec. split.
  - intros H. apply H, lookup_singleton_eq.
  - intros H f' c' Hl. apply lookup_singleton_Some in Hl as [<- <-]. exact H.
Qed.

(** A filter with one more key: the key's condition and the rest. *)
Lemma matches_insert (f : list N) (c : mcond) (query : gmap (list N) mcond)
  (d : gmap (list N) value) :
  matches regex_test (<[f := c]> query) d =
  match_cond regex_test d f c && matches regex_test (delete f query) d.
Proof.
  apply eq_true_iff_eq. rewrite andb_true_iff, !matches_spec. split.
  - intros H. split; [apply H, lookup_insert_eq|].
    intros f' c' Hl. apply lookup_delete_Some in Hl as [Hne Hl].
    apply H. rewrite lookup_insert_ne by exact Hne. exact Hl.
  - intros [H1 H2] f' c' Hl.
    destruct (decide (f = f')) as [<-|Hne].
    + rewrite lookup_insert_eq in Hl. injection Hl as <-. exact H1.
    + rewrite lookup_insert_ne in Hl by exact Hne.
      apply H2. rewrite lookup_delete_ne by exact Hne. exact Hl.
Qed.

Lemma on_field_scalar (p : value -> bool) (v : value) :
  is_scalar v = true -> on_field p v = p v.
Proof. destruct v; try reflexivity. discriminate. Qed.

Lemma match_between (d : gmap (list N) value) (f : list N) (a b : value) :
  is_scalar (field_of d f) = true ->
  match_cond regex_test d f (MOps [(OpGte, a); (OpLte, b)]) =
  bson_leb a (field_of d f) && bson_leb (field_of d f) b.
Proof.
  intros Hs. cbn [match_cond forallb fst snd match_op].
  rewrite !on_field_scalar by exact Hs. rewrite andb_true_r. reflexivity.
Qed.

Lemma query_valid_spec (query : gmap (list N) mcond) :
  query_valid query = true <->
  forall f c, query !! f = Some c -> cond_valid c = true.
Proof. unfold query_valid. rewrite bool_decide_eq_true. reflexivity. Qed.

Lemma query_valid_empty : query_valid ∅ = true.
Proof. apply query_valid_spec. intros f c H. rewrite lookup_empty in H. discriminate. Qed.

Lemma query_valid_singleton (f : list N) (c : mcond) :
  query_valid {[ f := c ]} = cond_valid c.
Proof.
  apply eq_true_iff_eq. rewrite query_valid_spec. split.
  - intros H. apply (H f), lookup_singleton_eq.
  - intros H f' c' Hl. apply lookup_singleton_Some in Hl as [<- <-]. exact H.
Qed.

Lemma filter_ext_Forall {A} (p p' : A -> bool) (l : list A) :
  Forall (fun x => p x = p' x) l -> List.filter p l = List.filter p' l.
Proof.
  induction 1 as [|x l Hx Hl IH]; [reflexivity|].
  simpl. rewrite Hx, IH. reflexivity.
Qed.

End MatchingFacts.

(** The regular expression engine of the closed examples: nothing matches. *)
Definition no_regex (pattern options s : list N) : bool := false.

Lemma filter_all {A} (p : A -> bool) (l : list A) :
  (forall x, p x = true) -> List.filter p l = l.
Proof.
  intros H. induction l as [|x l IH]; [reflexivity|].
  cbn [List.filter]. rewrite H, IH. reflexivity.
Qed.

Lemma find_matching_all (regex_test : list N -> list N -> list N -> bool)
  (docs : list (gmap (list N) value)) :
  find_matching regex_test ∅ docs = Ok docs.
Proof.
  unfold find_matching. rewrite query_valid_empty.
  rewrite filter_all by apply matches_empty. reflexivity.
Qed.

(** C5, on the code. For every plain field name [f] the filter compiled
    from [whereBetween(f, a, b)] selects, among records that hold a scalar
    under [f], exactly those whose value [v] satisfies [a <= v] and
    [v <= b]; for numbers and bounds that are not NaN this is the order of
    the floating-point numbers, both ends included. On the field [_id],
    and on [__proto__], the filter is dropped: the compiled filter is
    empty and every record is selected, whatever the bounds. *)
Theorem between_inclusive
  (regex_test : list N -> list N -> list N -> bool)
  (name : list N) (a b : value) :
  (forall f,
     plain_field f = true ->
     exists query,
       _buildMongoQuery (whereBetween f a b (table name)) = Ok query /\
       forall docs,
         Forall (fun d => is_scalar (field_of d f) = true) docs ->
         find_matching regex_test query docs =
         Ok (List.filter
               (fun d => bson_leb a (field_of d f)
                         && bson_leb (field_of d f) b)
               docs)) /\
  (forall x y z,
     PrimFloat.is_nan x = false -> PrimFloat.is_nan z = false ->
     bson_leb (VNum x) (VNum y) && bson_leb (VNum y) (VNum z) =
     PrimFloat.leb x y && PrimFloat.leb y z) /\
  (forall f docs,
     f = ID \/ f = PROTO ->
     _buildMongoQuery (whereBetween f a b (table name)) = Ok ∅ /\
     find_matching regex_test ∅ docs = Ok docs).
Proof.
  split; [|split].
  - intros f Hf. apply plain_field_spec in Hf as (Hid & Hp & _).
    eexists. split.
    + apply build_one_filter; [exact Hid|exact Hp|apply compile_between].
    + intros docs Hdocs. unfold find_matching.
      rewrite query_valid_singleton. cbn [cond_valid forallb fst snd andb].
      f_equal. apply filter_ext_Forall.
      eapply Forall_impl; [exact Hdocs|]. intros d Hd. cbv beta in *.
      rewrite matches_singleton. apply match_between, Hd.
  - intros x y z Hx Hz. cbn [bson_leb]. unfold num_leb.
    rewrite Hx, Hz, andb_false_r. reflexivity.
  - intros f docs [-> | ->].
    + split; [apply build_one_filter_id|apply find_matching_all].
    + split; [apply build_one_filter_proto|apply find_matching_all].
Qed.

(** The failing input of C5: [whereBetween('_id', 10, 20)] selects a
    record whose [_id] is 5. *)
Lemma between_on_id_selects_everything :
  _buildMongoQuery
    (whereBetween ID (VNum 10) (VNum 20) (table (js "sensors"))) = Ok ∅
  /\ find_matching no_regex ∅ [ {[ ID := VNum 5 ]} ]
     = Ok [ {[ ID := VNum 5 ]} ]
  /\ PrimFloat.leb 10 5 = false.
Proof.
  split; [apply build_one_filter_id|].
  split; [apply find_matching_all|reflexivity].
Qed.

(** On a plain field the same filter keeps 10 and 20 and drops 5 and 25. *)
Lemma between_on_a_plain_field :
  exists query,
    _buildMongoQuery
      (whereBetween (js "temperature") (VNum 10) (VNum 20)
         (table (js "sensors"))) = Ok query /\
    find_matching no_regex query
      [ {[ js "temperature" := VNum 5 ]}; {[ js "temperature" := VNum 10 ]};
        {[ js "temperature" := VNum 20 ]}; {[ js "temperature" := VNum 25 ]} ]
    = Ok [ {[ js "temperature" := VNum 10 ]};
           {[ js "temperature" := VNum 20 ]} ].
Proof.
  eexists. split.
  - apply build_one_filter; [discriminate|discriminate|apply compile_between].
  - vm_compute. reflexivity.
Qed.


(* ================================================================== *)
(** * LIKE patterns *)
(* ================================================================== *)

(** What one character of a LIKE pattern becomes. *)
Definition like_char (c : N) : list N :=
  if c =? PERCENT then [DOT; STAR]
  else if c =? UNDERSCORE then [DOT]
  else [c].

(** The two replacements, one after the other, amount to translating each
    character on its own: the text put in for [%] holds no [_]. *)
Lemma like_pattern_chars (p : list N) :
  like_pattern p = flat_map like_char p.
Proof.
  unfold like_pattern, replace_all.
  induction p as [|c p IH]; [reflexivity|].
  cbn [flat_map]. rewrite flat_map_app, IH. f_equal.
  unfold like_char.
  destruct (c =? PERCENT) eqn:E1; [reflexivity|].
  cbn [flat_map app]. rewrite app_nil_r. reflexivity.
Qed.

(** C6. LIKE-to-regex translation: for every pattern [p], the [like] case
    of [_buildMongoQuery] compiles the filter to a regular expression
    with the option [i], case-insensitive, whose text is [p] with every
    [%] replaced by [.*] and every [_] by [.], translated character by
    character; every other character, regex metacharacters included,
    stands unchanged. A record matches when the string it holds under the
    field matches that expression, and for every plain field name [f] the
    filter compiled from [whereLike(f, p)] holds the expression under
    [f]. *)
Theorem like_translation
  (regex_test : list N -> list N -> list N -> bool) (p : list N) :
  compile_condition (VStr (js "like")) (VStr p) =
  Ok (MRegex (flat_map like_char p) (js "i"))
  /\ like_char PERCENT = [DOT; STAR]
  /\ like_char UNDERSCORE = [DOT]
  /\ (forall c, c <> PERCENT -> c <> UNDERSCORE -> like_char c = [c])
  /\ (forall d f s,
        d !! f = Some (VStr s) ->
        match_cond regex_test d f (MRegex (flat_map like_char p) (js "i"))
        = regex_test (flat_map like_char p) (js "i") s)
  /\ (forall name f,
        plain_field f = true ->
        _buildMongoQuery (whereLike f (VStr p) (table name)) =
        Ok {[ f := MRegex (flat_map like_char p) (js "i") ]}).
Proof.
  split; [rewrite <- like_pattern_chars; apply compile_like|].
  split; [reflexivity|]. split; [reflexivity|].
  split; [|split].
  - intros c H1 H2. unfold like_char.
    apply N.eqb_neq in H1, H2. rewrite H1, H2. reflexivity.
  - intros d f s Hd. cbn [match_cond]. unfold field_of. rewrite Hd.
    reflexivity.
  - intros name f Hf. apply plain_field_spec in Hf as (Hid & Hp & _).
    rewrite <- like_pattern_chars.
    apply build_one_filter; [exact Hid|exact Hp|apply compile_like].
Qed.

Lemma like_translation_witness :
  _buildMongoQuery
    (whereLike (js "name") (VStr (js "a.c%_")) (table (js "users")))
  = Ok {[ js "name" := MRegex (flat_map like_char (js "a.c%_")) (js "i") ]}.
Proof.
  apply (proj2 (proj2 (proj2 (proj2 (proj2
           (like_translation no_regex (js "a.c%_")))))) (js "users")
           (js "name")).
  reflexivity.
Defined.

(** The pattern [a.c%_] becomes [a.c.*.]: the dot stays a dot. *)
Lemma like_pattern_example :
  flat_map like_char (js "a.c%_") = js "a.c.*.".
Proof. reflexivity. Qed.

(* ================================================================== *)
(** * Set membership *)
(* ================================================================== *)

(** C10. Empty set-membership filters are dropped: [whereIn(f, [])] and
    [whereNotIn(f, [])] leave the builder as it was, so on a fresh builder
    the compiled filter is empty and matches every record. *)
Theorem empty_membership_is_dropped
  (regex_test : list N -> list N -> list N -> bool)
  (f : list N) (q : builder) :
  whereIn f (VArr []) q = q /\ whereNotIn f (VArr []) q = q /\
  forall name d,
    _buildMongoQuery (whereIn f (VArr []) (table name)) = Ok ∅ /\
    matches regex_test ∅ d = true.
Proof.
  split; [reflexivity|]. split; [reflexivity|].
  intros name d. split.
  - cbn [whereIn nonempty_array]. rewrite build_without_or by reflexivity.
    apply obj_omapM_empty.
  - apply matches_empty.
Qed.

(* ================================================================== *)
(** * OR conditions *)
(* ================================================================== *)

Lemma mapM_one {A B} (f : A -> result B) (x : A) (y : B) :
  f x = Ok y -> mapM f [x] = Ok [y].
Proof. intros H. cbn [mapM]. rewrite H. reflexivity. Qed.

(** C3, on the code. The filter document of a fresh builder after
    [orWhere(f, operator, value)]: the branch holds the condition when the
    operator is [=] (and the field is not [__proto__], under which nothing
    is stored), and is empty for every other operator. *)
Theorem or_condition_is_dropped (name f : list N) (operator v : value) :
  _buildMongoQuery (orWhere3 f operator v (table name)) =
  Ok {[ OR_KEY :=
          MOr [ if op_is (or_default (VStr (js "=")) operator) "="
                   && negb (str_eqb f PROTO)
                then {[ f := or_default VNull v ]}
                else ∅ ] ]}.
Proof.
  unfold _buildMongoQuery.
  cbn [filters orConditions orWhere3 push_or table new_builder default app].
  rewrite obj_omapM_empty. cbn [mbind result_bind bind].
  erewrite mapM_one.
  2:{ apply obj_omapM_singleton. reflexivity. }
  cbn [mbind result_bind bind]. rewrite insert_empty.
  unfold stored_under, str_eqb.
  destruct (op_is _ "="); [|reflexivity].
  destruct (bool_decide (f = PROTO)); reflexivity.
Qed.

(* ================================================================== *)
(** * Raw queries and change streams *)
(* ================================================================== *)

(** C8 (amended). Raw queries: for every SQL string and parameter list,
    [CosmosQueryBuilder.raw] and [CosmosDB.query] write a warning to the
    console and resolve to the empty list; neither fails. *)
Theorem raw_query_resolves_empty (sql : list N) (params : list value)
  (w : world) :
  raw sql params w = (Ok [], console_warn RAW_WARNING w) /\
  query sql params w = (Ok [], console_warn QUERY_WARNING w).
Proof. split; reflexivity. Qed.

(** A world before [connect()]. *)
Definition world_offline : world :=
  World None false false None None [] [] [] [].

(** A connected world holding the given collections. *)
Definition world_of (db : gmap (list N) (list (gmap (list N) value)))
  : world :=
  World (Some db) true true None None [] [] [] [].

(** A connected world whose server has no change streams. *)
Definition world_without_streams : world :=
  World (Some ∅) true true (Some (MongoError "change streams")) None
    [] [] [] [].

(** C8 as stated fails: a raw query succeeds, with the empty list. *)
Lemma raw_query_does_not_fail :
  fst (raw (js "SELECT 1") [] world_offline) = Ok [] /\
  fst (query (js "SELECT 1") [] world_offline) = Ok [].
Proof. split; reflexivity. Qed.

(** C7 (amended). When the change stream cannot be set up, because
    [this.db] is [null] or [collection.watch()] throws, [subscribe] does not
    fail: it reports the error through [alert] and resolves to the empty
    function. No stream is opened, the callback is not invoked, and calling
    the returned function does nothing. *)
Theorem subscribe_failure_is_swallowed
  (collectionName : list N) (callback : nat) (w : world) (e : exn) :
  collection collectionName w ≫= (fun _ => watch w) = Throw e ->
  subscribe collectionName callback w =
  (Ok DoNothing,
   alert (AlertDatabaseError (js "CosmosDB subscribe operation") e) w)
  /\ w_streams (snd (subscribe collectionName callback w)) = w_streams w
  /\ w_calls (snd (subscribe collectionName callback w)) = w_calls w
  /\ forall w', call_unsubscribe DoNothing w' = w'.
Proof.
  intros H. unfold subscribe. rewrite H. repeat split.
Qed.

Lemma subscribe_failure_is_swallowed_witness :
  subscribe (js "sensors") 0 world_without_streams =
  (Ok DoNothing,
   alert (AlertDatabaseError (js "CosmosDB subscribe operation")
            (MongoError "change streams")) world_without_streams)
  /\ w_streams (snd (subscribe (js "sensors") 0 world_without_streams))
     = w_streams world_without_streams
  /\ w_calls (snd (subscribe (js "sensors") 0 world_without_streams))
     = w_calls world_without_streams
  /\ forall w', call_unsubscribe DoNothing w' = w'.
Proof.
  apply (subscribe_failure_is_swallowed (js "sensors") 0
           world_without_streams (MongoError "change streams")).
  reflexivity.
Defined.

(** C7 as stated fails: on a server without change streams [subscribe]
    resolves to the empty function instead of failing. *)
Lemma subscribe_resolves_when_watch_throws :
  fst (subscribe (js "sensors") 0 world_without_streams) = Ok DoNothing.
Proof. reflexivity. Qed.


(* ================================================================== *)
(** * Reading: [get] *)
(* ================================================================== *)

(** A stored document: it has an [_id] that is not [null]. *)
Definition has_id (d : gmap (list N) value) : Prop :=
  exists v, d !! ID = Some v /\ v <> VUndefined /\ v <> VNull.

Section GetFacts.

Variable Number : list N -> float.
Variable NumberToString : float -> list N.
Variable key : list N.
Variable regex_test : list N -> list N -> list N -> bool.
Variable server_sort :
  list N -> Z -> list (gmap (list N) value) -> list (gmap (list N) value).

(** The row [get] returns for a stored document. *)
Definition formatted_row (d : gmap (list N) value) : gmap (list N) value :=
  map_imap (fun k v => Some (decrypted_value Number key k v)) d
  ∪ {[ js "id" := VStr (String_ NumberToString (field_of d ID)) ]}.

Lemma _decryptRow_eq (row : gmap (list N) value) :
  _decryptRow Number key row =
  Ok (map_imap (fun k v => Some (decrypted_value Number key k v)) row).
Proof.
  apply obj_mapM_eq. intros k v _. apply decrypt_property_total.
Qed.

Lemma format_row_ok (d : gmap (list N) value) :
  has_id d ->
  format_row Number NumberToString key d = Ok (formatted_row d).
Proof.
  intros (v & Hv & Hu & Hn). unfold format_row, formatted_row.
  rewrite _decryptRow_eq. cbn [mbind result_bind bind].
  unfold id_toString, field_of. rewrite Hv. cbn [default].
  destruct v; try contradiction; reflexivity.
Qed.

Lemma project_has_id (fields : gset (list N)) (d : gmap (list N) value) :
  has_id d -> has_id (project fields d).
Proof.
  intros (v & Hv & Hu & Hn). exists v. split; [|auto].
  unfold project. apply map_lookup_filter_Some. split; [exact Hv|].
  right. reflexivity.
Qed.

Lemma cursor_project_has_id (q : builder)
  (docs : list (gmap (list N) value)) :
  Forall has_id docs -> Forall has_id (cursor_project q docs).
Proof.
  intros H. unfold cursor_project.
  destruct (bool_decide _); [exact H|].
  apply Forall_map. eapply Forall_impl; [exact H|].
  intros d Hd. apply project_has_id, Hd.
Qed.

Lemma get_try_eq (q : builder) (w : world)
  (docs : list (gmap (list N) value)) (query : gmap (list N) mcond) :
  collection (collectionName q) w = Ok docs ->
  _buildMongoQuery q = Ok query -> query_valid query = true ->
  get_try Number NumberToString key regex_test server_sort q w =
  mapM (format_row Number NumberToString key)
    (cursor_project q
       (cursor_limit q
          (cursor_skip q
             (cursor_sort server_sort q
                (List.filter (matches regex_test query) docs))))).
Proof.
  intros Hc Hq Hv. unfold get_try. rewrite Hc, Hq.
  cbn [mbind result_bind bind]. unfold find_matching. rewrite Hv.
  reflexivity.
Qed.

Lemma get_ok (q : builder) (w : world)
  (rows : list (gmap (list N) value)) :
  get_try Number NumberToString key regex_test server_sort q w = Ok rows ->
  get Number NumberToString key regex_test server_sort q w = (Ok rows, w).
Proof. intros H. unfold get. rewrite H. reflexivity. Qed.

Lemma get_throw (q : builder) (w : world) (e : exn) :
  get_try Number NumberToString key regex_test server_sort q w = Throw e ->
  get Number NumberToString key regex_test server_sort q w =
  (Throw e, alert (AlertDatabaseError (js "CosmosDB get operation") e) w).
Proof. intros H. unfold get. rewrite H. reflexivity. Qed.

End GetFacts.

(** The order a query asks for: the server's order [precedes f dir] for
    the sort [{f: dir}] when an order field is set, and otherwise the order
    in which the collection yields the matching documents. *)
Definition requested_order
  (precedes : list N -> Z -> gmap (list N) value -> gmap (list N) value
              -> Prop)
  (q : builder) (matching ordered : list (gmap (list N) value)) : Prop :=
  match orderField q with
  | Some (c :: f) =>
      StronglySorted (precedes (c :: f) (orderDirection q)) ordered
  | _ => ordered = matching
  end.

(** C4. Pagination: on a connected driver whose server sorts (its result
    is a permutation of its input that is in the server's order for the
    field and the direction asked), for every builder whose filter
    compiles and is accepted, every positive limit [n] and every offset
    [k >= 0]: the matching records have an arrangement [ordered] that is in
    the order the builder asks for, by its order field and direction, such
    that [limit(n).skip(k).get()] returns the rows of the records at
    positions [k, k+n) of [ordered], in that order; they are fewer than
    [n] when [k+n] exceeds the number of matching records. *)
Theorem pagination
  (Number : list N -> float) (NumberToString : float -> list N)
  (key : list N) (regex_test : list N -> list N -> list N -> bool)
  (server_sort : list N -> Z -> list (gmap (list N) value)
                 -> list (gmap (list N) value))
  (precedes : list N -> Z -> gmap (list N) value -> gmap (list N) value
              -> Prop)
  (q : builder) (w : world) (docs : list (gmap (list N) value))
  (query : gmap (list N) mcond) (n k : Z) :
  (0 < n)%Z -> (0 <= k)%Z ->
  (forall f dir l,
     Permutation (server_sort f dir l) l /\
     StronglySorted (precedes f dir) (server_sort f dir l)) ->
  collection (collectionName q) w = Ok docs ->
  Forall has_id docs ->
  _buildMongoQuery q = Ok query -> query_valid query = true ->
  let matching := List.filter (matches regex_test query) docs in
  exists ordered,
    Permutation ordered matching /\
    requested_order precedes q matching ordered /\
    (let page := firstn (Z.to_nat n) (drop (Z.to_nat k) ordered) in
     get Number NumberToString key regex_test server_sort
       (skip k (limit n None q)) w =
     (Ok (map (formatted_row Number NumberToString key)
            (cursor_project q page)), w) /\
     (forall i, (i < Z.to_nat n)%nat ->
                page !! i = ordered !! (Z.to_nat k + i)%nat) /\
     length page = Nat.min (Z.to_nat n) (length matching - Z.to_nat k)).
Proof.
  intros Hn Hk Hsort Hc Hids Hq Hv matching.
  exists (cursor_sort server_sort q matching).
  set (ordered := cursor_sort server_sort q matching).
  assert (Hord : Permutation ordered matching).
  { subst ordered. unfold cursor_sort.
    destruct (orderField q) as [[|c f]|]; try reflexivity. apply Hsort. }
  assert (Hoid : Forall has_id ordered).
  { rewrite List.Forall_forall in *. intros d Hd.
    apply Hids. eapply Permutation_in in Hd; [|exact Hord].
    apply filter_In in Hd. apply Hd. }
  split; [exact Hord|]. split.
  { subst ordered. unfold requested_order, cursor_sort.
    destruct (orderField q) as [[|c f]|]; try reflexivity. apply Hsort. }
  intros page. split; [|split].
  - apply get_ok.
    rewrite (get_try_eq _ _ _ _ _ _ _ docs query) by assumption.
    assert (Hpage :
      cursor_limit (skip k (limit n None q))
        (cursor_skip (skip k (limit n None q))
           (cursor_sort server_sort (skip k (limit n None q))
              (List.filter (matches regex_test query) docs))) = page).
    { subst page ordered matching.
      unfold cursor_limit, cursor_skip, cursor_sort.
      cbn [limitCount offsetCount orderField orderDirection skip limit
           set_limit set_offset].
      replace (n =? 0)%Z with false by (symmetry; apply Z.eqb_neq; lia).
      rewrite Z.abs_eq by lia.
      destruct (0 <? k)%Z eqn:Ek; [reflexivity|].
      apply Z.ltb_ge in Ek. replace k with 0%Z by lia. reflexivity. }
    change (cursor_project (skip k (limit n None q)))
      with (cursor_project q).
    rewrite Hpage.
    apply mapM_ok_map. apply List.Forall_forall. intros d Hd.
    apply format_row_ok.
    assert (Hp : Forall has_id (cursor_project q page)).
    { apply cursor_project_has_id. subst page.
      apply Forall_take, Forall_drop, Hoid. }
    rewrite List.Forall_forall in Hp. apply Hp, Hd.
  - intros i Hi. subst page.
    rewrite lookup_take_lt by exact Hi. apply lookup_drop.
  - subst page. rewrite length_firstn, length_drop.
    rewrite (Permutation_length Hord). reflexivity.
Qed.

(** ** A server for the closed examples *)

(** The integer part of a number; it orders the sample readings. *)
Definition float_rank (x : float) : Z :=
  match Prim2SF x with
  | S754_zero _ => 0
  | S754_infinity s => if s then - 2 ^ 1100 else 2 ^ 1100
  | S754_nan => - 2 ^ 1101
  | S754_finite s m e =>
      let z := if (0 <=? e)%Z then Z.pos m * 2 ^ e
               else Z.pos m / 2 ^ (- e) in
      if s then - z else z
  end%Z.

Definition rank (f : list N) (d : gmap (list N) value) : Z :=
  match d !! f with
  | Some (VNum x) => float_rank x
  | _ => - 2 ^ 1102
  end%Z.

(** The sample server's order for the sort [{f: dir}]. *)
Definition sample_precedes (f : list N) (dir : Z)
  (a b : gmap (list N) value) : Prop :=
  (dir * rank f a <= dir * rank f b)%Z.

Fixpoint insert_by {A} (key : A -> Z) (x : A) (l : list A) : list A :=
  match l with
  | [] => [x]
  | y :: t => if (key x <=? key y)%Z then x :: l else y :: insert_by key x t
  end.

Definition sort_by {A} (key : A -> Z) (l : list A) : list A :=
  fold_right (insert_by key) [] l.

(** The sample server's sort: an insertion sort by the rank of the field,
    times the direction. *)
Definition sample_sort (f : list N) (dir : Z)
  (l : list (gmap (list N) value)) : list (gmap (list N) value) :=
  sort_by (fun d => (dir * rank f d)%Z) l.

Lemma insert_by_permutation {A} (key : A -> Z) (x : A) (l : list A) :
  Permutation (insert_by key x l) (x :: l).
Proof.
  induction l as [|y t IH]; [reflexivity|]. cbn [insert_by].
  destruct (key x <=? key y)%Z; [reflexivity|].
  rewrite IH. apply perm_swap.
Qed.

Lemma sort_by_permutation {A} (key : A -> Z) (l : list A) :
  Permutation (sort_by key l) l.
Proof.
  induction l as [|x l IH]; [reflexivity|]. cbn [sort_by fold_right].
  rewrite insert_by_permutation. apply perm_skip, IH.
Qed.

Lemma insert_by_sorted {A} (key : A -> Z) (x : A) (l : list A) :
  StronglySorted (fun a b => (key a <= key b)%Z) l ->
  StronglySorted (fun a b => (key a <= key b)%Z) (insert_by key x l).
Proof.
  induction 1 as [|y t Ht IH Hy]; cbn [insert_by].
  - repeat constructor.
  - destruct (Z.leb_spec (key x) (key y)) as [Hle|Hgt].
    + constructor; [constructor; assumption|].
      constructor; [exact Hle|].
      rewrite List.Forall_forall in *. intros z Hz.
      specialize (Hy z Hz). cbv beta in *. lia.
    + constructor; [exact IH|].
      rewrite List.Forall_forall in *. intros z Hz.
      eapply Permutation_in in Hz; [|apply insert_by_permutation].
      destruct Hz as [<- | Hz]; [lia|apply Hy, Hz].
Qed.

Lemma sort_by_sorted {A} (key : A -> Z) (l : list A) :
  StronglySorted (fun a b => (key a <= key b)%Z) (sort_by key l).
Proof.
  induction l as [|x l IH]; [constructor|].
  cbn [sort_by fold_right]. apply insert_by_sorted, IH.
Qed.

Lemma sample_sort_permutation (f : list N) (dir : Z)
  (l : list (gmap (list N) value)) :
  Permutation (sample_sort f dir l) l.
Proof. apply sort_by_permutation. Qed.

Lemma sample_sort_sorts (f : list N) (dir : Z)
  (l : list (gmap (list N) value)) :
  Permutation (sample_sort f dir l) l /\
  StronglySorted (sample_precedes f dir) (sample_sort f dir l).
Proof.
  split; [apply sort_by_permutation|].
  apply (sort_by_sorted (fun d => (dir * rank f d)%Z)).
Qed.

Definition no_Number (s : list N) : float := PrimFloat.nan.

(** [toUpperCase] on the letters a to z. *)
Definition upper_ascii (s : list N) : list N :=
  map (fun c => if (97 <=? c) && (c <=? 122) then c - 32 else c) s.

(** Three stored readings. *)
Definition reading (oid : string) (t : float) : gmap (list N) value :=
  {[ ID := VObjectId (js oid); js "temperature" := VNum t ]}.

Definition sample_readings : list (gmap (list N) value) :=
  [ reading "65a000000000000000000001" 20;
    reading "65a000000000000000000002" 21;
    reading "65a000000000000000000003" 22 ].

Definition sample_world : world :=
  world_of {[ js "sensors" := sample_readings ]}.

Lemma reading_has_id (oid : string) (t : float) : has_id (reading oid t).
Proof.
  exists (VObjectId (js oid)). split; [|split; discriminate].
  unfold reading. apply lookup_insert_eq.
Qed.

Lemma sample_collection :
  collection (js "sensors") sample_world = Ok sample_readings.
Proof.
  unfold collection, sample_world, world_of. cbn [w_db].
  rewrite lookup_singleton_eq. reflexivity.
Qed.

Lemma sample_readings_stored : Forall has_id sample_readings.
Proof. repeat constructor; apply reading_has_id. Qed.

(** The sensors by falling temperature, two from the second on. *)
Definition by_temperature : builder :=
  orderByDesc upper_ascii (js "temperature") (table (js "sensors")).

Lemma pagination_witness :
  let matching := List.filter (matches no_regex ∅) sample_readings in
  exists ordered,
    Permutation ordered matching /\
    requested_order sample_precedes by_temperature matching ordered /\
    (let page := firstn (Z.to_nat 2) (drop (Z.to_nat 1) ordered) in
     get no_Number no_NumberToString key_unset no_regex sample_sort
       (skip 1 (limit 2 None by_temperature)) sample_world =
     (Ok (map (formatted_row no_Number no_NumberToString key_unset)
            (cursor_project by_temperature page)), sample_world) /\
     (forall i, (i < Z.to_nat 2)%nat ->
                page !! i = ordered !! (Z.to_nat 1 + i)%nat) /\
     length page = Nat.min (Z.to_nat 2) (length matching - Z.to_nat 1)).
Proof.
  apply (pagination no_Number no_NumberToString key_unset no_regex
           sample_sort sample_precedes by_temperature sample_world
           sample_readings ∅ 2 1).
  - lia.
  - lia.
  - apply sample_sort_sorts.
  - exact sample_collection.
  - exact sample_readings_stored.
  - rewrite build_without_or by reflexivity. apply obj_omapM_empty.
  - apply query_valid_empty.
Defined.

(** What the call of the witness returns: the readings of 21 and of 20
    degrees, in that order. *)
Lemma pagination_example :
  get no_Number no_NumberToString key_unset no_regex sample_sort
    (skip 1 (limit 2 None by_temperature)) sample_world =
  (Ok (map (formatted_row no_Number no_NumberToString key_unset)
         [ reading "65a000000000000000000002" 21;
           reading "65a000000000000000000001" 20 ]), sample_world).
Proof. vm_compute. reflexivity. Qed.


(* ================================================================== *)
(** * How filters combine *)
(* ================================================================== *)

(** The OR part of [_buildMongoQuery], applied to the compiled filters. *)
Definition add_or (q : builder) (main : gmap (list N) mcond)
  : result (gmap (list N) mcond) :=
  match orConditions q with
  | Some (c :: cs) =>
      orQueries ← mapM (obj_omapM compile_or_entry) (c :: cs);
      Ok (<[OR_KEY := MOr orQueries]> main)
  | _ => Ok main
  end.

Lemma build_eq (q : builder) :
  _buildMongoQuery q =
  obj_omapM compile_filter (filters q) ≫= add_or q.
Proof. reflexivity. Qed.

Lemma add_or_insert (q : builder) (main mq : gmap (list N) mcond)
  (f : list N) (c : mcond) :
  f <> OR_KEY -> add_or q main = Ok mq ->
  add_or q (<[f := c]> main) = Ok (<[f := c]> mq).
Proof.
  intros Hf. unfold add_or.
  destruct (orConditions q) as [[|b bs]|]; try (intros [= <-]; reflexivity).
  destruct (mapM _ (b :: bs)) as [ors|e]; [|discriminate].
  cbn [mbind result_bind bind]. intros [= <-].
  rewrite insert_insert_ne by congruence. reflexivity.
Qed.

Lemma add_or_lookup (q : builder) (main mq : gmap (list N) mcond)
  (f : list N) :
  f <> OR_KEY -> add_or q main = Ok mq -> mq !! f = main !! f.
Proof.
  intros Hf. unfold add_or.
  destruct (orConditions q) as [[|b bs]|]; try (intros [= <-]; reflexivity).
  destruct (mapM _ (b :: bs)) as [ors|e]; [|discriminate].
  cbn [mbind result_bind bind]. intros [= <-].
  apply lookup_insert_ne. congruence.
Qed.

Lemma add_or_set_filters (q : builder) (fs : gmap (list N) fentry)
  (main : gmap (list N) mcond) :
  add_or (set_filters fs q) main = add_or q main.
Proof. reflexivity. Qed.

(** Adding a filter on a field that has none adds one key to the filter
    document. *)
Lemma build_add_filter (q : builder) (f : list N) (operator v : value)
  (c : mcond) (mq : gmap (list N) mcond) :
  f <> ID -> f <> PROTO -> f <> OR_KEY -> filters q !! f = None ->
  _buildMongoQuery q = Ok mq -> compile_condition operator v = Ok c ->
  _buildMongoQuery (set_filter f (Cond operator v) q) = Ok (<[f := c]> mq)
  /\ mq !! f = None.
Proof.
  intros Hid Hp Hor Hnone Hq Hc. rewrite build_eq in Hq.
  rewrite set_filter_ne by exact Hp.
  destruct (obj_omapM compile_filter (filters q)) as [main|e] eqn:Hm;
    [|discriminate].
  cbn [mbind result_bind bind] in Hq.
  apply obj_omapM_inv in Hm as [Hok ->].
  assert (Hf : compile_filter f (Cond operator v) = Ok (Some c)).
  { rewrite compile_filter_cond by assumption. rewrite Hc. reflexivity. }
  split.
  - rewrite build_eq.
    change (filters (set_filters (<[f := Cond operator v]> (filters q)) q))
      with (<[f := Cond operator v]> (filters q)).
    change (add_or (set_filters (<[f := Cond operator v]> (filters q)) q))
      with (add_or q).
    rewrite obj_omapM_eq.
    2:{ intros k e Hk. destruct (decide (f = k)) as [<-|Hne].
        - rewrite lookup_insert_eq in Hk. injection Hk as <-.
          eexists. exact Hf.
        - rewrite lookup_insert_ne in Hk by exact Hne. apply Hok, Hk. }
    cbn [mbind result_bind bind].
    rewrite map_imap_insert, Hf. cbn [unwrap].
    apply add_or_insert; assumption.
  - rewrite (add_or_lookup _ _ _ _ Hor Hq), map_lookup_imap, Hnone.
    reflexivity.
Qed.

(** X1. The last filter on a field wins: a second [where] on the same
    field replaces the first, so the compiled filter is the one of the
    second call alone. *)
Theorem where_twice_keeps_last
  (q : builder) (f : list N) (op1 v1 op2 v2 : value) :
  where3 f op2 v2 (where3 f op1 v1 q) = where3 f op2 v2 q /\
  _buildMongoQuery (where3 f op2 v2 (where3 f op1 v1 q)) =
  _buildMongoQuery (where3 f op2 v2 q).
Proof.
  assert (H : where3 f op2 v2 (where3 f op1 v1 q) = where3 f op2 v2 q).
  { unfold where3, set_filter.
    destruct (bool_decide (f = PROTO) && negb (filtersDetached q)) eqn:E.
    - rewrite E. reflexivity.
    - change (filtersDetached (set_filters _ q)) with (filtersDetached q).
      rewrite E. unfold set_filters. cbn [filters]. f_equal.
      apply insert_insert_eq. }
  split; [exact H|rewrite H; reflexivity].
Qed.

(** X2. Filters are conjunctive: on a builder whose filter compiles, a
    [where(f, operator, value)] whose condition compiles, on a plain field
    name [f] (not empty, without a dot or a NUL, not starting with a
    dollar sign, and neither [_id] nor [__proto__]) that has no filter
    yet, adds one key to the compiled filter, and a document is then
    selected exactly when it satisfies the new condition and was selected
    before. *)
Theorem where_is_conjunctive
  (regex_test : list N -> list N -> list N -> bool)
  (q : builder) (f : list N) (operator v : value) (c : mcond)
  (mq : gmap (list N) mcond) :
  plain_field f = true -> filters q !! f = None ->
  _buildMongoQuery q = Ok mq ->
  compile_condition (or_default (VStr (js "=")) operator)
    (or_default VNull v) = Ok c ->
  _buildMongoQuery (where3 f operator v q) = Ok (<[f := c]> mq) /\
  forall d,
    matches regex_test (<[f := c]> mq) d =
    match_cond regex_test d f c && matches regex_test mq d.
Proof.
  intros Hf Hnone Hq Hc.
  apply plain_field_spec in Hf as (Hid & Hp & Hor & _).
  destruct (build_add_filter q f _ _ c mq Hid Hp Hor Hnone Hq Hc)
    as [Hb Hl].
  split; [exact Hb|]. intros d.
  rewrite matches_insert, delete_id by exact Hl. reflexivity.
Qed.

Lemma where_is_conjunctive_witness :
  _buildMongoQuery
    (where3 (js "room") (VStr (js "=")) (VStr (js "lab"))
       (where3 (js "temperature") (VStr (js ">")) (VNum 20)
          (table (js "sensors")))) =
  Ok (<[js "room" := MValue (VStr (js "lab"))]>
        {[ js "temperature" := MOps [(OpGt, VNum 20)] ]}) /\
  forall d,
    matches no_regex
      (<[js "room" := MValue (VStr (js "lab"))]>
         {[ js "temperature" := MOps [(OpGt, VNum 20)] ]}) d =
    match_cond no_regex d (js "room") (MValue (VStr (js "lab")))
    && matches no_regex {[ js "temperature" := MOps [(OpGt, VNum 20)] ]} d.
Proof.
  apply (where_is_conjunctive no_regex
           (where3 (js "temperature") (VStr (js ">")) (VNum 20)
              (table (js "sensors")))
           (js "room") (VStr (js "=")) (VStr (js "lab"))).
  - reflexivity.
  - reflexivity.
  - apply build_one_filter; [discriminate|discriminate|reflexivity].
  - reflexivity.
Defined.


(* ================================================================== *)
(** * What each operator selects *)
(* ================================================================== *)

Section Operators.

Variable regex_test : list N -> list N -> list N -> bool.

Lemma selects_one_filter (name f : list N) (operator v : value) (c : mcond)
  (d : gmap (list N) value) :
  plain_field f = true -> compile_condition operator v = Ok c ->
  selects regex_test (set_filter f (Cond operator v) (table name)) d =
  Some (match_cond regex_test d f c).
Proof.
  intros Hf Hc. apply plain_field_spec in Hf as (Hid & Hp & _).
  unfold selects.
  rewrite (build_one_filter name f operator v c Hid Hp Hc).
  rewrite matches_singleton. reflexivity.
Qed.

Lemma match_branch_singleton (d : gmap (list N) value) (f : list N)
  (v : value) :
  match_branch d {[ f := v ]} = match_eq v (field_of d f).
Proof.
  apply eq_true_iff_eq. unfold match_branch.
  rewrite bool_decide_eq_true. split.
  - intros H. apply (H f), lookup_singleton_eq.
  - intros H f' v' Hl. apply lookup_singleton_Some in Hl as [<- <-]. exact H.
Qed.

Lemma match_eq_scalar (q v : value) :
  is_scalar v = true -> match_eq q v = bson_eqb q v.
Proof.
  intros H. unfold match_eq. rewrite on_field_scalar by exact H.
  apply orb_diag.
Qed.

End Operators.

(** X3. The comparison operators on numbers: on a fresh builder, for a
    plain field name [f] (not empty, without a dot or a NUL, not starting
    with a dollar sign, and neither [_id] nor [__proto__]) and a number
    [a] that is not NaN, [where(f, '>', a)], ['>='], ['<'] and ['<=']
    select a record that holds a number [v] under [f] exactly when
    [a < v], [a <= v], [v < a] and [v <= a] in the order of the
    floating-point numbers; so none of them selects a record that holds
    NaN. *)
Theorem comparison_operators
  (regex_test : list N -> list N -> list N -> bool)
  (name f : list N) (a v : float) (d : gmap (list N) value) :
  plain_field f = true -> d !! f = Some (VNum v) ->
  PrimFloat.is_nan a = false ->
  selects regex_test (where3 f (VStr (js ">")) (VNum a) (table name)) d
    = Some (PrimFloat.ltb a v) /\
  selects regex_test (where3 f (VStr (js ">=")) (VNum a) (table name)) d
    = Some (PrimFloat.leb a v) /\
  selects regex_test (where3 f (VStr (js "<")) (VNum a) (table name)) d
    = Some (PrimFloat.ltb v a) /\
  selects regex_test (where3 f (VStr (js "<=")) (VNum a) (table name)) d
    = Some (PrimFloat.leb v a).
Proof.
  intros Hf Hd Ha. unfold where3. cbn [or_default].
  repeat split;
    (erewrite selects_one_filter; [|exact Hf|reflexivity]);
    cbn [match_cond forallb fst snd match_op]; unfold field_of;
    rewrite Hd; cbn [default]; unfold id;
    cbn [on_field bson_ltb bson_leb];
    unfold num_ltb, num_leb; rewrite ?Ha, ?andb_false_r;
    rewrite ?andb_true_r; reflexivity.
Qed.

Lemma comparison_operators_witness :
  let d : gmap (list N) value := reading "65a000000000000000000002" 21 in
  selects no_regex
    (where3 (js "temperature") (VStr (js ">")) (VNum 20) (table (js "sensors")))
    d = Some (PrimFloat.ltb 20 21) /\
  selects no_regex
    (where3 (js "temperature") (VStr (js ">=")) (VNum 20)
       (table (js "sensors"))) d = Some (PrimFloat.leb 20 21) /\
  selects no_regex
    (where3 (js "temperature") (VStr (js "<")) (VNum 20) (table (js "sensors")))
    d = Some (PrimFloat.ltb 21 20) /\
  selects no_regex
    (where3 (js "temperature") (VStr (js "<=")) (VNum 20)
       (table (js "sensors"))) d = Some (PrimFloat.leb 21 20).
Proof.
  apply (comparison_operators no_regex (js "sensors") (js "temperature")
           20 21 (reading "65a000000000000000000002" 21)).
  - reflexivity.
  - reflexivity.
  - reflexivity.
Defined.

Lemma op_is_unknown (op : list N) (s : string) :
  In (js s) known_operators -> ~ In op known_operators ->
  op_is (VStr op) s = false.
Proof.
  intros Hs Hop. unfold op_is, strict_eq_str, str_eqb.
  apply bool_decide_eq_false_2. intros ->. contradiction.
Qed.

(** X4. An operator the builder does not know is treated as equality: on
    a fresh builder and for a plain field name [f] (not empty, without a
    dot or a NUL, not starting with a dollar sign, and neither [_id] nor
    [__proto__]), [where(f, op, v)] with an [op] that is none of the
    fourteen operators of [_buildMongoQuery] (for instance ['LIKE'] in
    upper case, or ['contains']) compiles to [{f: v}] without any error,
    and selects the records whose value of [f] equals [v]. *)
Theorem unknown_operator_is_equality
  (regex_test : list N -> list N -> list N -> bool)
  (name f op : list N) (v : value) (d : gmap (list N) value) :
  plain_field f = true -> ~ In op known_operators ->
  _buildMongoQuery (where3 f (VStr op) v (table name)) =
  Ok {[ f := MValue (or_default VNull v) ]} /\
  selects regex_test (where3 f (VStr op) v (table name)) d =
  Some (match_eq (or_default VNull v) (field_of d f)).
Proof.
  intros Hf Hop.
  assert (Hc : compile_condition (VStr op) (or_default VNull v) =
               Ok (MValue (or_default VNull v))).
  { unfold compile_condition.
    rewrite !(op_is_unknown op) by (exact Hop || (vm_compute; tauto)).
    reflexivity. }
  unfold where3. cbn [or_default]. split.
  - apply plain_field_spec in Hf as (Hid & Hp & _).
    apply build_one_filter; assumption.
  - erewrite selects_one_filter; [|exact Hf|exact Hc]. reflexivity.
Qed.

Lemma unknown_operator_is_equality_witness :
  _buildMongoQuery
    (where3 (js "name") (VStr (js "LIKE")) (VStr (js "a%")) (table (js "users")))
  = Ok {[ js "name" := MValue (or_default VNull (VStr (js "a%"))) ]} /\
  selects no_regex
    (where3 (js "name") (VStr (js "LIKE")) (VStr (js "a%")) (table (js "users")))
    ∅ =
  Some (match_eq (or_default VNull (VStr (js "a%"))) (field_of ∅ (js "name"))).
Proof.
  apply (unknown_operator_is_equality no_regex (js "users") (js "name")
           (js "LIKE") (VStr (js "a%")) ∅).
  - reflexivity.
  - vm_compute. intuition discriminate.
Defined.

(** X5. Set membership with a nonempty list: on a fresh builder and for a
    plain field name [f] (not empty, without a dot or a NUL, not starting
    with a dollar sign, and neither [_id] nor [__proto__]),
    [whereIn(f, xs)] selects the records whose value of [f] equals (or,
    for an array, holds) one of [xs], and [whereNotIn(f, xs)] selects
    exactly the other records. *)
Theorem membership_filters
  (regex_test : list N -> list N -> list N -> bool)
  (name f : list N) (x : value) (xs : list value)
  (d : gmap (list N) value) :
  plain_field f = true ->
  selects regex_test (whereIn f (VArr (x :: xs)) (table name)) d =
  Some (existsb (fun y => match_eq y (field_of d f)) (x :: xs)) /\
  selects regex_test (whereNotIn f (VArr (x :: xs)) (table name)) d =
  Some (negb (existsb (fun y => match_eq y (field_of d f)) (x :: xs))).
Proof.
  intros Hf. unfold whereIn, whereNotIn. cbn [nonempty_array].
  split; (erewrite selects_one_filter; [|exact Hf|reflexivity]);
    cbn [match_cond forallb fst snd match_op]; rewrite andb_true_r;
    reflexivity.
Qed.

Lemma membership_filters_witness :
  selects no_regex
    (whereIn (js "room") (VArr [VStr (js "lab"); VStr (js "hall")])
       (table (js "sensors"))) ∅ =
  Some (existsb (fun y => match_eq y (field_of ∅ (js "room")))
          [VStr (js "lab"); VStr (js "hall")]) /\
  selects no_regex
    (whereNotIn (js "room") (VArr [VStr (js "lab"); VStr (js "hall")])
       (table (js "sensors"))) ∅ =
  Some (negb (existsb (fun y => match_eq y (field_of ∅ (js "room")))
                [VStr (js "lab"); VStr (js "hall")])).
Proof.
  apply (membership_filters no_regex (js "sensors") (js "room")
           (VStr (js "lab")) [VStr (js "hall")] ∅).
  reflexivity.
Defined.

Lemma bson_eqb_null (v : value) : bson_eqb VNull v = is_nullish v.
Proof. destruct v; reflexivity. Qed.

(** X6. Null tests: on a fresh builder and for a plain field name [f] (not
    empty, without a dot or a NUL, not starting with a dollar sign, and
    neither [_id] nor [__proto__]), [whereNull(f)] selects, among the
    records that hold no array under [f], those whose value of [f] is
    [null] or missing, and [whereNotNull(f)] selects the others. *)
Theorem null_filters
  (regex_test : list N -> list N -> list N -> bool)
  (name f : list N) (d : gmap (list N) value) :
  plain_field f = true -> is_scalar (field_of d f) = true ->
  selects regex_test (whereNull f (table name)) d =
  Some (is_nullish (field_of d f)) /\
  selects regex_test (whereNotNull f (table name)) d =
  Some (negb (is_nullish (field_of d f))).
Proof.
  intros Hf Hs. unfold whereNull, whereNotNull.
  split; (erewrite selects_one_filter; [|exact Hf|reflexivity]);
    cbn [match_cond forallb fst snd match_op];
    rewrite match_eq_scalar by exact Hs; rewrite bson_eqb_null;
    rewrite ?andb_true_r; reflexivity.
Qed.

Lemma null_filters_witness :
  selects no_regex (whereNull (js "room") (table (js "sensors")))
    (reading "65a000000000000000000001" 20) =
  Some (is_nullish
          (field_of (reading "65a000000000000000000001" 20) (js "room"))) /\
  selects no_regex (whereNotNull (js "room") (table (js "sensors")))
    (reading "65a000000000000000000001" 20) =
  Some (negb (is_nullish
          (field_of (reading "65a000000000000000000001" 20) (js "room")))).
Proof.
  apply (null_filters no_regex (js "sensors") (js "room")
           (reading "65a000000000000000000001" 20)).
  - reflexivity.
  - reflexivity.
Defined.

(** X7. [orWhere] does not widen a [where]: for plain field names [f],
    [g] and [h] (not empty, without a dot or a NUL, not starting with a
    dollar sign, and neither [_id] nor [__proto__]), after [where(f, v1)],
    [orWhere(g, v2)] and [orWhere(h, v3)] on a fresh builder the compiled
    filter is [{f: v1, $or: [{g: v2}, {h: v3}]}], so a record is selected
    when it satisfies the [where] condition and at least one of the
    [orWhere] conditions. *)
Theorem or_where_is_anded
  (regex_test : list N -> list N -> list N -> bool)
  (name f g h : list N) (v1 v2 v3 : value) (d : gmap (list N) value) :
  plain_field f = true -> plain_field g = true -> plain_field h = true ->
  let w1 := or_default (VStr (js "=")) v1 in
  let w2 := or_default (VStr (js "=")) v2 in
  let w3 := or_default (VStr (js "=")) v3 in
  _buildMongoQuery
    (orWhere2 h v3 (orWhere2 g v2 (where2 f v1 (table name)))) =
  Ok (<[OR_KEY := MOr [ {[ g := w2 ]}; {[ h := w3 ]} ]]>
        {[ f := MValue w1 ]}) /\
  selects regex_test
    (orWhere2 h v3 (orWhere2 g v2 (where2 f v1 (table name)))) d =
  Some (match_eq w1 (field_of d f)
        && (match_eq w2 (field_of d g) || match_eq w3 (field_of d h))).
Proof.
  intros Hf Hg Hh w1 w2 w3.
  apply plain_field_spec in Hf as (Hid & Hp & Hor & _).
  apply plain_field_spec in Hg as (_ & Hgp & _).
  apply plain_field_spec in Hh as (_ & Hhp & _).
  assert (Hb : _buildMongoQuery
    (orWhere2 h v3 (orWhere2 g v2 (where2 f v1 (table name)))) =
    Ok (<[OR_KEY := MOr [ {[ g := w2 ]}; {[ h := w3 ]} ]]>
          {[ f := MValue w1 ]})).
  { rewrite build_eq. unfold where2.
    rewrite set_filter_ne by exact Hp.
    cbn [filters orWhere2 push_or set_filters table new_builder].
    rewrite insert_empty.
    rewrite (obj_omapM_singleton compile_filter f _ (Some (MValue w1))).
    2:{ rewrite compile_filter_cond by assumption. reflexivity. }
    cbn [mbind result_bind bind]. unfold add_or.
    cbn [orConditions orWhere2 push_or set_filters table
         new_builder default app mapM].
    unfold id. cbn [app mapM].
    rewrite (obj_omapM_singleton compile_or_entry g _ (Some w2))
      by (cbn; rewrite stored_under_ne by exact Hgp; reflexivity).
    rewrite (obj_omapM_singleton compile_or_entry h _ (Some w3))
      by (cbn; rewrite stored_under_ne by exact Hhp; reflexivity).
    reflexivity. }
  split; [exact Hb|]. unfold selects. rewrite Hb. f_equal.
  rewrite matches_insert.
  rewrite delete_id by (apply lookup_singleton_ne; congruence).
  rewrite matches_singleton.
  cbn [match_cond existsb]. rewrite !match_branch_singleton.
  rewrite orb_false_r. apply andb_comm.
Qed.

Lemma or_where_is_anded_witness :
  let w1 := or_default (VStr (js "=")) (VStr (js "lab")) in
  let w2 := or_default (VStr (js "=")) (VNum 20) in
  let w3 := or_default (VStr (js "=")) (VNum 21) in
  _buildMongoQuery
    (orWhere2 (js "temperature") (VNum 21)
       (orWhere2 (js "temperature") (VNum 20)
          (where2 (js "room") (VStr (js "lab")) (table (js "sensors"))))) =
  Ok (<[OR_KEY := MOr [ {[ js "temperature" := w2 ]};
                        {[ js "temperature" := w3 ]} ]]>
        {[ js "room" := MValue w1 ]}) /\
  selects no_regex
    (orWhere2 (js "temperature") (VNum 21)
       (orWhere2 (js "temperature") (VNum 20)
          (where2 (js "room") (VStr (js "lab")) (table (js "sensors")))))
    (reading "65a000000000000000000001" 20) =
  Some (match_eq w1
          (field_of (reading "65a000000000000000000001" 20) (js "room"))
        && (match_eq w2
              (field_of (reading "65a000000000000000000001" 20)
                 (js "temperature"))
            || match_eq w3
                 (field_of (reading "65a000000000000000000001" 20)
                    (js "temperature")))).
Proof.
  apply (or_where_is_anded no_regex (js "sensors") (js "room")
           (js "temperature") (js "temperature")
           (VStr (js "lab")) (VNum 20) (VNum 21)
           (reading "65a000000000000000000001" 20)).
  - reflexivity.
  - reflexivity.
  - reflexivity.
Defined.


(* ================================================================== *)
(** * Terminal methods on a connected driver *)
(* ================================================================== *)

Lemma count_eq (regex_test : list N -> list N -> list N -> bool)
  (q : builder) (w : world) :
  count regex_test q w =
  alert_and_rethrow "CosmosDB count operation" w
    (docs ← collection (collectionName q) w;
     query ← _buildMongoQuery q;
     found ← find_matching regex_test query docs;
     Ok (length found, w)).
Proof. reflexivity. Qed.

Section Terminal.

Variable Number : list N -> float.
Variable NumberToString : float -> list N.
Variable key : list N.
Variable regex_test : list N -> list N -> list N -> bool.
Variable server_sort :
  list N -> Z -> list (gmap (list N) value) -> list (gmap (list N) value).

Hypothesis sort_permutes : forall f dir l, Permutation (server_sort f dir l) l.

Variable w : world.
Variable docs : list (gmap (list N) value).
Hypothesis docs_stored : Forall has_id docs.

Notation get := (get Number NumberToString key regex_test server_sort).
Notation count := (count regex_test).
Notation fmt := (formatted_row Number NumberToString key).

(** The documents of the cursor of a builder, before the projection. *)
Definition cursor_docs (q : builder) (query : gmap (list N) mcond)
  : list (gmap (list N) value) :=
  cursor_limit q
    (cursor_skip q
       (cursor_sort server_sort q
          (List.filter (matches regex_test query) docs))).

Lemma cursor_sort_permutation (q : builder)
  (l : list (gmap (list N) value)) :
  Permutation (cursor_sort server_sort q l) l.
Proof.
  unfold cursor_sort. destruct (orderField q) as [[|c f]|]; try reflexivity.
  apply sort_permutes.
Qed.

Lemma cursor_docs_stored (q : builder) (query : gmap (list N) mcond) :
  Forall has_id (cursor_docs q query).
Proof.
  unfold cursor_docs, cursor_limit, cursor_skip.
  assert (H : Forall has_id
                (cursor_sort server_sort q
                   (List.filter (matches regex_test query) docs))).
  { rewrite List.Forall_forall in *. intros d Hd.
    apply docs_stored.
    eapply Permutation_in in Hd; [|apply cursor_sort_permutation].
    apply filter_In in Hd. apply Hd. }
  destruct (limitCount q) as [n|]; [destruct (n =? 0)%Z|];
    destruct (0 <? offsetCount q)%Z;
    try apply Forall_take; try apply Forall_drop; exact H.
Qed.

(** What [get] returns on a connected driver. *)
Lemma get_rows (q : builder) (query : gmap (list N) mcond) :
  collection (collectionName q) w = Ok docs ->
  _buildMongoQuery q = Ok query -> query_valid query = true ->
  get q w = (Ok (map fmt (cursor_project q (cursor_docs q query))), w).
Proof.
  intros Hc Hq Hv. apply get_ok.
  rewrite (get_try_eq _ _ _ _ _ _ _ docs query) by assumption.
  apply mapM_ok_map. apply List.Forall_forall. intros d Hd.
  apply format_row_ok.
  pose proof (cursor_project_has_id q _ (cursor_docs_stored q query)) as Hp.
  rewrite List.Forall_forall in Hp. apply Hp, Hd.
Qed.

Lemma count_rows (q : builder) (query : gmap (list N) mcond) :
  collection (collectionName q) w = Ok docs ->
  _buildMongoQuery q = Ok query -> query_valid query = true ->
  count q w =
  (Ok (length (List.filter (matches regex_test query) docs)), w).
Proof.
  intros Hc Hq Hv. rewrite count_eq. unfold alert_and_rethrow.
  rewrite Hc, Hq. cbn [mbind result_bind bind].
  unfold find_matching. rewrite Hv. reflexivity.
Qed.

Lemma length_cursor_project (q : builder)
  (l : list (gmap (list N) value)) :
  length (cursor_project q l) = length l.
Proof.
  unfold cursor_project. destruct (bool_decide _); [reflexivity|].
  apply length_map.
Qed.

Lemma head_cursor_project (q : builder)
  (l : list (gmap (list N) value)) :
  head (map fmt (cursor_project q l)) =
  head (map fmt (cursor_project q (firstn 1 l))).
Proof.
  unfold cursor_project. destruct (bool_decide _); destruct l; reflexivity.
Qed.

(** ** [count] *)

(** X8. [count()] ignores [limit] and [skip]: it is the number of matching
    documents, which is also the number of rows [get()] returns when the
    builder has no limit and no offset. *)
Theorem count_ignores_paging (q : builder) (query : gmap (list N) mcond)
  (n k : Z) :
  collection (collectionName q) w = Ok docs ->
  _buildMongoQuery q = Ok query -> query_valid query = true ->
  count (skip k (limit n None q)) w =
  (Ok (length (List.filter (matches regex_test query) docs)), w)
  /\ (limitCount q = None -> offsetCount q = 0%Z ->
      exists rows, get q w = (Ok rows, w) /\
        length rows = length (List.filter (matches regex_test query) docs)).
Proof.
  intros Hc Hq Hv. split.
  - apply count_rows; assumption.
  - intros Hl Ho. eexists. split; [apply get_rows; eassumption|].
    rewrite length_map, length_cursor_project.
    unfold cursor_docs, cursor_limit, cursor_skip. rewrite Hl, Ho.
    cbn [Z.ltb Z.compare].
    apply Permutation_length, cursor_sort_permutation.
Qed.

(** ** [first] *)

(** X9. [first()] resolves to the first row [get()] would return, or to
    [null] when there is none, and leaves the builder with a limit of 1. *)
Theorem first_is_head_of_get (q : builder) (query : gmap (list N) mcond) :
  collection (collectionName q) w = Ok docs ->
  _buildMongoQuery q = Ok query -> query_valid query = true ->
  fst (first Number NumberToString key regex_test server_sort q w) =
  (Ok (head (map fmt (cursor_project q (cursor_docs q query)))), w)
  /\ fst (get q w) =
     Ok (map fmt (cursor_project q (cursor_docs q query)))
  /\ limitCount
       (snd (first Number NumberToString key regex_test server_sort q w))
     = Some 1%Z.
Proof.
  intros Hc Hq Hv. split; [|split].
  - unfold first.
    rewrite (get_rows (limit 1 None q) query) by assumption.
    cbn [fst fmap result_fmap bind]. f_equal. f_equal.
    change (cursor_project (limit 1 None q)) with (cursor_project q).
    rewrite (head_cursor_project q (cursor_docs q query)).
    f_equal. f_equal. f_equal.
    unfold cursor_docs, cursor_limit.
    cbn [limitCount limit set_limit Z.eqb Z.abs Z.to_nat Pos.to_nat
         Pos.iter_op Nat.add].
    change (cursor_skip (set_limit 1 q)) with (cursor_skip q).
    change (cursor_sort server_sort (set_limit 1 q))
      with (cursor_sort server_sort q).
    destruct (limitCount q) as [n|]; [|reflexivity].
    destruct (n =? 0)%Z eqn:En; [reflexivity|].
    apply Z.eqb_neq in En.
    rewrite take_take. f_equal. lia.
  - rewrite (get_rows q query) by assumption. reflexivity.
  - unfold first. destruct (get _ _). reflexivity.
Qed.

(** ** [limit(0)] and [skip] of nothing *)

(** X10. [limit(0)] does not limit and a [skip] of zero or less does not
    skip: [limit(0).skip(k).get()] with [k <= 0] returns the rows of every
    matching document. *)
Theorem zero_limit_is_no_limit (q : builder) (query : gmap (list N) mcond)
  (k : Z) :
  collection (collectionName q) w = Ok docs ->
  _buildMongoQuery q = Ok query -> query_valid query = true ->
  (k <= 0)%Z ->
  get (skip k (limit 0 None q)) w =
  (Ok (map fmt
         (cursor_project q
            (cursor_sort server_sort q
               (List.filter (matches regex_test query) docs)))), w).
Proof.
  intros Hc Hq Hv Hk.
  rewrite (get_rows _ query) by assumption.
  unfold cursor_docs, cursor_limit, cursor_skip.
  cbn [limitCount offsetCount skip limit set_limit set_offset Z.eqb].
  replace (0 <? k)%Z with false by (symmetry; apply Z.ltb_ge; lia).
  reflexivity.
Qed.

(** ** [select] *)

Lemma formatted_row_dom (d : gmap (list N) value) :
  dom (fmt d) = dom d ∪ {[ js "id" ]}.
Proof.
  unfold formatted_row. rewrite dom_union_L, dom_singleton_L. f_equal.
  apply set_eq. intros k. rewrite !elem_of_dom, map_lookup_imap.
  destruct (d !! k); cbn; split; intros [x Hx]; eauto; discriminate.
Qed.

Lemma project_dom (fields : gset (list N)) (d : gmap (list N) value) :
  dom (project fields d) ⊆ fields ∪ {[ ID ]}.
Proof.
  intros k Hk. apply elem_of_dom in Hk as [v Hv].
  unfold project in Hv. apply map_lookup_filter_Some in Hv as [_ Hk].
  cbn [fst] in Hk. set_solver.
Qed.

Lemma filter_plain_fields (names : list (list N)) :
  Forall (fun f => plain_field f = true) names ->
  List.filter (fun f => negb (str_eqb f PROTO)) names = names.
Proof.
  induction 1 as [|f names Hf Hn IH]; [reflexivity|].
  cbn [List.filter]. apply plain_field_spec in Hf as (_ & Hp & _).
  unfold str_eqb at 1. rewrite bool_decide_eq_false_2 by exact Hp.
  cbn [negb]. rewrite IH. reflexivity.
Qed.

(** X11. On a connected driver whose documents have an [_id], and for a
    builder whose filter compiles and is accepted: after [select(fields)]
    with a string other than ['*'] whose comma-separated names, once
    trimmed, are all plain field names (not empty, without a dot or a
    NUL, not starting with a dollar sign, and neither [_id] nor
    [__proto__]), every row of [get()] holds only the selected fields,
    [_id] and [id]. *)
Theorem select_restricts_rows (fields : list N) (q : builder)
  (query : gmap (list N) mcond) :
  collection (collectionName q) w = Ok docs ->
  _buildMongoQuery q = Ok query -> query_valid query = true ->
  fields <> js "*" ->
  Forall (fun f => plain_field f = true) (map trim (split COMMA fields)) ->
  exists rows,
    get (select fields q) w = (Ok rows, w) /\
    Forall (fun row =>
              dom row ⊆ list_to_set (map trim (split COMMA fields))
                        ∪ {[ ID; js "id" ]}) rows.
Proof.
  intros Hc Hq Hv Hf Hplain.
  assert (Hsel : select fields q =
                 set_select (map trim (split COMMA fields)) q).
  { unfold select, str_eqb. rewrite bool_decide_eq_false_2 by exact Hf.
    reflexivity. }
  rewrite Hsel.
  eexists. split; [apply (get_rows _ query); assumption|].
  apply Forall_map.
  unfold cursor_project.
  cbn [_buildProjection selectFields set_select].
  rewrite (filter_plain_fields _ Hplain).
  destruct (bool_decide _) eqn:Hempty.
  - exfalso. apply bool_decide_eq_true in Hempty.
    pose proof (split_nonempty COMMA fields) as Hne.
    destruct (split COMMA fields) as [|p ps]; [contradiction|].
    cbn [map list_to_set] in Hempty. set_solver.
  - apply Forall_map, Forall_forall. intros d _. cbv beta.
    rewrite formatted_row_dom.
    pose proof (project_dom (list_to_set (map trim (split COMMA fields))) d).
    set_solver.
Qed.

(** ** [delete] *)

Lemma collection_store (name : list N)
  (l : list (gmap (list N) value)) (l0 : list (gmap (list N) value)) :
  collection name w = Ok l0 -> collection name (store name l w) = Ok l.
Proof.
  unfold collection, store. destruct (w_db w) as [db|]; [|discriminate].
  intros _. cbn [w_db set_db]. rewrite lookup_insert_eq. reflexivity.
Qed.

Lemma filter_filter_negb {A} (p : A -> bool) (l : list A) :
  List.filter p (List.filter (fun x => negb (p x)) l) = [].
Proof.
  induction l as [|x l IH]; [reflexivity|].
  cbn [List.filter]. destruct (p x) eqn:E; cbn [negb List.filter];
    [exact IH|rewrite E; exact IH].
Qed.

(** X12. [delete()] removes exactly the matching documents: it resolves
    to their number, the collection then holds the other documents in
    their order, and [count()] on the same builder is 0 afterwards. *)
Theorem delete_removes_matching (q : builder)
  (query : gmap (list N) mcond) :
  collection (collectionName q) w = Ok docs ->
  _buildMongoQuery q = Ok query -> query_valid query = true ->
  let rest := List.filter (fun d => negb (matches regex_test query d)) docs in
  let w' := store (collectionName q) rest w in
  delete_ regex_test q w =
  (Ok (length (List.filter (matches regex_test query) docs)), w')
  /\ collection (collectionName q) w' = Ok rest
  /\ count q w' = (Ok 0%nat, w').
Proof.
  intros Hc Hq Hv rest w'.
  assert (Hc' : collection (collectionName q) w' = Ok rest).
  { eapply collection_store, Hc. }
  split; [|split].
  - unfold delete_, alert_and_rethrow. rewrite Hc, Hq.
    cbn [mbind result_bind bind]. unfold find_matching. rewrite Hv.
    reflexivity.
  - exact Hc'.
  - rewrite count_eq. unfold alert_and_rethrow. rewrite Hc', Hq.
    cbn [mbind result_bind bind]. unfold find_matching. rewrite Hv.
    cbn [mbind result_bind bind]. subst rest.
    rewrite filter_filter_negb. reflexivity.
Qed.

End Terminal.

(** X13. Before [connect()], when [this.db] is [null], [get()], [count()]
    and [delete()] fail with a [TypeError], report it once through
    [alert.database.error] under their own name, and change nothing
    else. *)
Theorem terminal_methods_before_connect
  (Number : list N -> float) (NumberToString : float -> list N)
  (key : list N) (regex_test : list N -> list N -> list N -> bool)
  (server_sort : list N -> Z -> list (gmap (list N) value)
                 -> list (gmap (list N) value))
  (q : builder) (w : world) :
  w_db w = None ->
  let e := TypeError "this.db is null" in
  get Number NumberToString key regex_test server_sort q w =
  (Throw e, alert (AlertDatabaseError (js "CosmosDB get operation") e) w)
  /\ count regex_test q w =
     (Throw e, alert (AlertDatabaseError (js "CosmosDB count operation") e) w)
  /\ delete_ regex_test q w =
     (Throw e, alert (AlertDatabaseError (js "CosmosDB delete operation") e) w).
Proof.
  intros Hdb e.
  unfold get, get_try, count, delete_, alert_and_rethrow, collection.
  rewrite Hdb. repeat split.
Qed.

Lemma terminal_methods_before_connect_witness :
  let e := TypeError "this.db is null" in
  get no_Number no_NumberToString key_unset no_regex sample_sort
    (table (js "sensors")) world_offline =
  (Throw e,
   alert (AlertDatabaseError (js "CosmosDB get operation") e) world_offline)
  /\ count no_regex (table (js "sensors")) world_offline =
     (Throw e,
      alert (AlertDatabaseError (js "CosmosDB count operation") e)
        world_offline)
  /\ delete_ no_regex (table (js "sensors")) world_offline =
     (Throw e,
      alert (AlertDatabaseError (js "CosmosDB delete operation") e)
        world_offline).
Proof.
  apply (terminal_methods_before_connect no_Number no_NumberToString
           key_unset no_regex sample_sort (table (js "sensors"))
           world_offline).
  reflexivity.
Defined.

(** ** On the sample collection *)

Lemma count_ignores_paging_witness :
  count no_regex (skip 1 (limit 2 None (table (js "sensors")))) sample_world =
  (Ok (length (List.filter (matches no_regex ∅) sample_readings)),
   sample_world).
Proof.
  apply (count_ignores_paging no_Number no_NumberToString key_unset
           no_regex sample_sort sample_sort_permutation sample_world
           sample_readings sample_readings_stored (table (js "sensors")) ∅
           2 1 sample_collection (build_table _) query_valid_empty).
Defined.

Lemma first_is_head_of_get_witness :
  fst (first no_Number no_NumberToString key_unset no_regex sample_sort
         (table (js "sensors")) sample_world) =
  (Ok (head (map (formatted_row no_Number no_NumberToString key_unset)
               (cursor_project (table (js "sensors"))
                  (cursor_docs no_regex sample_sort sample_readings
                     (table (js "sensors")) ∅)))),
   sample_world).
Proof.
  apply (first_is_head_of_get no_Number no_NumberToString key_unset
           no_regex sample_sort sample_sort_permutation sample_world
           sample_readings sample_readings_stored (table (js "sensors")) ∅
           sample_collection (build_table _) query_valid_empty).
Defined.

Lemma zero_limit_is_no_limit_witness :
  get no_Number no_NumberToString key_unset no_regex sample_sort
    (skip 0 (limit 0 None (table (js "sensors")))) sample_world =
  (Ok (map (formatted_row no_Number no_NumberToString key_unset)
         (cursor_project (table (js "sensors"))
            (cursor_sort sample_sort (table (js "sensors"))
               (List.filter (matches no_regex ∅) sample_readings)))),
   sample_world).
Proof.
  apply (zero_limit_is_no_limit no_Number no_NumberToString key_unset
           no_regex sample_sort sample_sort_permutation sample_world
           sample_readings sample_readings_stored (table (js "sensors")) ∅
           0 sample_collection (build_table _) query_valid_empty).
  lia.
Defined.

Lemma select_restricts_rows_witness :
  exists rows,
    get no_Number no_NumberToString key_unset no_regex sample_sort
      (select (js "temperature, room") (table (js "sensors"))) sample_world
    = (Ok rows, sample_world) /\
    Forall (fun row =>
              dom row ⊆ list_to_set
                          (map trim (split COMMA (js "temperature, room")))
                        ∪ {[ ID; js "id" ]}) rows.
Proof.
  apply (select_restricts_rows no_Number no_NumberToString key_unset
           no_regex sample_sort sample_sort_permutation sample_world
           sample_readings sample_readings_stored (js "temperature, room")
           (table (js "sensors")) ∅
           sample_collection (build_table _) query_valid_empty).
  - discriminate.
  - vm_compute. repeat constructor.
Defined.

Lemma delete_removes_matching_witness :
  let rest :=
    List.filter (fun d => negb (matches no_regex ∅ d)) sample_readings in
  let w' := store (collectionName (table (js "sensors"))) rest sample_world in
  delete_ no_regex (table (js "sensors")) sample_world =
  (Ok (length (List.filter (matches no_regex ∅) sample_readings)), w')
  /\ collection (collectionName (table (js "sensors"))) w' = Ok rest
  /\ count no_regex (table (js "sensors")) w' = (Ok 0%nat, w').
Proof.
  apply (delete_removes_matching no_regex sample_world sample_readings
           (table (js "sensors")) ∅
           sample_collection (build_table _) query_valid_empty).
Defined.


(* ================================================================== *)
(** * More on the codec *)
(* ================================================================== *)

Lemma iv_part_of_ciphertext (iv rest : list N) :
  is_buffer iv -> iv_part (hex_encode iv ++ COLON :: rest) = iv.
Proof.
  intros Hiv. unfold iv_part.
  rewrite split_at_first by apply hex_encode_no_colon, Hiv.
  cbn [hd]. apply hex_decode_encode, Hiv.
Qed.

(** X14. Encryption is not deterministic: under a 32-byte key, two
    different 16-byte initialization vectors give two different
    ciphertexts of the same string, and the vector can be read back from
    the text before the colon. *)
Theorem encrypt_depends_on_iv
  (NumberToString : float -> list N) (key iv iv' x : list N) :
  is_key key -> state_of 4 iv -> state_of 4 iv' -> iv <> iv' ->
  exists c c',
    encrypt NumberToString key iv (VStr x) = Ok (VStr c) /\
    encrypt NumberToString key iv' (VStr x) = Ok (VStr c') /\
    c <> c' /\ iv_part c = iv /\ iv_part c' = iv'.
Proof.
  intros Hk Hiv Hiv' Hne.
  do 2 eexists. split; [|split; [|split; [|split]]].
  - apply encrypt_string; [apply Hk|apply Hiv].
  - apply encrypt_string; [apply Hk|apply Hiv'].
  - intros Heq. apply Hne.
    rewrite <- (iv_part_of_ciphertext iv
                  (hex_encode (cipher_bytes key iv x)) (proj2 Hiv)).
    rewrite Heq. apply iv_part_of_ciphertext, Hiv'.
  - apply iv_part_of_ciphertext, Hiv.
  - apply iv_part_of_ciphertext, Hiv'.
Qed.

(** A second outcome of [crypto.randomBytes(16)]. *)
Definition sample_iv' : list N :=
  hex_decode (js "000102030405060708090a0b0c0d0e0f").

Lemma sample_iv'_state : state_of 4 sample_iv'.
Proof. split; [reflexivity|apply is_buffer_check; reflexivity]. Qed.

Lemma encrypt_depends_on_iv_witness :
  exists c c',
    encrypt no_NumberToString key_unset sample_iv (VStr (js "alice"))
    = Ok (VStr c) /\
    encrypt no_NumberToString key_unset sample_iv' (VStr (js "alice"))
    = Ok (VStr c') /\
    c <> c' /\ iv_part c = sample_iv /\ iv_part c' = sample_iv'.
Proof.
  apply (encrypt_depends_on_iv no_NumberToString key_unset sample_iv
           sample_iv' (js "alice")).
  - exact key_unset_is_key.
  - exact sample_iv_state.
  - exact sample_iv'_state.
  - discriminate.
Defined.

(** X15. What [_decryptRow] leaves alone: it never throws, it keeps the
    keys of the row, and it returns unchanged the property [_id], every
    value that is not a string, every string without a colon and every
    string that [decrypt] returns unchanged. *)
Theorem decryptRow_leaves_alone
  (Number : list N -> float) (key : list N) (row : gmap (list N) value) :
  exists row',
    _decryptRow Number key row = Ok row' /\
    dom row' = dom row /\
    forall k v,
      row !! k = Some v ->
      k = ID \/ is_string v = false \/
      (exists s, v = VStr s /\
         (includes COLON s = false \/ decrypt key v = Ok v)) ->
      row' !! k = Some v.
Proof.
  destruct (_decryptRow_ok Number key row) as (row' & Hrow & Hlook).
  exists row'. split; [exact Hrow|]. split.
  - apply set_eq. intros k. rewrite !elem_of_dom, Hlook.
    destruct (row !! k); cbn; split; intros [x Hx]; eauto; discriminate.
  - intros k v Hk Hcase. rewrite Hlook, Hk.
    cbn [fmap option_fmap option_map]. f_equal.
    destruct Hcase as [-> | [Hv | (s & -> & [Hc | Hd])]].
    + reflexivity.
    + apply decrypted_value_other, Hv.
    + apply decrypted_value_unchanged. simpl. rewrite Hc. reflexivity.
    + apply decrypted_value_unchanged, Hd.
Qed.


(* ================================================================== *)
(** * Encrypting and decrypting rows *)
(* ================================================================== *)

Lemma utf8_bytes_length (cp : N) : (1 <= length (utf8_bytes cp))%nat.
Proof.
  unfold utf8_bytes.
  destruct (cp <? 0x80); [simpl; lia|].
  destruct (cp <? 0x800); [simpl; lia|].
  destruct (cp <? 0x10000); simpl; lia.
Qed.

Lemma utf8_bytes_length_pair (cp : N) :
  0x10000 <= cp -> length (utf8_bytes cp) = 4%nat.
Proof.
  intros H. unfold utf8_bytes.
  destruct (N.ltb_spec cp 0x80); [lia|].
  destruct (N.ltb_spec cp 0x800); [lia|].
  destruct (N.ltb_spec cp 0x10000); [lia|reflexivity].
Qed.

(** The encoder writes at least one byte for each code unit. *)
Lemma utf8_encode_length (s : list N) :
  (length s <= length (utf8_encode s))%nat.
Proof.
  remember (length s) as n eqn:Hn. revert s Hn.
  induction n as [n IH] using lt_wf_ind. intros s ->.
  destruct s as [|u t]; [simpl; lia|].
  unfold utf8_encode. cbn [code_points].
  assert (Ht : (length t <= length (utf8_encode t))%nat)
    by (apply (IH (length t)); [simpl; lia|reflexivity]).
  unfold utf8_encode in Ht.
  destruct (is_high u) eqn:Hh.
  - destruct t as [|v t'].
    + simpl. lia.
    + destruct (is_low v) eqn:Hl.
      * cbn [flat_map]. rewrite length_app.
        rewrite utf8_bytes_length_pair by lia.
        assert (Ht' : (length t' <= length (utf8_encode t'))%nat)
          by (apply (IH (length t')); [simpl; lia|reflexivity]).
        unfold utf8_encode in Ht'. simpl. lia.
      * cbn [flat_map]. rewrite length_app.
        pose proof (utf8_bytes_length 0xFFFD). simpl in *. lia.
  - destruct (is_low u).
    + cbn [flat_map]. rewrite length_app.
      pose proof (utf8_bytes_length 0xFFFD). simpl in *. lia.
    + cbn [flat_map]. rewrite length_app.
      pose proof (utf8_bytes_length u). simpl in *. lia.
Qed.

Lemma cipher_bytes_length (key iv x : list N) :
  is_key key -> state_of 4 iv -> Forall (fun u => u < 0x10000) x ->
  (length x < length (cipher_bytes key iv x))%nat.
Proof.
  intros Hk Hiv Hx. unfold cipher_bytes, cipher_run. simpl.
  pose proof (utf8_encode_buffer x Hx) as Hb.
  destruct (pkcs7_pad_blocks (utf8_encode x)) as [Hm _].
  rewrite cbc_encrypt_length.
  - rewrite pkcs7_pad_length.
    pose proof (pad_count_range (utf8_encode x)).
    pose proof (utf8_encode_length x). lia.
  - intros b. apply AESFacts.encrypt_block_state, Hk.
  - exact Hiv.
  - apply pkcs7_pad_buffer, Hb.
  - exact Hm.
Qed.

(** A ciphertext is longer than the string it encrypts. *)
Lemma ciphertext_differs (key iv x : list N) :
  is_key key -> state_of 4 iv -> Forall (fun u => u < 0x10000) x ->
  x <> hex_encode iv ++ COLON :: hex_encode (cipher_bytes key iv x).
Proof.
  intros Hk Hiv Hx Heq. apply (f_equal (@length N)) in Heq.
  rewrite length_app in Heq. cbn [length] in Heq.
  rewrite !hex_encode_length in Heq.
  pose proof (cipher_bytes_length key iv x Hk Hiv Hx). lia.
Qed.

Lemma encrypt_value (NumberToString : float -> list N)
  (key iv : list N) (v : value) :
  is_key key -> state_of 4 iv -> is_nullish v = false ->
  encrypt NumberToString key iv v =
  Ok (VStr (hex_encode iv ++ COLON ::
            hex_encode (cipher_bytes key iv (String_ NumberToString v)))).
Proof.
  intros Hk Hiv Hv. unfold encrypt.
  rewrite (createCipheriv_ok key iv (proj1 Hk) (proj1 Hiv)).
  destruct v; try discriminate; reflexivity.
Qed.

Section RowRoundTrip.

Variable Number : list N -> float.
Variable NumberToString : float -> list N.
Variable key : list N.
Variable toLowerCase : list N -> list N.
Variable ivs : list N -> list N.

Hypothesis key_ok : is_key key.
Hypothesis ivs_ok : forall k, state_of 4 (ivs k).

(** The value [_encryptData] stores in a property. *)
Definition encrypted_value (k : list N) (v : value) : value :=
  if is_sensitive toLowerCase k && negb (is_nullish v)
  then VStr (hex_encode (ivs k) ++ COLON ::
             hex_encode (cipher_bytes key (ivs k)
                           (String_ NumberToString v)))
  else v.

Lemma _encryptData_ok (data : gmap (list N) value) :
  exists stored,
    _encryptData NumberToString key toLowerCase ivs data = Ok stored /\
    forall k, stored !! k = encrypted_value k <$> data !! k.
Proof.
  apply obj_mapM_ok. intros k v _. unfold encrypted_value.
  destruct (is_sensitive toLowerCase k); [|reflexivity].
  destruct (is_nullish v) eqn:Hv.
  - destruct v; try discriminate; reflexivity.
  - apply encrypt_value; [exact key_ok|apply ivs_ok|exact Hv].
Qed.

Lemma decrypted_encrypted_value (k : list N) (v : value) :
  k <> ID -> is_sensitive toLowerCase k = true -> is_nullish v = false ->
  well_formed (String_ NumberToString v) = true ->
  decrypted_value Number key k (encrypted_value k v) =
  if PrimFloat.is_nan (Number (String_ NumberToString v))
  then VStr (String_ NumberToString v)
  else VNum (Number (String_ NumberToString v)).
Proof.
  intros Hk Hs Hv Hwf. unfold encrypted_value. rewrite Hs, Hv. cbn [andb negb].
  apply decrypted_value_changed.
  - exact Hk.
  - apply decrypt_ciphertext; [exact key_ok|apply ivs_ok|exact Hwf].
  - apply ciphertext_differs;
      [exact key_ok|apply ivs_ok|apply well_formed_units, Hwf].
Qed.

End RowRoundTrip.

(** X16. A row written through [_encryptData] and read back through
    [_decryptRow], for a dictionary of fields (one without an own
    [__proto__] key), under a 32-byte key and 16-byte initialization
    vectors. A property whose name is not sensitive is stored as it is.
    A sensitive property other than [_id] that holds neither [null] nor
    [undefined], and whose text [String(v)] is well formed (each of its
    surrogates is half of a pair), is stored as a different string, and
    comes back as the string [String(v)] of its value [v], or as the
    number [Number(String(v))] when that is not [NaN]; so a numeric
    string does not come back as a string. *)
Theorem encrypted_row_roundtrip
  (Number : list N -> float) (NumberToString : float -> list N)
  (key : list N) (toLowerCase : list N -> list N) (ivs : list N -> list N)
  (data : gmap (list N) value) :
  is_key key -> (forall k, state_of 4 (ivs k)) -> data !! PROTO = None ->
  exists stored row,
    _encryptData NumberToString key toLowerCase ivs data = Ok stored /\
    _decryptRow Number key stored = Ok row /\
    (forall k v,
       data !! k = Some v -> is_sensitive toLowerCase k = false ->
       stored !! k = Some v) /\
    (forall k v,
       data !! k = Some v -> is_sensitive toLowerCase k = true ->
       k <> ID -> is_nullish v = false ->
       well_formed (String_ NumberToString v) = true ->
       (exists c, stored !! k = Some (VStr c) /\
                  c <> String_ NumberToString v) /\
       row !! k =
       Some (if PrimFloat.is_nan (Number (String_ NumberToString v))
             then VStr (String_ NumberToString v)
             else VNum (Number (String_ NumberToString v)))).
Proof.
  intros Hk Hiv _.
  destruct (_encryptData_ok NumberToString key toLowerCase ivs Hk Hiv data)
    as (stored & Hs & Hstored).
  destruct (_decryptRow_ok Number key stored) as (row & Hr & Hrow).
  exists stored, row. split; [exact Hs|]. split; [exact Hr|]. split.
  - intros k v Hd Hn. rewrite Hstored, Hd. cbn.
    unfold encrypted_value. rewrite Hn. reflexivity.
  - intros k v Hd Hsens Hid Hv Hwf. split.
    + eexists. split.
      * rewrite Hstored, Hd. cbn. unfold encrypted_value.
        rewrite Hsens, Hv. reflexivity.
      * intros Heq. symmetry in Heq. revert Heq.
        apply ciphertext_differs;
          [exact Hk|apply Hiv|apply well_formed_units, Hwf].
    + rewrite Hrow, Hstored, Hd. cbn. f_equal.
      apply decrypted_encrypted_value; assumption.
Qed.

(** [toLowerCase] on the letters A to Z. *)
Definition lower_ascii (s : list N) : list N :=
  map (fun c => if (65 <=? c) && (c <=? 90) then c + 32 else c) s.

Definition sample_user : gmap (list N) value :=
  <[js "userName" := VStr (js "alice")]>
    (<[js "age" := VStr (js "42")]> ∅).

Lemma encrypted_row_roundtrip_witness :
  exists stored row,
    _encryptData no_NumberToString key_unset lower_ascii
      (fun _ => sample_iv) sample_user = Ok stored /\
    _decryptRow no_Number key_unset stored = Ok row /\
    stored !! js "age" = Some (VStr (js "42")) /\
    row !! js "userName" = Some (VStr (js "alice")).
Proof.
  destruct (encrypted_row_roundtrip no_Number no_NumberToString key_unset
              lower_ascii (fun _ => sample_iv) sample_user
              key_unset_is_key (fun _ => sample_iv_state) eq_refl)
    as (stored & row & Hs & Hr & Hplain & Hsens).
  exists stored, row. split; [exact Hs|]. split; [exact Hr|]. split.
  - apply Hplain; vm_compute; reflexivity.
  - destruct (Hsens (js "userName") (VStr (js "alice"))) as [_ H].
    + vm_compute. reflexivity.
    + vm_compute. reflexivity.
    + discriminate.
    + reflexivity.
    + vm_compute. reflexivity.
    + exact H.
Defined.


(* ================================================================== *)
(** * [validate] *)
(* ================================================================== *)

(** The rules of [validate] in their own words. *)

(** [hay] holds [needle] somewhere. *)
Definition contains (needle hay : list N) : Prop :=
  exists before after, hay = before ++ needle ++ after.

(** What [required] refuses: [undefined], [null] and the empty string. *)
Definition absent (p : property) : Prop :=
  p = Held VUndefined \/ p = Held VNull \/ p = Held (VStr []).

(** The falsy values: [undefined], [null], [false], the empty string, 0
    and NaN. *)
Definition falsy (p : property) : Prop :=
  p = Held VUndefined \/ p = Held VNull \/ p = Held (VBool false) \/
  p = Held (VStr []) \/
  exists x, p = Held (VNum x) /\
            (PrimFloat.is_nan x = true \/ PrimFloat.eqb x 0 = true).

(** The shape of an address: no white space, and an [@] with text before
    it, followed by text, a dot and text. *)
Definition address (s : list N) : Prop :=
  (forall c, In c s -> is_space c = false) /\
  exists a b c, a <> [] /\ b <> [] /\ c <> [] /\ s = a ++ AT :: b ++ DOT :: c.

Section ValidateFacts.

Variable NumberToString : float -> list N.
Variable data : gmap (list N) value.

(** What a rule asks of what [data[field]] reads. *)
Definition rule_holds (field rule : list N) : Prop :=
  let p := get_property data field in
  (contains (js "required") rule -> ~ absent p) /\
  (contains (js "email") rule ->
   falsy p \/ exists v, p = Held v /\ address (String_ NumberToString v)).

Lemma is_prefix_spec (p s : list N) :
  is_prefix p s = true <-> exists after, s = p ++ after.
Proof.
  revert s. induction p as [|x p IH]; intros s; cbn [is_prefix].
  - split; [intros _; exists s; reflexivity|reflexivity].
  - destruct s as [|y s].
    + split; [discriminate|intros [a H]; discriminate].
    + rewrite andb_true_iff, N.eqb_eq, IH. split.
      * intros [-> [a ->]]. exists a. reflexivity.
      * intros [a [= -> ->]]. split; [reflexivity|exists a; reflexivity].
Qed.

Lemma str_includes_spec (needle hay : list N) :
  str_includes needle hay = true <-> contains needle hay.
Proof.
  unfold contains. induction hay as [|y hay IH]; cbn [str_includes].
  - rewrite orb_false_r, is_prefix_spec. split.
    + intros [a H]. exists [], a. exact H.
    + intros (b & a & H). destruct b; [exists a; exact H|discriminate].
  - rewrite orb_true_iff, is_prefix_spec, IH. split.
    + intros [[a H] | (b & a & H)].
      * exists [], a. exact H.
      * exists (y :: b), a. rewrite H. reflexivity.
    + intros (b & a & H). destruct b as [|z b].
      * left. exists a. exact H.
      * right. injection H as -> H. exists b, a. exact H.
Qed.

Lemma missing_property_spec (p : property) :
  missing_property p = true <-> absent p.
Proof.
  unfold absent. destruct p as [v|]; cbn [missing_property].
  - destruct v as [| | | |s| |]; cbn [missing];
      try (split; [discriminate|intros [H|[H|H]]; discriminate]);
      try (split; [auto|reflexivity]).
    destruct s.
    + split; [auto|reflexivity].
    + split; [discriminate|intros [H|[H|H]]; discriminate].
  - split; [discriminate|intros [H|[H|H]]; discriminate].
Qed.

Lemma truthy_property_spec (p : property) :
  truthy_property p = false <-> falsy p.
Proof.
  unfold falsy. destruct p as [v|]; cbn [truthy_property].
  - destruct v as [| |b|x|s| |]; cbn [truthy].
    + split; [auto|reflexivity].
    + split; [auto|reflexivity].
    + destruct b.
      * split; [discriminate|].
        intros [H|[H|[H|[H|(x & H & _)]]]]; discriminate.
      * split; [auto 6|reflexivity].
    + rewrite negb_false_iff, orb_true_iff. split.
      * intros H. right. right. right. right. exists x. auto.
      * intros [H|[H|[H|[H|(y & [= <-] & H)]]]]; try discriminate.
        exact H.
    + destruct s.
      * split; [auto 6|reflexivity].
      * cbn. split; [discriminate|].
        intros [H|[H|[H|[H|(x & H & _)]]]]; discriminate.
    + split; [discriminate|].
      intros [H|[H|[H|[H|(x & H & _)]]]]; discriminate.
    + split; [discriminate|].
      intros [H|[H|[H|[H|(x & H & _)]]]]; discriminate.
  - split; [discriminate|].
    intros [H|[H|[H|[H|(x & H & _)]]]]; discriminate.
Qed.

Lemma dot_inside_spec (s : list N) :
  dot_inside s = true <->
  exists b c, b <> [] /\ c <> [] /\ s = b ++ DOT :: c.
Proof.
  induction s as [|x s IH].
  - split; [discriminate|]. intros (b & c & Hb & _ & H).
    destruct b; discriminate.
  - destruct s as [|c [|y r]].
    + split; [discriminate|]. intros (b & c & Hb & Hc & H).
      destruct b as [|z [|z' b]]; try contradiction; discriminate.
    + split; [discriminate|]. intros (b & c0 & Hb & Hc & H).
      destruct b as [|z [|z' [|z'' b]]]; try contradiction;
        try discriminate.
      injection H as _ _ H. subst c0. contradiction.
    + change (dot_inside (x :: c :: y :: r))
        with ((c =? DOT) || dot_inside (c :: y :: r)).
      rewrite orb_true_iff, N.eqb_eq, IH. split.
      * intros [-> | (b & c0 & Hb & Hc & H)].
        -- exists [x], (y :: r). repeat split; discriminate.
        -- exists (x :: b), c0. rewrite H.
           repeat split; [discriminate|exact Hc].
      * intros (b & c0 & Hb & Hc & H).
        destruct b as [|z b]; [contradiction|]. injection H as -> H.
        destruct b as [|z' b].
        -- injection H as -> _. left. reflexivity.
        -- right. exists (z' :: b), c0.
           repeat split; [discriminate|exact Hc|exact H].
Qed.

Lemma at_inside_spec (s : list N) :
  at_inside s = true <->
  exists a b c,
    a <> [] /\ b <> [] /\ c <> [] /\ s = a ++ AT :: b ++ DOT :: c.
Proof.
  induction s as [|x s IH].
  - split; [discriminate|]. intros (a & b & c & Ha & _ & _ & H).
    destruct a; discriminate.
  - destruct s as [|c t].
    + split; [discriminate|]. intros (a & b & c & Ha & _ & _ & H).
      destruct a as [|z [|z' a]]; try contradiction; discriminate.
    + change (at_inside (x :: c :: t))
        with (((c =? AT) && dot_inside t) || at_inside (c :: t)).
      rewrite orb_true_iff, andb_true_iff, N.eqb_eq, dot_inside_spec, IH.
      split.
      * intros [[-> (b & c0 & Hb & Hc & ->)] | (a & b & c0 & Ha & Hb & Hc & H)].
        -- exists [x], b, c0. repeat split; try assumption. discriminate.
        -- exists (x :: a), b, c0. rewrite H.
           repeat split; try assumption. discriminate.
      * intros (a & b & c0 & Ha & Hb & Hc & H).
        destruct a as [|z a]; [contradiction|]. injection H as -> H.
        destruct a as [|z' a].
        -- injection H as -> ->. left. split; [reflexivity|].
           exists b, c0. auto.
        -- right. exists (z' :: a), b, c0.
           repeat split; try assumption. discriminate.
Qed.

Lemma email_test_spec (s : list N) : email_test s = true <-> address s.
Proof.
  unfold email_test, address.
  rewrite andb_true_iff, at_inside_spec, List.forallb_forall.
  split; intros [H1 H2]; (split; [|exact H2]); intros c Hc.
  - apply negb_true_iff, H1, Hc.
  - apply negb_true_iff, H1, Hc.
Qed.

Lemma email_property_spec (p : property) :
  email_property NumberToString p = true <->
  exists v, p = Held v /\ address (String_ NumberToString v).
Proof.
  destruct p as [v|]; cbn [email_property].
  - rewrite email_test_spec. split.
    + intros H. exists v. auto.
    + intros (v' & [= <-] & H). exact H.
  - split; [discriminate|intros (v & H & _); discriminate].
Qed.

Lemma check_rule_None (field rule : list N) :
  check_rule NumberToString data field rule = None <-> rule_holds field rule.
Proof.
  unfold check_rule, rule_holds. cbv zeta.
  rewrite <- !str_includes_spec, <- missing_property_spec,
    <- truthy_property_spec, <- email_property_spec.
  destruct (str_includes (js "required") rule);
    destruct (missing_property (get_property data field));
    destruct (str_includes (js "email") rule);
    destruct (truthy_property (get_property data field));
    destruct (email_property NumberToString (get_property data field));
    cbn [andb negb]; split;
    solve [ discriminate
          | intros _; split; intros; solve [auto | discriminate]
          | intros [H1 H2]; first
              [ reflexivity
              | exfalso; apply (H1 eq_refl); reflexivity
              | destruct (H2 eq_refl); discriminate ] ].
Qed.

Lemma check_rule_Some (field rule message : list N) :
  check_rule NumberToString data field rule = Some message <->
  ~ rule_holds field rule /\
  ((contains (js "required") rule /\ absent (get_property data field)) /\
   message = field ++ js " is required" \/
   ~ (contains (js "required") rule /\ absent (get_property data field)) /\
   message = field ++ js " must be a valid email").
Proof.
  rewrite <- check_rule_None. unfold check_rule. cbv zeta.
  rewrite <- str_includes_spec, <- missing_property_spec.
  destruct (str_includes (js "required") rule);
    destruct (missing_property (get_property data field)); cbn [andb].
  - split.
    + intros [= <-]. split; [discriminate|]. left. auto.
    + intros [_ [[_ ->] | [H _]]]; [reflexivity|]. exfalso. apply H. auto.
  - destruct (_ && _ && _).
    + split.
      * intros [= <-]. split; [discriminate|]. right.
        split; [intros [_ H]; discriminate|reflexivity].
      * intros [_ [[[_ H] _] | [_ ->]]]; [discriminate|reflexivity].
    + split; [discriminate|]. intros [H _]. contradiction.
  - destruct (_ && _ && _).
    + split.
      * intros [= <-]. split; [discriminate|]. right.
        split; [intros [H _]; discriminate|reflexivity].
      * intros [_ [[[H _] _] | [_ ->]]]; [discriminate|reflexivity].
    + split; [discriminate|]. intros [H _]. contradiction.
  - destruct (_ && _ && _).
    + split.
      * intros [= <-]. split; [discriminate|]. right.
        split; [intros [H _]; discriminate|reflexivity].
      * intros [_ [[[H _] _] | [_ ->]]]; [discriminate|reflexivity].
    + split; [discriminate|]. intros [H _]. contradiction.
Qed.

Lemma validate_None (rules : list (list N * list N)) :
  validate NumberToString data rules = None <->
  Forall (fun r => check_rule NumberToString data r.1 r.2 = None) rules.
Proof.
  induction rules as [|[field rule] rest IH]; cbn [validate].
  - split; [constructor|reflexivity].
  - rewrite List.Forall_cons_iff. cbn [fst snd].
    destruct (check_rule NumberToString data field rule).
    + split; [discriminate|intros [H _]; discriminate].
    + rewrite IH. tauto.
Qed.

Lemma validate_Some (rules : list (list N * list N)) (message : list N) :
  validate NumberToString data rules = Some message <->
  exists passing field rule rest,
    rules = passing ++ (field, rule) :: rest /\
    validate NumberToString data passing = None /\
    check_rule NumberToString data field rule = Some message.
Proof.
  induction rules as [|[field rule] rest IH]; cbn [validate].
  - split; [discriminate|].
    intros (p & f & r & t & H & _). destruct p; discriminate.
  - destruct (check_rule NumberToString data field rule) as [m|] eqn:E.
    + split.
      * intros [= <-]. exists [], field, rule, rest. auto.
      * intros (p & f & r & t & H & Hp & Hc).
        destruct p as [|[f0 r0] p].
        -- injection H as <- <- <-. congruence.
        -- injection H as <- <- ->. cbn [validate] in Hp.
           rewrite E in Hp. discriminate.
    + rewrite IH. split.
      * intros (p & f & r & t & -> & Hp & Hc).
        exists ((field, rule) :: p), f, r, t.
        split; [reflexivity|]. split; [|exact Hc].
        cbn [validate]. rewrite E. exact Hp.
      * intros (p & f & r & t & H & Hp & Hc).
        destruct p as [|[f0 r0] p].
        -- injection H as <- <- <-. congruence.
        -- injection H as <- <- ->. cbn [validate] in Hp.
           rewrite E in Hp. exists p, f, r, t. auto.
Qed.

Lemma validate_None_rules (rules : list (list N * list N)) :
  validate NumberToString data rules = None <->
  forall field rule, In (field, rule) rules -> rule_holds field rule.
Proof.
  rewrite validate_None, List.Forall_forall. split.
  - intros H field rule Hin. apply check_rule_None. apply (H _ Hin).
  - intros H [field rule] Hin. apply check_rule_None, H, Hin.
Qed.

End ValidateFacts.

(** X17. [validate] returns without throwing exactly when every rule
    holds of what [data[field]] reads, a field of [data] or else a member
    that [data] inherits from [Object.prototype]. A rule whose text
    contains [required] asks that this is not [undefined], [null] or the
    empty string, so that [0] and [false] pass, and an inherited member
    passes. A rule whose text contains [email] asks, unless this is falsy
    ([undefined], [null], [false], the empty string, 0 or NaN), that it
    is a value whose text has the shape of an address: no white space,
    and an [@] with text before it, followed by text, a dot and text; an
    inherited member does not pass. *)
Theorem validate_passes (NumberToString : float -> list N)
  (data : gmap (list N) value) (rules : list (list N * list N)) :
  validate NumberToString data rules = None <->
  forall field rule,
    In (field, rule) rules -> rule_holds NumberToString data field rule.
Proof. apply validate_None_rules. Qed.

(** X18. [validate] throws for the first rule, in the order of the rules
    object, that does not hold, and for that rule [required] is checked
    before [email]: the message is the field followed by [is required]
    when the rule contains [required] and the field reads [undefined],
    [null] or the empty string, and the field followed by
    [must be a valid email] otherwise. *)
Theorem validate_reports_first_failure (NumberToString : float -> list N)
  (data : gmap (list N) value) (rules : list (list N * list N))
  (message : list N) :
  validate NumberToString data rules = Some message <->
  exists passing field rule rest,
    rules = passing ++ (field, rule) :: rest /\
    (forall f r, In (f, r) passing -> rule_holds NumberToString data f r) /\
    ~ rule_holds NumberToString data field rule /\
    ((contains (js "required") rule /\ absent (get_property data field)) /\
     message = field ++ js " is required" \/
     ~ (contains (js "required") rule /\ absent (get_property data field)) /\
     message = field ++ js " must be a valid email").
Proof.
  rewrite validate_Some. split.
  - intros (p & f & r & t & -> & Hp & Hc). exists p, f, r, t.
    split; [reflexivity|]. split; [apply validate_None_rules, Hp|].
    apply check_rule_Some, Hc.
  - intros (p & f & r & t & -> & Hp & Hn & Hm). exists p, f, r, t.
    split; [reflexivity|]. split; [apply validate_None_rules, Hp|].
    apply check_rule_Some. auto.
Qed.

(** What [validate] does on the names every object inherits: with no
    data at all, [toString] passes [required], [constructor] fails
    [email], and [0] passes [required]. *)
Lemma validate_on_inherited_names :
  validate no_NumberToString ∅ [(js "toString", js "required")] = None /\
  validate no_NumberToString ∅ [(js "constructor", js "email")] =
  Some (js "constructor must be a valid email") /\
  validate no_NumberToString {[ js "count" := VNum 0 ]}
    [(js "count", js "required|email")] = None /\
  validate no_NumberToString {[ js "mail" := VStr (js "a@b.c") ]}
    [(js "mail", js "required|email"); (js "name", js "required")] =
  Some (js "name is required").
Proof. repeat split; vm_compute; reflexivity. Qed.


(* ================================================================== *)
(** * Filters on [_id] *)
(* ================================================================== *)

Lemma compile_filters_id (m : gmap (list N) fentry) (e : fentry)
  (main : gmap (list N) mcond) :
  m !! ID = None ->
  obj_omapM compile_filter m = Ok main ->
  obj_omapM compile_filter (<[ID := e]> m) = Ok main.
Proof.
  intros Hnone Hm. apply obj_omapM_inv in Hm as [Hok ->].
  rewrite obj_omapM_eq.
  2:{ intros k v Hk. destruct (decide (ID = k)) as [<-|Hne].
      - exists None. apply compile_filter_id.
      - rewrite lookup_insert_ne in Hk by exact Hne. apply (Hok k v Hk). }
  f_equal. apply map_eq. intros k. rewrite !map_lookup_imap.
  destruct (decide (ID = k)) as [<-|Hne].
  - rewrite lookup_insert_eq, Hnone. cbn [mbind option_bind].
    rewrite compile_filter_id. reflexivity.
  - rewrite lookup_insert_ne by exact Hne. reflexivity.
Qed.

(** X19. A filter on [_id] is skipped when the filter document is built
    and is handled nowhere else: adding one to a builder changes neither
    the filter document nor what [count()] and [delete()] do, so
    [delete()] on a builder filtered by [_id] alone empties the
    collection. *)
Theorem id_filter_is_ignored
  (regex_test : list N -> list N -> list N -> bool)
  (q : builder) (e : fentry) (mq : gmap (list N) mcond) (w : world) :
  filters q !! ID = None -> _buildMongoQuery q = Ok mq ->
  _buildMongoQuery (set_filter ID e q) = Ok mq /\
  count regex_test (set_filter ID e q) w = count regex_test q w /\
  delete_ regex_test (set_filter ID e q) w = delete_ regex_test q w.
Proof.
  intros Hnone Hq.
  assert (Hb : _buildMongoQuery (set_filter ID e q) = Ok mq).
  { rewrite build_eq in *.
    change (filters (set_filter ID e q)) with (<[ID := e]> (filters q)).
    change (add_or (set_filter ID e q)) with (add_or q).
    destruct (obj_omapM compile_filter (filters q)) as [main|x] eqn:Hm;
      [|discriminate].
    rewrite (compile_filters_id _ e main Hnone Hm). exact Hq. }
  split; [exact Hb|].
  rewrite !count_eq. unfold delete_.
  change (collectionName (set_filter ID e q)) with (collectionName q).
  rewrite Hb, Hq. split; reflexivity.
Qed.

Lemma filter_none {A} (p : A -> bool) (l : list A) :
  (forall x, p x = false) -> List.filter p l = [].
Proof.
  intros H. induction l as [|x l IH]; [reflexivity|].
  cbn [List.filter]. rewrite H, IH. reflexivity.
Qed.

(** [delete()] on a builder without filters empties the collection. *)
Lemma delete_table (regex_test : list N -> list N -> list N -> bool)
  (name : list N) (w : world) (docs : list (gmap (list N) value)) :
  collection name w = Ok docs ->
  delete_ regex_test (table name) w = (Ok (length docs), store name [] w).
Proof.
  intros Hc. unfold delete_, alert_and_rethrow.
  change (collectionName (table name)) with name.
  rewrite Hc, build_table. cbn [mbind result_bind bind].
  unfold find_matching. rewrite query_valid_empty.
  cbn [mbind result_bind bind].
  rewrite filter_all by apply matches_empty.
  rewrite filter_none by (intros d; rewrite matches_empty; reflexivity).
  reflexivity.
Qed.

Lemma id_filter_is_ignored_witness :
  delete_ no_regex
    (where2 ID (VObjectId (js "01")) (table (js "sensors"))) sample_world =
  (Ok (length sample_readings), store (js "sensors") [] sample_world).
Proof.
  unfold where2.
  destruct (id_filter_is_ignored no_regex (table (js "sensors"))
              (Cond (VStr (js "="))
                 (or_default (VStr (js "=")) (VObjectId (js "01"))))
              ∅ sample_world) as (_ & _ & ->).
  - reflexivity.
  - apply build_table.
  - apply delete_table. exact sample_collection.
Defined.

(* ================================================================== *)
(** * The legacy write methods *)
(* ================================================================== *)

Lemma where_object_empty (q : builder) : where_object ∅ q = q.
Proof.
  destruct q as [n fs ors f dir l k sel [|]];
    unfold where_object, set_filters, set_detached; cbn.
  - rewrite (left_id ∅ (∪)). reflexivity.
  - rewrite delete_empty, lookup_empty, (left_id ∅ (∪)). reflexivity.
Qed.

Section LegacyFacts.

Variable NumberToString : float -> list N.
Variable key : list N.
Variable regex_test : list N -> list N -> list N -> bool.
Variable toLowerCase : list N -> list N.
Variable match_condition : list N -> option (list N * list N).

Lemma parse_conditions_no_params (conditions : list (list N))
  (filters : gmap (list N) fentry) :
  parse_conditions toLowerCase match_condition conditions [] filters
  = filters.
Proof.
  induction conditions as [|c conditions IH]; [reflexivity|].
  cbn [parse_conditions]. destruct (match_condition c) as [[f o]|]; exact IH.
Qed.

Lemma _parseWhereClause_empty (whereClause : list N)
  (whereParams : list value) :
  whereClause = [] \/ whereParams = [] ->
  _parseWhereClause toLowerCase match_condition whereClause whereParams = ∅.
Proof.
  intros [-> | ->]; [reflexivity|].
  unfold _parseWhereClause. destruct whereClause; [reflexivity|].
  apply parse_conditions_no_params.
Qed.

End LegacyFacts.

(** X20. [deleteData] without a where clause, or with a where clause but
    no parameters, deletes every document of the collection: a condition
    is kept only while parameters are left. *)
Theorem deleteData_without_parameters
  (regex_test : list N -> list N -> list N -> bool)
  (toLowerCase : list N -> list N)
  (match_condition : list N -> option (list N * list N))
  (collectionName whereClause : list N) (whereParams : list value)
  (w : world) (docs : list (gmap (list N) value)) :
  collection collectionName w = Ok docs ->
  whereClause = [] \/ whereParams = [] ->
  deleteData regex_test toLowerCase match_condition collectionName
    whereClause whereParams w =
  (Ok (length docs), store collectionName [] w).
Proof.
  intros Hc He. unfold deleteData.
  rewrite (_parseWhereClause_empty toLowerCase match_condition _ _ He).
  rewrite where_object_empty, (delete_table regex_test _ w docs Hc).
  reflexivity.
Qed.

(** A matcher for the condition pattern, for conditions of the shape
    [field operator ?]. *)
Definition sample_match (condition : list N) : option (list N * list N) :=
  match split_spaces condition with
  | [field; operator; _] => Some (field, operator)
  | _ => None
  end.

Lemma deleteData_without_parameters_witness :
  deleteData no_regex lower_ascii sample_match (js "sensors")
    (js "room = ?") [] sample_world =
  (Ok (length sample_readings), store (js "sensors") [] sample_world).
Proof.
  apply (deleteData_without_parameters no_regex lower_ascii sample_match
           (js "sensors") (js "room = ?") [] sample_world sample_readings).
  - exact sample_collection.
  - right. reflexivity.
Defined.


(* ================================================================== *)
(** * [update] and [updateData] *)
(* ================================================================== *)

Definition UPDATED_AT : list N := js "updated_at".
Definition CREATED_AT : list N := js "created_at".


Section UpdateFacts.

Variable NumberToString : float -> list N.
Variable key : list N.
Variable regex_test : list N -> list N -> list N -> bool.
Variable toLowerCase : list N -> list N.
Variable ivs : list N -> list N.

Hypothesis key_ok : is_key key.
Hypothesis ivs_ok : forall k, state_of 4 (ivs k).

Notation encrypted := (encrypted_value NumberToString key toLowerCase ivs).

Lemma _encryptData_eq (data : gmap (list N) value) :
  _encryptData NumberToString key toLowerCase ivs data =
  Ok (map_imap (fun k v => Some (encrypted k v)) data).
Proof.
  apply obj_mapM_eq. intros k v _. unfold encrypted_value.
  destruct (is_sensitive toLowerCase k); [|reflexivity].
  destruct (is_nullish v) eqn:Hv.
  - destruct v; try discriminate; reflexivity.
  - apply encrypt_value; [exact key_ok|apply ivs_ok|exact Hv].
Qed.




End UpdateFacts.


(** X22. [update({})] is refused before the database is touched: the
    builder's [update] throws without reporting it, and [updateData]
    reports it once and throws it again; the world is otherwise
    unchanged, whether or not the driver is connected. *)
Theorem update_refuses_empty_data
  (NumberToString : float -> list N) (key : list N)
  (regex_test : list N -> list N -> list N -> bool)
  (toLowerCase : list N -> list N)
  (match_condition : list N -> option (list N * list N))
  (ivs : list N -> list N) (now : value) (q : builder)
  (collectionName whereClause : list N) (whereParams : list value)
  (w : world) :
  update NumberToString key regex_test toLowerCase ivs now ∅ q w =
  (Throw (Error "No data provided for update"), w) /\
  updateData NumberToString key regex_test toLowerCase match_condition ivs
    now collectionName ∅ whereClause whereParams w =
  (Throw (Error "No data provided for update"),
   alert (AlertDatabaseError (js "CosmosDB updateData operation")
            (Error "No data provided for update")) w).
Proof. split; reflexivity. Qed.


(* ================================================================== *)
(** * [postData], [insertUser] and reading back *)
(* ================================================================== *)

(** No document of [docs] has the identifier [oid]. *)
Definition fresh (oid : list N) (docs : list (gmap (list N) value)) : Prop :=
  Forall (fun d => bson_eqb (VObjectId oid) (field_of d ID) = false) docs.

Lemma collection_after_store (name : list N)
  (l l0 : list (gmap (list N) value)) (w : world) :
  collection name w = Ok l0 -> collection name (store name l w) = Ok l.
Proof.
  unfold collection, store. destruct (w_db w) as [db|]; [|discriminate].
  intros _. cbn [w_db set_db]. rewrite lookup_insert_eq. reflexivity.
Qed.

Section PostFacts.

Variable Number : list N -> float.
Variable NumberToString : float -> list N.
Variable key : list N.
Variable regex_test : list N -> list N -> list N -> bool.
Variable server_sort :
  list N -> Z -> list (gmap (list N) value) -> list (gmap (list N) value).
Variable toLowerCase : list N -> list N.
Variable ivs : list N -> list N.

Hypothesis key_ok : is_key key.
Hypothesis ivs_ok : forall k, state_of 4 (ivs k).

Notation encrypted := (encrypted_value NumberToString key toLowerCase ivs).

(** The document [postData] stores. *)
Definition posted_doc (created updated : value) (oid : list N)
  (data : gmap (list N) value) : gmap (list N) value :=
  <[ID := VObjectId oid]>
    (doc_to_bson
       (<[UPDATED_AT := updated]>
          (<[CREATED_AT := created]>
             (map_imap (fun k v => Some (encrypted k v)) data)))).

Lemma postData_eq (created updated : value) (oid name : list N)
  (data : gmap (list N) value) (w : world)
  (docs : list (gmap (list N) value)) :
  data !! ID = None -> collection name w = Ok docs -> fresh oid docs ->
  postData NumberToString key toLowerCase ivs created updated oid name
    data w =
  (Ok oid, store name (docs ++ [posted_doc created updated oid data]) w).
Proof.
  intros Hid Hc Hf. unfold postData, alert_and_rethrow.
  rewrite Hc, (_encryptData_eq NumberToString key toLowerCase ivs
                 key_ok ivs_ok).
  cbn [mbind result_bind bind]. unfold insertOne.
  fold UPDATED_AT CREATED_AT.
  set (doc := <[UPDATED_AT := updated]> _).
  assert (Hd : doc !! ID = None).
  { subst doc. rewrite !lookup_insert_ne by discriminate.
    rewrite map_lookup_imap, Hid. reflexivity. }
  assert (Hn : is_nullish (field_of doc ID) = true)
    by (unfold field_of; rewrite Hd; reflexivity).
  rewrite !Hn.
  assert (Hi : field_of (<[ID := VObjectId oid]> (doc_to_bson doc)) ID
               = VObjectId oid)
    by (unfold field_of; rewrite lookup_insert_eq; reflexivity).
  rewrite !Hi.
  assert (He : existsb (fun d => bson_eqb (VObjectId oid) (field_of d ID))
                 docs = false).
  { clear -Hf. induction Hf as [|d l Hd Hl IH]; [reflexivity|].
    cbn [existsb]. rewrite Hd, IH. reflexivity. }
  rewrite He. cbn [mbind result_bind bind fst snd String_]. reflexivity.
Qed.

Lemma posted_doc_lookup (created updated : value) (oid : list N)
  (data : gmap (list N) value) (k : list N) :
  k <> ID -> k <> UPDATED_AT -> k <> CREATED_AT ->
  posted_doc created updated oid data !! k =
  (fun v => to_bson (encrypted k v)) <$> data !! k.
Proof.
  intros H1 H2 H3. unfold posted_doc, doc_to_bson.
  rewrite lookup_insert_ne by congruence.
  rewrite lookup_fmap, !lookup_insert_ne by congruence.
  rewrite map_lookup_imap. destruct (data !! k); reflexivity.
Qed.

Lemma posted_doc_has_id (created updated : value) (oid : list N)
  (data : gmap (list N) value) :
  has_id (posted_doc created updated oid data).
Proof.
  exists (VObjectId oid). split; [apply lookup_insert_eq|].
  split; discriminate.
Qed.

(** [get()] on a builder that was only made by [table]. *)
Lemma get_table (name : list N) (w : world)
  (docs : list (gmap (list N) value)) :
  collection name w = Ok docs -> Forall has_id docs ->
  get Number NumberToString key regex_test server_sort (table name) w =
  (Ok (map (formatted_row Number NumberToString key) docs), w).
Proof.
  intros Hc Hid. apply get_ok.
  rewrite (get_try_eq Number NumberToString key regex_test server_sort
             (table name) w docs ∅ Hc (build_table name) query_valid_empty).
  rewrite filter_all by apply matches_empty.
  change (cursor_project _ _) with docs.
  apply mapM_ok_map. eapply Forall_impl; [exact Hid|].
  intros d Hd. apply format_row_ok, Hd.
Qed.

Lemma formatted_row_lookup (d : gmap (list N) value) (k : list N)
  (v : value) :
  d !! k = Some v ->
  formatted_row Number NumberToString key d !! k =
  Some (decrypted_value Number key k v).
Proof.
  intros H. unfold formatted_row. apply lookup_union_Some_l.
  rewrite map_lookup_imap, H. reflexivity.
Qed.

End PostFacts.


(** X24. A user written by [insertUser] is read back by [getAllUsers]:
    on a connected driver whose [users] documents all have an [_id],
    under a 32-byte key and 16-byte initialization vectors, with a
    [toLowerCase] that leaves [name] and [email] as they are, for an
    identifier that no document has and for a name and an email that are
    well-formed strings (each of their surrogates is half of a pair): the
    name and the email are stored as ciphertexts that differ from them,
    and [getAllUsers] then returns the rows it returned before followed
    by one row for the new user, whose [id] is the identifier, and whose
    name and email are the strings given, or numbers when [Number] reads
    them as numbers. *)
Theorem inserted_user_is_read_back
  (Number : list N -> float) (NumberToString : float -> list N)
  (key : list N) (regex_test : list N -> list N -> list N -> bool)
  (server_sort : list N -> Z -> list (gmap (list N) value)
                 -> list (gmap (list N) value))
  (toLowerCase : list N -> list N) (ivs : list N -> list N)
  (created updated : value) (oid name email : list N) (w : world)
  (docs : list (gmap (list N) value)) :
  is_key key -> (forall k, state_of 4 (ivs k)) ->
  toLowerCase (js "name") = js "name" ->
  toLowerCase (js "email") = js "email" ->
  collection (js "users") w = Ok docs -> Forall has_id docs ->
  fresh oid docs ->
  well_formed name = true -> well_formed email = true ->
  exists w' doc row,
    insertUser NumberToString key toLowerCase ivs created updated oid
      (VStr name) (VStr email) w = (Ok oid, w') /\
    collection (js "users") w' = Ok (docs ++ [doc]) /\
    (exists c, doc !! js "name" = Some (VStr c) /\ c <> name) /\
    (exists c, doc !! js "email" = Some (VStr c) /\ c <> email) /\
    getAllUsers Number NumberToString key regex_test server_sort w' =
    (Ok (map (formatted_row Number NumberToString key) docs ++ [row]), w')
    /\ row !! js "id" = Some (VStr oid)
    /\ row !! js "name" =
       Some (if PrimFloat.is_nan (Number name) then VStr name
             else VNum (Number name))
    /\ row !! js "email" =
       Some (if PrimFloat.is_nan (Number email) then VStr email
             else VNum (Number email)).
Proof.
  intros Hk Hiv Hn He Hc Hid Hf Hwn Hwe.
  set (data := <[js "name" := VStr name]>
                 (<[js "email" := VStr email]> (∅ : gmap (list N) value))).
  set (doc := posted_doc NumberToString key toLowerCase ivs created updated
                oid data).
  set (w' := store (js "users") (docs ++ [doc]) w).
  assert (Hsn : is_sensitive toLowerCase (js "name") = true).
  { unfold is_sensitive. rewrite Hn. reflexivity. }
  assert (Hse : is_sensitive toLowerCase (js "email") = true).
  { unfold is_sensitive. rewrite He. reflexivity. }
  assert (Hdn : doc !! js "name"
                = Some (encrypted_value NumberToString key toLowerCase ivs
                          (js "name") (VStr name))).
  { subst doc. rewrite posted_doc_lookup by discriminate.
    subst data. rewrite lookup_insert_eq.
    cbn [fmap option_fmap option_map].
    unfold encrypted_value. rewrite Hsn. reflexivity. }
  assert (Hde : doc !! js "email"
                = Some (encrypted_value NumberToString key toLowerCase ivs
                          (js "email") (VStr email))).
  { subst doc. rewrite posted_doc_lookup by discriminate.
    subst data. rewrite lookup_insert_ne by discriminate.
    rewrite lookup_insert_eq. cbn [fmap option_fmap option_map].
    unfold encrypted_value. rewrite Hse. reflexivity. }
  assert (Hc' : collection (js "users") w' = Ok (docs ++ [doc])).
  { eapply collection_after_store, Hc. }
  exists w', doc, (formatted_row Number NumberToString key doc).
  split; [|split; [exact Hc'|split; [|split; [|split; [|split; [|split]]]]]].
  - unfold insertUser, report_again. fold data.
    rewrite (postData_eq NumberToString key toLowerCase ivs Hk Hiv
               created updated oid (js "users") data w docs);
      [reflexivity|reflexivity|exact Hc|exact Hf].
  - eexists. split.
    + rewrite Hdn. unfold encrypted_value. rewrite Hsn. reflexivity.
    + intros Heq. symmetry in Heq. revert Heq. cbn [String_].
      apply ciphertext_differs;
        [exact Hk|apply Hiv|apply well_formed_units, Hwn].
  - eexists. split.
    + rewrite Hde. unfold encrypted_value. rewrite Hse. reflexivity.
    + intros Heq. symmetry in Heq. revert Heq. cbn [String_].
      apply ciphertext_differs;
        [exact Hk|apply Hiv|apply well_formed_units, Hwe].
  - unfold getAllUsers, report_again.
    rewrite (get_table Number NumberToString key regex_test server_sort
               (js "users") w' (docs ++ [doc]) Hc').
    + rewrite map_app. reflexivity.
    + apply Forall_app. split; [exact Hid|].
      constructor; [apply posted_doc_has_id|constructor].
  - unfold formatted_row.
    rewrite lookup_union_r.
    + rewrite lookup_singleton_eq. unfold field_of.
      subst doc. unfold posted_doc. rewrite lookup_insert_eq. reflexivity.
    + rewrite map_lookup_imap. subst doc.
      rewrite posted_doc_lookup by discriminate. reflexivity.
  - rewrite (formatted_row_lookup _ _ _ _ _ _ Hdn). f_equal.
    apply (decrypted_encrypted_value Number NumberToString key toLowerCase
             ivs Hk Hiv (js "name") (VStr name));
      [discriminate|exact Hsn|reflexivity|exact Hwn].
  - rewrite (formatted_row_lookup _ _ _ _ _ _ Hde). f_equal.
    apply (decrypted_encrypted_value Number NumberToString key toLowerCase
             ivs Hk Hiv (js "email") (VStr email));
      [discriminate|exact Hse|reflexivity|exact Hwe].
Qed.


(* ================================================================== *)
(** * Sample writes *)
(* ================================================================== *)

(** A world with an empty [users] collection. *)
Definition users_world : world := world_of {[ js "users" := [] ]}.

Lemma users_collection : collection (js "users") users_world = Ok [].
Proof.
  unfold collection, users_world, world_of. cbn [w_db].
  rewrite lookup_singleton_eq. reflexivity.
Qed.

Definition sample_patch : gmap (list N) value :=
  {[ js "room" := VStr (js "lab") ]}.



Lemma inserted_user_is_read_back_witness :
  exists w' row,
    insertUser no_NumberToString key_unset lower_ascii (fun _ => sample_iv)
      (VNum 0) (VNum 0) (js "65a000000000000000000004")
      (VStr (js "alice")) (VStr (js "alice@example.org")) users_world =
    (Ok (js "65a000000000000000000004"), w') /\
    getAllUsers no_Number no_NumberToString key_unset no_regex sample_sort
      w' = (Ok [row], w') /\
    row !! js "name" = Some (VStr (js "alice")) /\
    row !! js "email" = Some (VStr (js "alice@example.org")).
Proof.
  destruct (inserted_user_is_read_back no_Number no_NumberToString
              key_unset no_regex sample_sort lower_ascii
              (fun _ => sample_iv) (VNum 0) (VNum 0)
              (js "65a000000000000000000004") (js "alice")
              (js "alice@example.org") users_world []
              key_unset_is_key (fun _ => sample_iv_state))
    as (w' & doc & row & Hi & _ & _ & _ & Hg & _ & Hn & He).
  - reflexivity.
  - reflexivity.
  - exact users_collection.
  - constructor.
  - constructor.
  - vm_compute. reflexivity.
  - vm_compute. reflexivity.
  - exists w', row. split; [exact Hi|]. split; [exact Hg|].
    split; [exact Hn|exact He].
Defined.

(* ================================================================== *)
(** * [_parseWhereClause] *)
(* ================================================================== *)

(** X25. [_parseWhereClause] keeps one filter for each field: for a where
    clause of two conditions that match the condition pattern on the same
    field, other than [__proto__], as in the range [age > ? AND age < ?],
    and at least two parameters, only the second condition is kept, with
    the second parameter; the operator is put in lower case. *)
Theorem parseWhereClause_keeps_last_condition
  (toLowerCase : list N -> list N)
  (match_condition : list N -> option (list N * list N))
  (whereClause c1 c2 field o1 o2 : list N) (v1 v2 : value)
  (rest : list value) :
  split_on AND whereClause = [c1; c2] ->
  match_condition c1 = Some (field, o1) ->
  match_condition c2 = Some (field, o2) ->
  field <> PROTO ->
  _parseWhereClause toLowerCase match_condition whereClause
    (v1 :: v2 :: rest) =
  {[ field := Cond (VStr (toLowerCase o2)) v2 ]}.
Proof.
  intros Hs H1 H2 Hp. unfold _parseWhereClause.
  destruct whereClause as [|x t].
  { vm_compute in Hs. discriminate. }
  rewrite Hs. cbn [parse_conditions]. rewrite H1, H2.
  unfold obj_set. rewrite !bool_decide_eq_false_2 by exact Hp.
  apply insert_insert_eq.
Qed.

Lemma parseWhereClause_keeps_last_condition_witness :
  _parseWhereClause lower_ascii sample_match (js "age > ? AND age < ?")
    [VNum 18; VNum 65] =
  {[ js "age" := Cond (VStr (lower_ascii (js "<"))) (VNum 65) ]}.
Proof.
  apply (parseWhereClause_keeps_last_condition lower_ascii sample_match
           (js "age > ? AND age < ?") (js "age > ?") (js "age < ?")
           (js "age") (js ">") (js "<") (VNum 18) (VNum 65) []).
  - vm_compute. reflexivity.
  - vm_compute. reflexivity.
  - vm_compute. reflexivity.
  - discriminate.
Defined.

(** A condition on [__proto__] uses up its parameter and leaves no
    filter. *)
Lemma parseWhereClause_on_proto :
  _parseWhereClause lower_ascii sample_match
    (js "__proto__ > ? AND age < ?") [VNum 18; VNum 65] =
  {[ js "age" := Cond (VStr (js "<")) (VNum 65) ]}.
Proof. vm_compute. reflexivity. Qed.

(* ================================================================== *)
(** * [getDataByFilters] and failures of the legacy methods *)
(* ================================================================== *)

Lemma trim_start_no_space (s : list N) :
  forallb (fun c => negb (is_space c)) s = true -> trim_start s = s.
Proof.
  destruct s as [|c t]; [reflexivity|]. cbn [forallb trim_start].
  intros H. apply andb_true_iff in H as [H _].
  destruct (is_space c); [discriminate|reflexivity].
Qed.

Lemma trim_no_space (s : list N) :
  forallb (fun c => negb (is_space c)) s = true -> trim s = s.
Proof.
  intros H. unfold trim. rewrite (trim_start_no_space s H).
  rewrite trim_start_no_space.
  - apply rev_involutive.
  - rewrite forallb_forall in *. intros x Hx. apply H.
    apply in_rev, Hx.
Qed.

Lemma split_spaces_aux_no_space (s cur : list N) :
  forallb (fun c => negb (is_space c)) s = true ->
  split_spaces_aux false s cur = [rev cur ++ s].
Proof.
  revert cur. induction s as [|c t IH]; intros cur H.
  - cbn [split_spaces_aux]. rewrite app_nil_r. reflexivity.
  - cbn [forallb] in H. apply andb_true_iff in H as [Hc Ht].
    cbn [split_spaces_aux]. destruct (is_space c); [discriminate|].
    rewrite (IH (c :: cur) Ht). cbn [rev]. rewrite <- app_assoc.
    reflexivity.
Qed.

(** X26. [getDataByFilters] orders in descending order when no direction
    is given. On a connected driver whose documents have an [_id] and
    whose server sorts (its result is a permutation of its input, in the
    server's order for the field and the direction asked), with a
    [toUpperCase] that leaves [DESC] as it is, and for filters that
    compile and are accepted: for an order column without white space,
    given as a string or in an object without a direction,
    [getDataByFilters] returns the rows of all the matching documents in
    the server's order for the direction -1 on that column, and ignores a
    limit that is not positive. *)
Theorem getDataByFilters_orders_descending
  (Number : list N -> float) (NumberToString : float -> list N)
  (key : list N) (regex_test : list N -> list N -> list N -> bool)
  (server_sort : list N -> Z -> list (gmap (list N) value)
                 -> list (gmap (list N) value))
  (precedes : list N -> Z -> gmap (list N) value -> gmap (list N) value
              -> Prop)
  (toUpperCase : list N -> list N)
  (collectionName column : list N) (filters : gmap (list N) fentry)
  (n : Z) (w : world) (docs : list (gmap (list N) value))
  (query : gmap (list N) mcond) :
  toUpperCase (js "DESC") = js "DESC" ->
  column <> [] ->
  forallb (fun c => negb (is_space c)) column = true ->
  (n <= 0)%Z ->
  (forall f dir l,
     Permutation (server_sort f dir l) l /\
     StronglySorted (precedes f dir) (server_sort f dir l)) ->
  collection collectionName w = Ok docs -> Forall has_id docs ->
  _buildMongoQuery (where_object filters (table collectionName)) = Ok query ->
  query_valid query = true ->
  let run o :=
    getDataByFilters Number NumberToString key regex_test server_sort
      toUpperCase collectionName filters o w in
  exists ordered,
    Permutation ordered (List.filter (matches regex_test query) docs) /\
    StronglySorted (precedes column (-1)%Z) ordered /\
    run (Options (Some (OrderText column)) (Some n)) =
    (Ok (map (formatted_row Number NumberToString key) ordered), w) /\
    run (Options (Some (OrderColumn column [])) None) =
    (Ok (map (formatted_row Number NumberToString key) ordered), w).
Proof.
  intros Hup Hne Hsp Hn Hsort Hc Hids Hq Hv run. subst run.
  assert (Hf : apply_filters filters (table collectionName)
               = where_object filters (table collectionName)).
  { unfold apply_filters. destruct (0 <? size filters)%nat eqn:Hs;
      [reflexivity|].
    apply Nat.ltb_ge in Hs.
    assert (filters = ∅) as -> by (apply map_size_empty_iff; lia).
    symmetry. apply where_object_empty. }
  set (q := orderByDesc toUpperCase column
              (where_object filters (table collectionName))).
  assert (Ht : filters_builder toUpperCase collectionName filters
                 (Options (Some (OrderText column)) (Some n)) = q).
  { unfold filters_builder. cbn [o_limit o_orderBy apply_limit].
    destruct (Z.ltb_spec 0 n) as [?|_]; [lia|].
    rewrite Hf. unfold apply_order.
    destruct column as [|c t]; [contradiction|].
    rewrite (trim_no_space _ Hsp). unfold split_spaces.
    rewrite (split_spaces_aux_no_space _ [] Hsp). reflexivity. }
  assert (Ho : filters_builder toUpperCase collectionName filters
                 (Options (Some (OrderColumn column [])) None) = q).
  { unfold filters_builder. cbn [o_limit o_orderBy apply_limit].
    rewrite Hf. unfold apply_order.
    destruct column as [|c t]; [contradiction|]. reflexivity. }
  assert (Hdir : orderDirection q = (-1)%Z /\ orderField q = Some column).
  { subst q. unfold orderByDesc, orderBy. rewrite Hup.
    unfold str_eqb. rewrite bool_decide_eq_true_2 by reflexivity.
    split; reflexivity. }
  destruct Hdir as [Hdir Hfield].
  set (matching := List.filter (matches regex_test query) docs).
  assert (Hget :
    get Number NumberToString key regex_test server_sort q w =
    (Ok (map (formatted_row Number NumberToString key)
           (server_sort column (-1)%Z matching)), w)).
  { rewrite (get_rows Number NumberToString key regex_test server_sort
               (fun f dir l => proj1 (Hsort f dir l)) w docs Hids q query
               Hc Hq Hv).
    unfold cursor_project, cursor_docs, cursor_limit, cursor_skip,
      cursor_sort, _buildProjection.
    rewrite Hdir, Hfield.
    replace (selectFields q) with (@None (list (list N)))
      by (subst q; unfold where_object; reflexivity).
    replace (limitCount q) with (@None Z)
      by (subst q; unfold where_object; reflexivity).
    replace (offsetCount q) with 0%Z
      by (subst q; unfold where_object; reflexivity).
    rewrite bool_decide_eq_true_2 by reflexivity.
    destruct column as [|c t]; [contradiction|]. reflexivity. }
  exists (server_sort column (-1)%Z matching).
  split; [apply Hsort|]. split; [apply Hsort|].
  unfold getDataByFilters, report_again. rewrite Ht, Ho, Hget.
  split; reflexivity.
Qed.

Lemma getDataByFilters_orders_descending_witness :
  exists ordered,
    Permutation ordered (List.filter (matches no_regex ∅) sample_readings)
    /\ StronglySorted (sample_precedes (js "temperature") (-1)%Z) ordered
    /\ getDataByFilters no_Number no_NumberToString key_unset no_regex
         sample_sort upper_ascii (js "sensors") ∅
         (Options (Some (OrderText (js "temperature"))) (Some 0%Z))
         sample_world =
       (Ok (map (formatted_row no_Number no_NumberToString key_unset)
              ordered), sample_world)
    /\ getDataByFilters no_Number no_NumberToString key_unset no_regex
         sample_sort upper_ascii (js "sensors") ∅
         (Options (Some (OrderColumn (js "temperature") [])) None)
         sample_world =
       (Ok (map (formatted_row no_Number no_NumberToString key_unset)
              ordered), sample_world).
Proof.
  assert (Hu : upper_ascii (js "DESC") = js "DESC") by reflexivity.
  assert (Hc : js "temperature" <> []) by discriminate.
  assert (Hs : forallb (fun c => negb (is_space c)) (js "temperature")
               = true) by (vm_compute; reflexivity).
  assert (Hn : (0 <= 0)%Z) by lia.
  assert (Hq : _buildMongoQuery (where_object ∅ (table (js "sensors")))
               = Ok ∅)
    by (rewrite where_object_empty; apply build_table).
  exact (getDataByFilters_orders_descending no_Number no_NumberToString
           key_unset no_regex sample_sort sample_precedes upper_ascii
           (js "sensors") (js "temperature") ∅ 0%Z sample_world
           sample_readings ∅ Hu Hc Hs Hn sample_sort_sorts
           sample_collection sample_readings_stored Hq query_valid_empty).
Defined.

(** What that call returns: the readings of 22, 21 and 20 degrees. *)
Lemma getDataByFilters_example :
  getDataByFilters no_Number no_NumberToString key_unset no_regex
    sample_sort upper_ascii (js "sensors") ∅
    (Options (Some (OrderText (js "temperature"))) (Some 0%Z))
    sample_world =
  (Ok (map (formatted_row no_Number no_NumberToString key_unset)
         [ reading "65a000000000000000000003" 22;
           reading "65a000000000000000000002" 21;
           reading "65a000000000000000000001" 20 ]), sample_world).
Proof. vm_compute. reflexivity. Qed.

(** X27. Before [connect()], the legacy methods fail with the
    [TypeError] of [this.db.collection]: [postData] reports it once, and
    [getDataByFilters], [getAllUsers], [insertUser], [deleteData] and
    [updateData] with data report it twice, first under the name of the
    method they call and then under their own. Nothing else changes. *)
Theorem legacy_methods_before_connect
  (Number : list N -> float) (NumberToString : float -> list N)
  (key : list N) (regex_test : list N -> list N -> list N -> bool)
  (server_sort : list N -> Z -> list (gmap (list N) value)
                 -> list (gmap (list N) value))
  (toUpperCase toLowerCase : list N -> list N)
  (match_condition : list N -> option (list N * list N))
  (ivs : list N -> list N) (created updated : value)
  (oid collectionName whereClause : list N) (whereParams : list value)
  (filters : gmap (list N) fentry) (o : options)
  (data : gmap (list N) value) (name email : value) (w : world) :
  w_db w = None -> data <> ∅ ->
  let e := TypeError "this.db is null" in
  let twice (inner outer : string) :=
    alert (AlertDatabaseError (js outer) e)
      (alert (AlertDatabaseError (js inner) e) w) in
  postData NumberToString key toLowerCase ivs created updated oid
    collectionName data w =
  (Throw e,
   alert (AlertDatabaseError (js "CosmosDB postData operation") e) w) /\
  getDataByFilters Number NumberToString key regex_test server_sort
    toUpperCase collectionName filters o w =
  (Throw e, twice "CosmosDB get operation"%string
                  "CosmosDB getDataByFilters operation"%string) /\
  getAllUsers Number NumberToString key regex_test server_sort w =
  (Throw e, twice "CosmosDB get operation"%string
                  "CosmosDB getAllUsers operation"%string) /\
  insertUser NumberToString key toLowerCase ivs created updated oid
    name email w =
  (Throw e, twice "CosmosDB postData operation"%string
                  "CosmosDB insertUser operation"%string) /\
  deleteData regex_test toLowerCase match_condition collectionName
    whereClause whereParams w =
  (Throw e, twice "CosmosDB delete operation"%string
                  "CosmosDB deleteData operation"%string) /\
  updateData NumberToString key regex_test toLowerCase match_condition ivs
    updated collectionName data whereClause whereParams w =
  (Throw e, twice "CosmosDB update operation"%string
                  "CosmosDB updateData operation"%string).
Proof.
  intros Hdb Hne e twice. subst twice.
  assert (Hs : (size data =? 0)%nat = false).
  { apply Nat.eqb_neq. intros H. apply Hne, map_size_empty_iff, H. }
  unfold postData, getDataByFilters, getAllUsers, insertUser, deleteData,
    updateData, update, report_again, postData, get, get_try, delete_,
    alert_and_rethrow, collection.
  rewrite Hdb, Hs. repeat split.
Qed.

Lemma legacy_methods_before_connect_witness :
  getAllUsers no_Number no_NumberToString key_unset no_regex sample_sort
    world_offline =
  (Throw (TypeError "this.db is null"),
   alert (AlertDatabaseError (js "CosmosDB getAllUsers operation")
            (TypeError "this.db is null"))
     (alert (AlertDatabaseError (js "CosmosDB get operation")
               (TypeError "this.db is null")) world_offline)).
Proof.
  assert (Hd : w_db world_offline = None) by reflexivity.
  assert (Hp : sample_patch <> ∅)
    by apply (map_non_empty_singleton (js "room")).
  exact (proj1 (proj2 (proj2
           (legacy_methods_before_connect no_Number no_NumberToString
              key_unset no_regex sample_sort upper_ascii lower_ascii
              sample_match (fun _ => sample_iv) (VNum 0) (VNum 0) (js "01")
              (js "users") [] [] ∅ (Options None None) sample_patch VNull
              VNull world_offline Hd Hp)))).
Defined.


(* ================================================================== *)
(** * Change streams and [close] *)
(* ================================================================== *)

Lemma obj_mapM_empty {A B} (f : list N -> A -> result B) :
  obj_mapM f (∅ : gmap (list N) A) = Ok ∅.
Proof. unfold obj_mapM. rewrite map_to_list_empty. reflexivity. Qed.

(** X28. On a connected driver whose server opens the change stream,
    [subscribe] opens one stream and invokes nothing yet. A change event
    whose document key has an [_id] is then delivered to the callback,
    once, with the operation type, the identifier as a string, the
    decrypted document and the collection's name; an event without a
    full document, as for a deletion, is delivered with empty data. A
    stream error is reported through [alert] and delivered as well. *)
Theorem subscribe_delivers_changes
  (Number : list N -> float) (NumberToString : float -> list N)
  (key : list N) (collectionName : list N) (callback : nat) (w : world)
  (db : gmap (list N) (list (gmap (list N) value))) :
  w_db w = Some db -> w_watch_error w = None ->
  let i := length (w_streams w) in
  exists w1,
    subscribe collectionName callback w =
    (Ok (CloseStream i collectionName), w1) /\
    w_streams w1 = w_streams w ++ [Stream collectionName callback false] /\
    w_calls w1 = w_calls w /\ w_alerts w1 = w_alerts w /\
    (forall c v,
       documentKey c = Some v -> is_nullish v = false ->
       exists row,
         _decryptRow Number key (default ∅ (fullDocument c)) = Ok row /\
         (fullDocument c = None -> row = ∅) /\
         on_change Number NumberToString key i c w1 =
         Ok (call_back callback
               (Change (operationType c) (String_ NumberToString v) row
                  collectionName) w1)) /\
    (forall e message,
       on_error i e message w1 =
       call_back callback (StreamError message collectionName)
         (alert (AlertDatabaseError
                   (js "CosmosDB change stream for " ++ collectionName) e)
            w1)).
Proof.
  intros Hdb Hw i.
  eexists. split; [|split; [|split; [|split; [|split]]]].
  - unfold subscribe, collection, watch. rewrite Hdb, Hw. reflexivity.
  - reflexivity.
  - reflexivity.
  - reflexivity.
  - intros c v Hk Hv.
    destruct (_decryptRow_ok Number key (default ∅ (fullDocument c)))
      as (row & Hrow & _).
    exists row. split; [exact Hrow|]. split.
    + intros Hn. rewrite Hn in Hrow. cbn [default] in Hrow.
      unfold _decryptRow in Hrow. rewrite obj_mapM_empty in Hrow.
      congruence.
    + unfold on_change. cbn [w_streams set_streams]. subst i.
      rewrite lookup_app_r, Nat.sub_diag by lia. cbn [lookup list_lookup].
      rewrite Hrow, Hk. cbn [mbind result_bind bind].
      destruct v; try discriminate; reflexivity.
  - intros e message. unfold on_error. cbn [w_streams set_streams]. subst i.
    rewrite lookup_app_r, Nat.sub_diag by lia. reflexivity.
Qed.

Lemma subscribe_delivers_changes_witness :
  exists w1,
    subscribe (js "sensors") 7 sample_world =
    (Ok (CloseStream 0 (js "sensors")), w1) /\
    on_change no_Number no_NumberToString key_unset 0
      (ChangeEvent (js "delete")
         (Some (VObjectId (js "65a000000000000000000001"))) None) w1 =
    Ok (call_back 7
          (Change (js "delete") (js "65a000000000000000000001") ∅
             (js "sensors")) w1).
Proof.
  destruct (subscribe_delivers_changes no_Number no_NumberToString
              key_unset (js "sensors") 7 sample_world
              {[ js "sensors" := sample_readings ]} eq_refl eq_refl)
    as (w1 & Hs & _ & _ & _ & Hc & _).
  exists w1. split; [exact Hs|].
  destruct (Hc (ChangeEvent (js "delete")
                  (Some (VObjectId (js "65a000000000000000000001"))) None)
              (VObjectId (js "65a000000000000000000001")) eq_refl eq_refl)
    as (row & _ & Hrow & Ho).
  rewrite (Hrow eq_refl) in Ho. exact Ho.
Defined.

Lemma lookup_alter_close (ss : list stream) (i : nat) :
  alter close_stream i ss !! i = close_stream <$> ss !! i.
Proof. rewrite list_lookup_alter, decide_True by reflexivity. reflexivity. Qed.

(** X29. Calling the function [subscribe] resolved to closes its stream
    and reports it through [alert.info]: afterwards neither a change nor
    an error of that stream reaches the callback, the other streams are
    as they were, and no callback has been invoked by the call itself. *)
Theorem unsubscribe_stops_delivery
  (Number : list N -> float) (NumberToString : float -> list N)
  (key : list N) (collectionName : list N) (i : nat) (w : world) :
  let w' := call_unsubscribe (CloseStream i collectionName) w in
  (forall c, on_change Number NumberToString key i c w' = Ok w') /\
  (forall e message, on_error i e message w' = w') /\
  (forall j, j <> i -> w_streams w' !! j = w_streams w !! j) /\
  w_calls w' = w_calls w /\
  w_alerts w' =
  AlertInfo (js "Change stream closed for " ++ collectionName)
    :: w_alerts w.
Proof.
  intros w'. subst w'. cbn [call_unsubscribe].
  split; [|split; [|split; [|split]]].
  - intros c. unfold on_change. cbn [w_streams alert set_streams].
    rewrite lookup_alter_close.
    destruct (w_streams w !! i) as [[n cb b]|]; reflexivity.
  - intros e message. unfold on_error. cbn [w_streams alert set_streams].
    rewrite lookup_alter_close.
    destruct (w_streams w !! i) as [[n cb b]|]; reflexivity.
  - intros j Hj. cbn [w_streams alert set_streams].
    rewrite list_lookup_alter, decide_False by congruence. reflexivity.
  - reflexivity.
  - reflexivity.
Qed.

(** X30. [close()] never throws. When the client closes, the driver is
    marked as disconnected and a second [close()] does nothing more; when
    the client fails to close, the failure is reported and the driver
    stays marked as it was, so that each further [close()] tries
    again. *)
Theorem close_twice (w : world) :
  (w_close_error w = None ->
   close (close w) = close w /\
   w_isConnected (close w) = w_isConnected w && negb (w_client w)) /\
  (forall e,
     w_close_error w = Some e -> w_client w && w_isConnected w = true ->
     close w =
     alert (AlertDatabaseError (js "CosmosDB connection close") e) w /\
     w_isConnected (close w) = w_isConnected w /\
     close (close w) =
     alert (AlertDatabaseError (js "CosmosDB connection close") e)
       (close w)).
Proof.
  split.
  - intros He. unfold close. rewrite He.
    destruct (w_client w) eqn:Hc, (w_isConnected w) eqn:Hi;
      cbn [andb negb]; rewrite ?Hc, ?Hi, ?He; cbn [andb];
      cbn [w_client w_isConnected alert set_isConnected andb];
      rewrite ?Hc, ?Hi; split; reflexivity.
  - intros e He Hc. unfold close. rewrite Hc, He.
    cbn [w_client w_isConnected w_close_error alert]. rewrite Hc, He.
    repeat split.
Qed.
